(** * socio-pilot: the autonomous scheduler and its time utilities

    A shallow embedding of [src/utils/timeUtils.ts] and of the
    [SchedulerManager] class (services/schedulerManager), followed by the
    properties of the scheduling core.

    Conventions of the embedding.
    - A JavaScript [Date] is its time value: the number of milliseconds
      since the epoch, an integer ([Z]).  The scheduler is embedded over
      these; module [DateValue] adds the invalid date and the clipping of
      time values beyond +-8.64e15 ms for the two shifts of timeUtils.
    - The scheduler is embedded for a host whose time zone is a fixed
      offset [tz], the value returned by [getTimezoneOffset()] in minutes
      (UTC minus local time).  Module [Zone] embeds the time utilities and
      the [Date] methods they call for a host whose offset changes, as
      with daylight saving; on a constant zone the two agree.
    - The accessors of [Date] follow the abstract operations of ECMA-262
      (Day, TimeWithinDay, YearFromTime, MonthFromTime, DateFromTime,
      WeekDay, MakeTime, MakeDay, MakeDate, LocalTime, UTC).
    - Awaited calls run to completion: one call of a method is one
      transition, the answers of the collaborators (clock, random numbers,
      content generation, publishing, the store) are read from an
      environment record. *)

From Stdlib Require Import ZArith Lia List Bool Ascii String.
From stdpp Require Import base tactics option list numbers strings pretty gmap.
From stdpp Require Import sorting.

Local Open Scope Z_scope.

(** ** ECMA-262 date arithmetic *)

Module JSDate.

Definition msPerDay : Z := 86400000.
Definition msPerHour : Z := 3600000.
Definition msPerMinute : Z := 60000.
Definition msPerSecond : Z := 1000.

Definition Day (t : Z) : Z := t / msPerDay.
Definition TimeWithinDay (t : Z) : Z := t mod msPerDay.

Definition isLeapYear (y : Z) : bool :=
  if negb (y mod 4 =? 0) then false
  else if negb (y mod 100 =? 0) then true
  else if negb (y mod 400 =? 0) then false
  else true.

Definition DaysInYear (y : Z) : Z := if isLeapYear y then 366 else 365.

Definition DayFromYear (y : Z) : Z :=
  365 * (y - 1970) + (y - 1969) / 4 - (y - 1901) / 100 + (y - 1601) / 400.

Definition TimeFromYear (y : Z) : Z := msPerDay * DayFromYear y.

(** The largest [y] with [TimeFromYear y <= t]: an estimate from the mean
    length of a year, corrected by at most one. *)
Definition YearFromTime (t : Z) : Z :=
  let d := Day t in
  let y := 1970 + (400 * d) / 146097 in
  if d <? DayFromYear y then y - 1
  else if DayFromYear (y + 1) <=? d then y + 1
  else y.

Definition InLeapYear (t : Z) : Z :=
  if isLeapYear (YearFromTime t) then 1 else 0.

Definition DayWithinYear (t : Z) : Z := Day t - DayFromYear (YearFromTime t).

Definition MonthFromDay (dwy leap : Z) : Z :=
  if dwy <? 31 then 0
  else if dwy <? 59 + leap then 1
  else if dwy <? 90 + leap then 2
  else if dwy <? 120 + leap then 3
  else if dwy <? 151 + leap then 4
  else if dwy <? 181 + leap then 5
  else if dwy <? 212 + leap then 6
  else if dwy <? 243 + leap then 7
  else if dwy <? 273 + leap then 8
  else if dwy <? 304 + leap then 9
  else if dwy <? 334 + leap then 10
  else 11.

Definition MonthFromTime (t : Z) : Z :=
  MonthFromDay (DayWithinYear t) (InLeapYear t).

(** Number of days of the year before the first of month [m]. *)
Definition daysBeforeMonth (m leap : Z) : Z :=
  match m with
  | 0 => 0
  | 1 => 31
  | 2 => 59 + leap
  | 3 => 90 + leap
  | 4 => 120 + leap
  | 5 => 151 + leap
  | 6 => 181 + leap
  | 7 => 212 + leap
  | 8 => 243 + leap
  | 9 => 273 + leap
  | 10 => 304 + leap
  | _ => 334 + leap
  end.

Definition DateFromTime (t : Z) : Z :=
  DayWithinYear t - daysBeforeMonth (MonthFromTime t) (InLeapYear t) + 1.

Definition WeekDay (t : Z) : Z := (Day t + 4) mod 7.

Definition MakeTime (hour min sec ms : Z) : Z :=
  hour * msPerHour + min * msPerMinute + sec * msPerSecond + ms.

(** [MakeDay]: the day number of the first of month [month mod 12] of year
    [year + month / 12], plus [date - 1]. *)
Definition MakeDay (year month date : Z) : Z :=
  let ym := year + month / 12 in
  let mn := month mod 12 in
  DayFromYear ym + daysBeforeMonth mn (if isLeapYear ym then 1 else 0)
  + date - 1.

Definition MakeDate (day time : Z) : Z := day * msPerDay + time.

Section Host.
(** [tz]: what [getTimezoneOffset()] returns on this host, in minutes. *)
Variable tz : Z.

Definition LocalTZA : Z := - (tz * msPerMinute).
Definition LocalTime (t : Z) : Z := t + LocalTZA.
Definition UTC (t : Z) : Z := t - LocalTZA.

Definition getTimezoneOffset (t : Z) : Z := (t - LocalTime t) / msPerMinute.

Definition getDay (d : Z) : Z := WeekDay (LocalTime d).
Definition getDate (d : Z) : Z := DateFromTime (LocalTime d).
Definition getHours (d : Z) : Z := (LocalTime d / msPerHour) mod 24.
Definition getMinutes (d : Z) : Z := (LocalTime d / msPerMinute) mod 60.

(** [d.setHours(hour, min, sec, ms)] *)
Definition setHours (d hour min sec ms : Z) : Z :=
  let t := LocalTime d in
  UTC (MakeDate (Day t) (MakeTime hour min sec ms)).

(** [d.setDate(date)] *)
Definition setDate (d date : Z) : Z :=
  let t := LocalTime d in
  UTC (MakeDate (MakeDay (YearFromTime t) (MonthFromTime t) date)
                (TimeWithinDay t)).
End Host.

End JSDate.


(** ** src/utils/timeUtils.ts *)

Module TimeUtils.
Import JSDate.

(** [IST_OFFSET_HOURS = 5.5], written as the fraction 55/10. *)
Definition IST_OFFSET_MS : Z := 55 * 60 * 60 * 1000 / 10.

(** Convert UTC date to IST date. *)
Definition toIST (utcDate : Z) : Z := utcDate + IST_OFFSET_MS.

(** Convert IST date to UTC date. *)
Definition fromIST (istDate : Z) : Z := istDate - IST_OFFSET_MS.

(** [getCurrentIST()]; [now] is the reading of [Date.now()]. *)
Definition getCurrentIST (tz now : Z) : Z :=
  let nowUTC := now + getTimezoneOffset tz now * 60000 in
  toIST nowUTC.

Record DayBounds := { startUTC : Z; endUTC : Z }.

(** [getISTDayBoundsUTC(istDate?)]; a [Date] argument is always truthy, so
    [istDate || getCurrentIST()] is the argument whenever it is given. *)
Definition getISTDayBoundsUTC (tz now : Z) (istDate : option Z) : DayBounds :=
  let currentIST := match istDate with
                    | Some d => d
                    | None => getCurrentIST tz now
                    end in
  let startOfDayIST := setHours tz currentIST 0 0 0 0 in
  let endOfDayIST := setDate tz startOfDayIST (getDate tz startOfDayIST + 1) in
  {| startUTC := fromIST startOfDayIST; endUTC := fromIST endOfDayIST |}.

End TimeUtils.

(** ** The string conversions the scheduler relies on *)

Module JSString.

Definition digit_of (c : ascii) : option Z :=
  let n := Z.of_nat (nat_of_ascii c) in
  if (48 <=? n) && (n <=? 57) then Some (n - 48) else None.

(** [s.split(sep)] for a one-character separator. *)
Fixpoint split (sep : ascii) (s : string) : list string :=
  match s with
  | EmptyString => [EmptyString]
  | String c s' =>
      if Ascii.eqb c sep then EmptyString :: split sep s'
      else match split sep s' with
           | [] => [String c EmptyString]
           | p :: ps => String c p :: ps
           end
  end.

Fixpoint digits_value (acc : Z) (s : string) : option Z :=
  match s with
  | EmptyString => Some acc
  | String c s' =>
      match digit_of c with
      | Some d => digits_value (10 * acc + d) s'
      | None => None
      end
  end.

(** [Number(s)] on strings of decimal digits ([Number("")] is 0); [None]
    stands for NaN.  The other numeric literal forms (white space, sign,
    fraction, exponent, radix prefix) are not part of an "HH:MM" entry and
    are answered [None] as well. *)
Definition Number (s : string) : option Z := digits_value 0 s.

Definition is_ws (c : ascii) : bool :=
  let n := nat_of_ascii c in
  ((n =? 32) || (n =? 9) || (n =? 10) || (n =? 11) || (n =? 12) || (n =? 13))%nat.

Fixpoint skip_ws (s : string) : string :=
  match s with
  | String c s' => if is_ws c then skip_ws s' else s
  | EmptyString => EmptyString
  end.

Fixpoint digits_prefix (acc : option Z) (s : string) : option Z :=
  match s with
  | String c s' =>
      match digit_of c with
      | Some d => digits_prefix (Some (10 * default 0 acc + d)) s'
      | None => acc
      end
  | EmptyString => acc
  end.

(** [parseInt(s, 10)]: leading white space, an optional sign, then the
    longest prefix of decimal digits; [None] stands for NaN. *)
Definition parseInt (s : string) : option Z :=
  match skip_ws s with
  | String "-"%char s' => Z.opp <$> digits_prefix None s'
  | String "+"%char s' => digits_prefix None s'
  | s' => digits_prefix None s'
  end.

End JSString.


(** ** services/schedulerManager: data *)

Module Scheduler.
Import JSDate TimeUtils JSString.

(** The generated payload carried by a job ([PostingJob.content]). *)
Record Content := {
  c_title : string;
  c_content : string;
  c_tags : option (list string);
  c_mediaUrl : option string
}.

(** [interface PostingJob]; [postId] is the key the store assigned. *)
Record PostingJob := {
  attempts : Z;
  platform : string;
  content : Content;
  scheduledTime : Z;
  postId : nat
}.

(** An entry of [days_of_week] as the store returns it: a number or a
    string. *)
Inductive DayEntry :=
  | DNum (n : Z)
  | DStr (s : string).

(** A row of [posting_schedule].  The scheduler receives it untyped:
    [None] is a missing value (for the two arrays: not an array). *)
Record ScheduleEntry := {
  id : string;
  user_id : string;
  platform_name : string;
  max_posts_per_day : option Z;
  preferred_times : option (list string);
  days_of_week : option (list DayEntry);
  is_active : bool
}.

Inductive PostStatus := scheduled | posting | posted | published | failed.

#[export] Instance PostStatus_eq_dec : EqDecision PostStatus.
Proof. solve_decision. Defined.

(** A row of [content_posts]; instants are UTC time values. *)
Record ContentPost := {
  p_id : nat;
  p_user_id : string;
  p_platform_name : string;
  p_post_type : string;
  p_title : string;
  p_content : string;
  p_media_url : option string;
  p_status : PostStatus;
  p_scheduled_for : option Z;
  p_platform_post_id : option string;
  p_error_message : option string;
  p_posted_at : option Z
}.

Inductive NotificationType := success | error | warning | info.

(** What [notificationService.showNotification] is given (the time stamp
    apart). *)
Record Notification := {
  n_type : NotificationType;
  n_title : string;
  n_message : string;
  n_platform : option string
}.

(** What a live timer of the runtime will call. *)
Inductive TimerTask :=
  | ProcessScheduledPosts
  | WatchScheduleChanges
  | MidnightGeneration.

Record Timer := {
  timer_id : positive;
  timer_task : TimerTask;
  timer_ms : Z;
  timer_repeats : bool
}.

(** The fields of a [SchedulerManager], and around them what its methods
    reach: the job objects ([heap], [jobs] holds their addresses), the
    [content_posts] table with the next key of the store, the live timers
    of the runtime, and the notifications shown so far. *)
Record World := {
  jobs : list nat;
  intervalId : option positive;
  scheduleWatchInterval : option positive;
  isRunning : bool;
  dailyGenerationScheduled : bool;
  processingJobs : gset nat;
  lastProcessTime : Z;
  lastScheduleState : string;
  heap : list PostingJob;
  content_posts : list ContentPost;
  next_post_id : nat;
  timers : list Timer;
  next_timer : positive;
  notifications : list Notification
}.

(** A fresh [new SchedulerManager()] over a given store. *)
Definition initial (posts : list ContentPost) (next : nat) : World :=
  {| jobs := []; intervalId := None; scheduleWatchInterval := None;
     isRunning := false; dailyGenerationScheduled := false;
     processingJobs := ∅; lastProcessTime := 0; lastScheduleState := "";
     heap := []; content_posts := posts; next_post_id := next;
     timers := []; next_timer := 1%positive; notifications := [] |}.

Definition set_jobs (v : list nat) (w : World) : World :=
  {| jobs := v; intervalId := intervalId w;
     scheduleWatchInterval := scheduleWatchInterval w;
     isRunning := isRunning w;
     dailyGenerationScheduled := dailyGenerationScheduled w;
     processingJobs := processingJobs w; lastProcessTime := lastProcessTime w;
     lastScheduleState := lastScheduleState w; heap := heap w;
     content_posts := content_posts w; next_post_id := next_post_id w;
     timers := timers w; next_timer := next_timer w;
     notifications := notifications w |}.

Definition set_intervalId (v : option positive) (w : World) : World :=
  {| jobs := jobs w; intervalId := v;
     scheduleWatchInterval := scheduleWatchInterval w;
     isRunning := isRunning w;
     dailyGenerationScheduled := dailyGenerationScheduled w;
     processingJobs := processingJobs w; lastProcessTime := lastProcessTime w;
     lastScheduleState := lastScheduleState w; heap := heap w;
     content_posts := content_posts w; next_post_id := next_post_id w;
     timers := timers w; next_timer := next_timer w;
     notifications := notifications w |}.

Definition set_scheduleWatchInterval (v : option positive) (w : World) : World :=
  {| jobs := jobs w; intervalId := intervalId w;
     scheduleWatchInterval := v;
     isRunning := isRunning w;
     dailyGenerationScheduled := dailyGenerationScheduled w;
     processingJobs := processingJobs w; lastProcessTime := lastProcessTime w;
     lastScheduleState := lastScheduleState w; heap := heap w;
     content_posts := content_posts w; next_post_id := next_post_id w;
     timers := timers w; next_timer := next_timer w;
     notifications := notifications w |}.

Definition set_isRunning (v : bool) (w : World) : World :=
  {| jobs := jobs w; intervalId := intervalId w;
     scheduleWatchInterval := scheduleWatchInterval w;
     isRunning := v;
     dailyGenerationScheduled := dailyGenerationScheduled w;
     processingJobs := processingJobs w; lastProcessTime := lastProcessTime w;
     lastScheduleState := lastScheduleState w; heap := heap w;
     content_posts := content_posts w; next_post_id := next_post_id w;
     timers := timers w; next_timer := next_timer w;
     notifications := notifications w |}.

Definition set_dailyGenerationScheduled (v : bool) (w : World) : World :=
  {| jobs := jobs w; intervalId := intervalId w;
     scheduleWatchInterval := scheduleWatchInterval w;
     isRunning := isRunning w;
     dailyGenerationScheduled := v;
     processingJobs := processingJobs w; lastProcessTime := lastProcessTime w;
     lastScheduleState := lastScheduleState w; heap := heap w;
     content_posts := content_posts w; next_post_id := next_post_id w;
     timers := timers w; next_timer := next_timer w;
     notifications := notifications w |}.

Definition set_processingJobs (v : gset nat) (w : World) : World :=
  {| jobs := jobs w; intervalId := intervalId w;
     scheduleWatchInterval := scheduleWatchInterval w;
     isRunning := isRunning w;
     dailyGenerationScheduled := dailyGenerationScheduled w;
     processingJobs := v; lastProcessTime := lastProcessTime w;
     lastScheduleState := lastScheduleState w; heap := heap w;
     content_posts := content_posts w; next_post_id := next_post_id w;
     timers := timers w; next_timer := next_timer w;
     notifications := notifications w |}.

Definition set_lastProcessTime (v : Z) (w : World) : World :=
  {| jobs := jobs w; intervalId := intervalId w;
     scheduleWatchInterval := scheduleWatchInterval w;
     isRunning := isRunning w;
     dailyGenerationScheduled := dailyGenerationScheduled w;
     processingJobs := processingJobs w; lastProcessTime := v;
     lastScheduleState := lastScheduleState w; heap := heap w;
     content_posts := content_posts w; next_post_id := next_post_id w;
     timers := timers w; next_timer := next_timer w;
     notifications := notifications w |}.

Definition set_lastScheduleState (v : string) (w : World) : World :=
  {| jobs := jobs w; intervalId := intervalId w;
     scheduleWatchInterval := scheduleWatchInterval w;
     isRunning := isRunning w;
     dailyGenerationScheduled := dailyGenerationScheduled w;
     processingJobs := processingJobs w; lastProcessTime := lastProcessTime w;
     lastScheduleState := v; heap := heap w;
     content_posts := content_posts w; next_post_id := next_post_id w;
     timers := timers w; next_timer := next_timer w;
     notifications := notifications w |}.

Definition set_heap (v : list PostingJob) (w : World) : World :=
  {| jobs := jobs w; intervalId := intervalId w;
     scheduleWatchInterval := scheduleWatchInterval w;
     isRunning := isRunning w;
     dailyGenerationScheduled := dailyGenerationScheduled w;
     processingJobs := processingJobs w; lastProcessTime := lastProcessTime w;
     lastScheduleState := lastScheduleState w; heap := v;
     content_posts := content_posts w; next_post_id := next_post_id w;
     timers := timers w; next_timer := next_timer w;
     notifications := notifications w |}.

Definition set_content_posts (v : list ContentPost) (w : World) : World :=
  {| jobs := jobs w; intervalId := intervalId w;
     scheduleWatchInterval := scheduleWatchInterval w;
     isRunning := isRunning w;
     dailyGenerationScheduled := dailyGenerationScheduled w;
     processingJobs := processingJobs w; lastProcessTime := lastProcessTime w;
     lastScheduleState := lastScheduleState w; heap := heap w;
     content_posts := v; next_post_id := next_post_id w;
     timers := timers w; next_timer := next_timer w;
     notifications := notifications w |}.

Definition set_next_post_id (v : nat) (w : World) : World :=
  {| jobs := jobs w; intervalId := intervalId w;
     scheduleWatchInterval := scheduleWatchInterval w;
     isRunning := isRunning w;
     dailyGenerationScheduled := dailyGenerationScheduled w;
     processingJobs := processingJobs w; lastProcessTime := lastProcessTime w;
     lastScheduleState := lastScheduleState w; heap := heap w;
     content_posts := content_posts w; next_post_id := v;
     timers := timers w; next_timer := next_timer w;
     notifications := notifications w |}.

Definition set_timers (v : list Timer) (n : positive) (w : World) : World :=
  {| jobs := jobs w; intervalId := intervalId w;
     scheduleWatchInterval := scheduleWatchInterval w;
     isRunning := isRunning w;
     dailyGenerationScheduled := dailyGenerationScheduled w;
     processingJobs := processingJobs w; lastProcessTime := lastProcessTime w;
     lastScheduleState := lastScheduleState w; heap := heap w;
     content_posts := content_posts w; next_post_id := next_post_id w;
     timers := v; next_timer := n;
     notifications := notifications w |}.

Definition set_notifications (v : list Notification) (w : World) : World :=
  {| jobs := jobs w; intervalId := intervalId w;
     scheduleWatchInterval := scheduleWatchInterval w;
     isRunning := isRunning w;
     dailyGenerationScheduled := dailyGenerationScheduled w;
     processingJobs := processingJobs w; lastProcessTime := lastProcessTime w;
     lastScheduleState := lastScheduleState w; heap := heap w;
     content_posts := content_posts w; next_post_id := next_post_id w;
     timers := timers w; next_timer := next_timer w;
     notifications := v |}.

(** ** Runtime services *)

(** [showNotification(data)]. *)
Definition notify (n : Notification) (w : World) : World :=
  set_notifications (notifications w ++ [n]) w.

(** [setInterval] / [setTimeout]: a new live timer, whose handle is
    returned. *)
Definition add_timer (task : TimerTask) (ms : Z) (repeats : bool) (w : World)
  : positive * World :=
  let h := next_timer w in
  (h, set_timers (timers w ++ [{| timer_id := h; timer_task := task;
                                  timer_ms := ms; timer_repeats := repeats |}])
                 (Pos.succ h) w).

(** [clearInterval(h)]. *)
Definition clearInterval (h : positive) (w : World) : World :=
  set_timers (filter (λ t, timer_id t ≠ h) (timers w)) (next_timer w) w.

(** [supabase.from('content_posts').update(f).eq('id', pid)]. *)
Definition update_post (pid : nat) (f : ContentPost → ContentPost) (w : World)
  : World :=
  set_content_posts
    (map (λ p, if decide (p_id p = pid) then f p else p) (content_posts w)) w.

Definition with_status (st : PostStatus) (p : ContentPost) : ContentPost :=
  {| p_id := p_id p; p_user_id := p_user_id p;
     p_platform_name := p_platform_name p; p_post_type := p_post_type p;
     p_title := p_title p; p_content := p_content p;
     p_media_url := p_media_url p; p_status := st;
     p_scheduled_for := p_scheduled_for p;
     p_platform_post_id := p_platform_post_id p;
     p_error_message := p_error_message p; p_posted_at := p_posted_at p |}.

Definition with_published (ppid : string) (at_ : Z) (p : ContentPost)
  : ContentPost :=
  {| p_id := p_id p; p_user_id := p_user_id p;
     p_platform_name := p_platform_name p; p_post_type := p_post_type p;
     p_title := p_title p; p_content := p_content p;
     p_media_url := p_media_url p; p_status := published;
     p_scheduled_for := p_scheduled_for p;
     p_platform_post_id := Some ppid;
     p_error_message := p_error_message p; p_posted_at := Some at_ |}.

Definition with_failed (msg : string) (p : ContentPost) : ContentPost :=
  {| p_id := p_id p; p_user_id := p_user_id p;
     p_platform_name := p_platform_name p; p_post_type := p_post_type p;
     p_title := p_title p; p_content := p_content p;
     p_media_url := p_media_url p; p_status := failed;
     p_scheduled_for := p_scheduled_for p;
     p_platform_post_id := p_platform_post_id p;
     p_error_message := Some msg; p_posted_at := p_posted_at p |}.

(** ** [stop()] *)

Definition stop (w : World) : World :=
  let w := match intervalId w with
           | Some h => set_intervalId None (clearInterval h w)
           | None => w
           end in
  let w := match scheduleWatchInterval w with
           | Some h => set_scheduleWatchInterval None (clearInterval h w)
           | None => w
           end in
  let w := set_isRunning false w in
  let w := set_processingJobs ∅ w in
  let w := set_lastProcessTime 0 w in
  set_lastScheduleState "" w.

(** ** [getStatus()] *)

Record Status := {
  st_isRunning : bool;
  st_scheduledJobs : nat;
  st_processingJobs : nat;
  st_lastProcessTime : Z;
  st_nextJob : option Z
}.

(** The [scheduledTime] of the job object at address [l]. *)
Definition time_at (h : list PostingJob) (l : nat) : Z :=
  match h !! l with
  | Some j => scheduledTime j
  | None => 0
  end.

(** [Array.prototype.sort] with the comparator
    [(a, b) => a.scheduledTime.getTime() - b.scheduledTime.getTime()]: a
    stable sort, in place. *)
Fixpoint sort_insert (h : list PostingJob) (x : nat) (l : list nat) : list nat :=
  match l with
  | [] => [x]
  | y :: l' =>
      if time_at h x - time_at h y <=? 0 then x :: y :: l'
      else y :: sort_insert h x l'
  end.

Fixpoint sort_jobs (h : list PostingJob) (l : list nat) : list nat :=
  match l with
  | [] => []
  | x :: l' => sort_insert h x (sort_jobs h l')
  end.

(** [getStatus()] returns the snapshot; [this.jobs.sort(...)] leaves
    [this.jobs] sorted, which is the world returned with it. *)
Definition getStatus (w : World) : Status * World :=
  let '(nextJob, w') :=
    if (0 <? length (jobs w))%nat then
      let sorted := sort_jobs (heap w) (jobs w) in
      (time_at (heap w) <$> head sorted, set_jobs sorted w)
    else (None, w) in
  ({| st_isRunning := isRunning w';
      st_scheduledJobs := length (jobs w');
      st_processingJobs := size (processingJobs w');
      st_lastProcessTime := lastProcessTime w';
      st_nextJob := nextJob |}, w').

(** ** [getPostType] *)

Definition getPostType (platform : string) : string :=
  if decide (platform = "hashnode") then "blog"
  else if decide (platform = "devto") then "blog"
  else if decide (platform = "twitter") then "social"
  else if decide (platform = "linkedin") then "social"
  else if decide (platform = "instagram") then "social"
  else if decide (platform = "youtube") then "video"
  else if decide (platform = "reddit") then "social"
  else "social".

(** ** [loadScheduledPosts()] *)

(** The answers of the store to [loadScheduledPosts]: the signed-in user,
    and whether the query returned rows ([data] is not null). *)
Record LoadEnv := {
  l_user : option string;
  l_query_ok : bool
}.

(** [.eq('user_id', uid).eq('status', 'scheduled')
     .not('scheduled_for', 'is', null)] *)
Definition is_recoverable (uid : string) (p : ContentPost) : bool :=
  bool_decide (p_user_id p = uid) && bool_decide (p_status p = scheduled)
  && bool_decide (is_Some (p_scheduled_for p)).

(** The object literal built for a row by [posts.map]. *)
Definition job_of_post (p : ContentPost) : PostingJob :=
  {| attempts := 0;
     platform := p_platform_name p;
     content :=
       {| c_title := p_title p;
          c_content := p_content p;
          c_tags := if bool_decide (p_platform_name p = "hashnode")
                       || bool_decide (p_platform_name p = "devto")
                    then Some [] else None;
          c_mediaUrl := match p_media_url p with
                        | Some EmptyString => None
                        | m => m
                        end |};
     scheduledTime := default 0 (p_scheduled_for p);
     postId := p_id p |}.

(** [this.jobs = objs]: the objects are new, [jobs] holds their
    addresses. *)
Definition assign_jobs (objs : list PostingJob) (w : World) : World :=
  let base := length (heap w) in
  set_jobs (seq base (length objs)) (set_heap (heap w ++ objs) w).

Definition loadScheduledPosts (env : LoadEnv) (w : World) : World :=
  match l_user env with
  | None => w
  | Some uid =>
      if l_query_ok env then
        let posts := filter (λ p, is_recoverable uid p) (content_posts w) in
        assign_jobs (job_of_post <$> posts) w
      else w
  end.

(** ** [processScheduledPosts()] *)

(** The answers of the collaborators during one call: the two readings of
    the clock on entry, and for the job handed to [platformAPI] the outcome
    of the call ([inl] the platform's post id, [inr] the message of the
    error thrown) and the reading of the clock that follows it. *)
Record TickEnv := {
  tick_now : Z;
  tick_currentTime : Z;
  platformAPI : PostingJob → string + string;
  posted_now : PostingJob → Z;
  retry_now : PostingJob → Z
}.

Definition supported_platforms : list string :=
  ["hashnode"; "devto"; "twitter"; "linkedin"; "instagram"; "youtube";
   "reddit"].

(** The [switch (job.platform)]. *)
Definition dispatch (env : TickEnv) (job : PostingJob) : string + string :=
  if bool_decide (platform job ∈ supported_platforms) then platformAPI env job
  else inr ("Unsupported platform: " +:+ platform job).

Definition with_attempts (a : Z) (j : PostingJob) : PostingJob :=
  {| attempts := a; platform := platform j; content := content j;
     scheduledTime := scheduledTime j; postId := postId j |}.

Definition with_scheduledTime (t : Z) (j : PostingJob) : PostingJob :=
  {| attempts := attempts j; platform := platform j; content := content j;
     scheduledTime := t; postId := postId j |}.

(** [this.jobs.filter(j => j.postId !== pid)] *)
Definition remove_job (pid : nat) (w : World) : World :=
  set_jobs (filter (λ l, postId <$> heap w !! l ≠ Some pid) (jobs w)) w.

(** [Math.pow(2, job.attempts) * 60000] *)
Definition backoffMs (attempts : Z) : Z := 2 ^ attempts * 60000.

(** The [catch] block of the loop body, for the job object at [l]. *)
Definition on_publish_error (env : TickEnv) (l : nat) (job : PostingJob)
    (msg : string) (w : World) : World :=
  let job1 := with_attempts (attempts job + 1) job in
  let w := set_heap (<[l := job1]> (heap w)) w in
  if attempts job1 <? 3 then
    let job2 := with_scheduledTime (retry_now env job1 + backoffMs (attempts job1))
                  job1 in
    let w := set_heap (<[l := job2]> (heap w)) w in
    notify {| n_type := warning; n_title := "Retry Scheduled";
              n_message := "Retry #" +:+ pretty (attempts job1) +:+ " for "
                           +:+ platform job1 +:+ " scheduled in "
                           +:+ pretty (backoffMs (attempts job1) / 1000)
                           +:+ "s";
              n_platform := Some (platform job1) |} w
  else
    let w := update_post (postId job1) (with_failed msg) w in
    notify {| n_type := error; n_title := "Post Failed";
              n_message := "Failed to post to " +:+ platform job1 +:+ ": "
                           +:+ msg;
              n_platform := Some (platform job1) |} w.

(** The body of [for (const job of dueJobs)], for the job object at [l]. *)
Definition process_job (env : TickEnv) (w : World) (l : nat) : World :=
  match heap w !! l with
  | None => w
  | Some job =>
      if decide (postId job ∈ processingJobs w) then w
      else
        let w := set_processingJobs ({[postId job]} ∪ processingJobs w) w in
        let w := update_post (postId job) (with_status posting) w in
        let w :=
          match dispatch env job with
          | inl ppid =>
              let w := update_post (postId job)
                         (with_published ppid (posted_now env job)) w in
              let w := remove_job (postId job) w in
              notify {| n_type := success; n_title := "Post Published";
                        n_message := "Successfully posted to "
                                     +:+ platform job;
                        n_platform := Some (platform job) |} w
          | inr msg => on_publish_error env l job msg w
          end in
        set_processingJobs (processingJobs w ∖ {[postId job]}) w
  end.

(** [job.scheduledTime <= currentTime && !this.processingJobs.has(job.postId)] *)
Definition is_due (env : TickEnv) (w : World) (l : nat) : bool :=
  match heap w !! l with
  | Some job => (scheduledTime job <=? tick_currentTime env)
                && negb (bool_decide (postId job ∈ processingJobs w))
  | None => false
  end.

Definition processScheduledPosts (env : TickEnv) (w : World) : World :=
  if tick_now env - lastProcessTime w <? 30000 then w
  else
    let w := set_lastProcessTime (tick_now env) w in
    if (length (jobs w) =? 0)%nat then w
    else
      let dueJobs := filter (λ l, is_due env w l) (jobs w) in
      if (length dueJobs =? 0)%nat then w
      else foldl (process_job env) w dueJobs.

(** ** Daily generation *)

(** The answers of the collaborators while one slot is filled: the random
    draw behind [Math.floor(Math.random() * topics.length)] (any natural
    number, reduced modulo the number of topics), the content generator
    ([None]: it throws), the reading of the clock taken by
    [getCurrentIST()], and whether the insert into [content_posts]
    succeeds. *)
Record SlotEnv := {
  s_random : nat;
  s_generate : string → string → option Content;
  s_now : Z;
  s_insert_ok : bool
}.

(** The answers during one run of [generateContentForToday]: the signed-in
    user, the reading of the clock on entry, the active rows of
    [posting_schedule] ([None]: an error or no data), and for each row the
    reading of the clock in [hasContentForToday], the [topics] of
    [ai_settings] ([None]: not an array) and the answers for each slot. *)
Record GenEnv := {
  g_user : option string;
  g_now : Z;
  g_schedules : option (list ScheduleEntry);
  g_check_now : ScheduleEntry → Z;
  g_topics : ScheduleEntry → option (list string);
  g_slot : ScheduleEntry → nat → SlotEnv
}.

(** [typeof d === 'string' ? parseInt(d, 10) : d]; [None] is NaN. *)
Definition normalize_day (d : DayEntry) : option Z :=
  match d with
  | DNum n => Some n
  | DStr s => parseInt s
  end.

(** The filter of [generateContentForToday]: the normalized entries
    include [day]. *)
Definition runs_on (day : Z) (s : ScheduleEntry) : bool :=
  bool_decide (Some day ∈ normalize_day <$> default [] (days_of_week s)).

(** [daysOfWeek.includes(checkDay)] on the entries as stored: a string is
    never equal to a number. *)
Definition includes_raw (days : list DayEntry) (day : Z) : bool :=
  existsb (λ d, match d with
                | DNum n => n =? day
                | DStr _ => false
                end) days.

Definition in_day_window (b : DayBounds) (p : ContentPost) : bool :=
  match p_scheduled_for p with
  | Some t => (startUTC b <=? t) && (t <? endUTC b)
  | None => false
  end.

Definition hasContentForToday (tz : Z) (env : GenEnv) (w : World)
    (s : ScheduleEntry) : bool :=
  match g_user env with
  | None => false
  | Some uid =>
      let b := getISTDayBoundsUTC tz (g_check_now env s) None in
      let posts :=
        filter (λ p, bool_decide (p_user_id p = uid)
                     && bool_decide (p_platform_name p = platform_name s)
                     && bool_decide (p_status p ∈ [posted; published])
                     && in_day_window b p) (content_posts w) in
      (0 <? length posts)%nat
  end.

(** [const [hours, minutes] = preferredTimes[i].split(':').map(Number)];
    [None] when one of the two is NaN or missing: the date is then invalid
    and [toISOString()] throws. *)
Definition parse_time (s : string) : option (Z * Z) :=
  match Number <$> split ":" s with
  | Some h :: Some m :: _ => Some (h, m)
  | _ => None
  end.

(** The loop [for (let j = 1; j <= 7; j++)] over the candidates [js]. *)
Fixpoint first_scheduled_day (cur : Z) (days : list DayEntry) (js : list Z)
  : option Z :=
  match js with
  | [] => None
  | j :: js' =>
      if includes_raw days (Z.rem (cur + j) 7) then Some j
      else first_scheduled_day cur days js'
  end.

Definition daysToAdd (cur : Z) (days : list DayEntry) : Z :=
  default 1 (first_scheduled_day cur days [1; 2; 3; 4; 5; 6; 7]).

(** The local instant of a slot, lines "Calculate posting time" to
    "schedule for next occurrence": [istNow] is [getCurrentIST()]. *)
Definition scheduledTimeIST (tz istNow : Z) (days : option (list DayEntry))
    (hours minutes : Z) : Z :=
  let t := setHours tz istNow hours minutes 0 0 in
  if t <=? istNow then
    let currentDayOfWeek := getDay tz istNow in
    let daysOfWeek := default [] days in
    setDate tz t (getDate tz t + daysToAdd currentDayOfWeek daysOfWeek)
  else t.

Definition default_topics : list string :=
  ["Technology"; "Programming"; "AI"; "Web Development"].

Definition default_times : list string := ["09:00"; "14:00"; "18:00"].

Definition generation_failed (s : ScheduleEntry) : Notification :=
  {| n_type := error; n_title := "Content Generation Failed";
     n_message := "AI failed to generate content for " +:+ platform_name s
                  +:+ ".";
     n_platform := None |}.

(** [supabase.from('content_posts').insert({...})] followed by
    [this.jobs.push({...})]. *)
Definition insert_scheduled (s : ScheduleEntry) (c : Content) (t : Z)
    (w : World) : World :=
  let pid := next_post_id w in
  let row := {| p_id := pid; p_user_id := user_id s;
                p_platform_name := platform_name s;
                p_post_type := getPostType (platform_name s);
                p_title := c_title c; p_content := c_content c;
                p_media_url := c_mediaUrl c; p_status := scheduled;
                p_scheduled_for := Some t; p_platform_post_id := None;
                p_error_message := None; p_posted_at := None |} in
  let w := set_next_post_id (S pid) (set_content_posts (content_posts w ++ [row]) w) in
  let job := {| attempts := 0; platform := platform_name s; content := c;
                scheduledTime := t; postId := pid |} in
  set_jobs (jobs w ++ [length (heap w)]) (set_heap (heap w ++ [job]) w).

(** The body of the loop over the slots. *)
Definition schedule_slot (tz : Z) (env : GenEnv) (s : ScheduleEntry)
    (topics preferredTimes : list string) (w : World) (i : nat) : World :=
  let e := g_slot env s i in
  let randomTopic := nth (s_random e mod length topics)%nat topics "" in
  match s_generate e (platform_name s) randomTopic with
  | None => notify (generation_failed s) w
  | Some c =>
      match preferredTimes !! i ≫= parse_time with
      | None => notify (generation_failed s) w
      | Some (hours, minutes) =>
          let istNow := getCurrentIST tz (s_now e) in
          let tIST := scheduledTimeIST tz istNow (days_of_week s) hours minutes in
          let scheduledTimeUTC := fromIST tIST in
          if s_insert_ok e then insert_scheduled s c scheduledTimeUTC w
          else w
      end
  end.

(** [schedule.max_posts_per_day || 3] *)
Definition maxPosts (s : ScheduleEntry) : Z :=
  match max_posts_per_day s with
  | Some m => if m =? 0 then 3 else m
  | None => 3
  end.

Definition preferredTimes (s : ScheduleEntry) : list string :=
  default default_times (preferred_times s).

(** The number of iterations of
    [for (let i = 0; i < Math.min(maxPosts, preferredTimes.length); i++)]. *)
Definition slot_count (s : ScheduleEntry) : nat :=
  Z.to_nat (Z.min (maxPosts s) (Z.of_nat (length (preferredTimes s)))).

Definition scheduleContentForPlatform (tz : Z) (env : GenEnv) (w : World)
    (s : ScheduleEntry) : World :=
  let topics := match g_topics env s with
                | Some (t :: ts) => t :: ts
                | _ => default_topics
                end in
  foldl (schedule_slot tz env s topics (preferredTimes s)) w
        (seq 0 (slot_count s)).

(** The body of [for (const schedule of todaySchedules)]. *)
Definition generate_for (tz : Z) (env : GenEnv) (w : World)
    (s : ScheduleEntry) : World :=
  if hasContentForToday tz env w s then w
  else scheduleContentForPlatform tz env w s.

Definition generateContentForToday (tz : Z) (env : GenEnv) (w : World) : World :=
  match g_user env with
  | None => w
  | Some _ =>
      let istNow := getCurrentIST tz (g_now env) in
      let currentDayOfWeek := getDay tz istNow in
      match g_schedules env with
      | None => w
      | Some schedules =>
          if (length schedules =? 0)%nat then w
          else
            let todaySchedules := filter (λ s, runs_on currentDayOfWeek s)
                                         schedules in
            if (length todaySchedules =? 0)%nat then w
            else foldl (generate_for tz env) w todaySchedules
      end
  end.

Definition forceGenerateContent := generateContentForToday.

(** ** [start()] *)

(** [scheduleDailyGeneration()]: [now] is read by [getCurrentIST()],
    [now'] by [new Date().getTime()]. *)
Definition scheduleDailyGeneration (tz now now' : Z) (w : World) : World :=
  let istNow := getCurrentIST tz now in
  let nextMidnightIST := setHours tz istNow 24 0 0 0 in
  let nextMidnightUTC := fromIST nextMidnightIST in
  let msUntilMidnight := nextMidnightUTC - now' in
  snd (add_timer MidnightGeneration msUntilMidnight false w).

Record StartEnv := {
  e_load : LoadEnv;
  e_gen : GenEnv;
  e_midnight_now : Z;
  e_midnight_now' : Z
}.

Definition start (tz : Z) (env : StartEnv) (w : World) : World :=
  if isRunning w then w
  else
    let w := set_isRunning true w in
    let '(h1, w) := add_timer ProcessScheduledPosts 60000 true w in
    let w := set_intervalId (Some h1) w in
    let '(h2, w) := add_timer WatchScheduleChanges 30000 true w in
    let w := set_scheduleWatchInterval (Some h2) w in
    let w := loadScheduledPosts (e_load env) w in
    let w := generateContentForToday tz (e_gen env) w in
    let w := if dailyGenerationScheduled w then w
             else set_dailyGenerationScheduled true
                    (scheduleDailyGeneration tz (e_midnight_now env)
                       (e_midnight_now' env) w) in
    notify {| n_type := info; n_title := "Scheduler Started";
              n_message := "Enhanced autonomous content scheduling is now active";
              n_platform := None |} w.

(** The job objects [this.jobs] refers to, in list order. *)
Definition job_objects (w : World) : list PostingJob :=
  omap (λ l, heap w !! l) (jobs w).

(** The row of [content_posts] with key [pid]. *)
Definition find_post (pid : nat) (w : World) : option ContentPost :=
  List.find (λ p, bool_decide (p_id p = pid)) (content_posts w).

(** The rows of [content_posts] in [w'] that come after those of [w]. *)
Definition new_posts (w w' : World) : list ContentPost :=
  drop (length (content_posts w)) (content_posts w').

(** [w'] has the rows of [w], unchanged, followed by new rows that all
    satisfy [P]. *)
Definition appends (P : ContentPost → Prop) (w w' : World) : Prop :=
  ∃ rows, content_posts w' = content_posts w ++ rows ∧ Forall P rows.

(** A row carries the platform of schedule [s] and is [scheduled]. *)
Definition slot_row (s : ScheduleEntry) (p : ContentPost) : Prop :=
  p_platform_name p = platform_name s ∧ p_status p = scheduled.

End Scheduler.

(** ** Sample data *)

Module Samples.
Import Scheduler.

Definition article : Content :=
  {| c_title := "Hello"; c_content := "World"; c_tags := Some [];
     c_mediaUrl := None |}.

Definition job_a : PostingJob :=
  {| attempts := 0; platform := "devto"; content := article;
     scheduledTime := 200000; postId := 1 |}.

Definition job_b : PostingJob :=
  {| attempts := 0; platform := "hashnode"; content := article;
     scheduledTime := 100000; postId := 2 |}.

Definition row (pid : nat) (name : string) (t : Z) : ContentPost :=
  {| p_id := pid; p_user_id := "u1"; p_platform_name := name;
     p_post_type := "blog"; p_title := "Hello"; p_content := "World";
     p_media_url := None; p_status := scheduled; p_scheduled_for := Some t;
     p_platform_post_id := None; p_error_message := None;
     p_posted_at := None |}.

(** One scheduled post and its job. *)
Definition one_job : World :=
  set_jobs [0%nat] (set_heap [job_a] (initial [row 1 "devto" 200000] 2)).

(** Two scheduled posts; the job listed first is due later. *)
Definition two_jobs : World :=
  set_jobs [0%nat; 1%nat]
    (set_heap [job_a; job_b] (initial [row 1 "devto" 200000; row 2 "hashnode" 100000] 3)).

(** A tick at [now] during which every publish call throws "boom". *)
Definition failing (now : Z) : TickEnv :=
  {| tick_now := now; tick_currentTime := now;
     platformAPI := λ _, inr "boom";
     posted_now := λ _, now; retry_now := λ _, now |}.

(** A tick at [now] during which every publish call succeeds. *)
Definition succeeding (now : Z) : TickEnv :=
  {| tick_now := now; tick_currentTime := now;
     platformAPI := λ _, inl "remote-1";
     posted_now := λ _, now; retry_now := λ _, now |}.

(** The same job after two failed attempts, its post still [scheduled]. *)
Definition retried : World :=
  set_heap [with_attempts 2 job_a] one_job.

(** The store answers for the signed-in user "u1". *)
Definition signed_in : LoadEnv := {| l_user := Some "u1"; l_query_ok := true |}.

(** A schedule row of user "u1" for dev.to. *)
Definition weekly (days : list DayEntry) (maxp : option Z)
    (times : list string) : ScheduleEntry :=
  {| id := "s1"; user_id := "u1"; platform_name := "devto";
     max_posts_per_day := maxp; preferred_times := Some times;
     days_of_week := Some days; is_active := true |}.

(** Wednesday 4 November 2026, 04:30 UTC, which is 10:00 in India. *)
Definition wednesday_10h : Z := 1793766600000.

(** A run at [now] over the rows [l] in which the generator and the store
    always answer. *)
Definition generating (now : Z) (l : list ScheduleEntry) : GenEnv :=
  {| g_user := Some "u1"; g_now := now; g_schedules := Some l;
     g_check_now := λ _, now; g_topics := λ _, None;
     g_slot := λ _ _, {| s_random := 0;
                         s_generate := λ _ _, Some article;
                         s_now := now; s_insert_ok := true |} |}.

End Samples.

(** ** Relations between two states of the scheduler *)

Module Relations.
Import Scheduler.

(** The fields that neither a dispatch tick nor a generation run writes:
    the timer handles, the running flags, the schedule fingerprint and the
    timers of the runtime. *)
Definition same_control (w w' : World) : Prop :=
  intervalId w' = intervalId w
  ∧ scheduleWatchInterval w' = scheduleWatchInterval w
  ∧ isRunning w' = isRunning w
  ∧ dailyGenerationScheduled w' = dailyGenerationScheduled w
  ∧ lastScheduleState w' = lastScheduleState w
  ∧ timers w' = timers w
  ∧ next_timer w' = next_timer w.

(** A job object before and after: the same post, platform and payload,
    and no fewer attempts. *)
Definition job_step (j j' : PostingJob) : Prop :=
  postId j' = postId j
  ∧ platform j' = platform j
  ∧ content j' = content j
  ∧ attempts j <= attempts j'.

(** A row of [content_posts] before and after: the same key, owner,
    platform, type, text, media and scheduled instant; and a row that is
    [scheduled] afterwards has not been written at all. *)
Definition row_step (p p' : ContentPost) : Prop :=
  p_id p' = p_id p
  ∧ p_user_id p' = p_user_id p
  ∧ p_platform_name p' = p_platform_name p
  ∧ p_post_type p' = p_post_type p
  ∧ p_title p' = p_title p
  ∧ p_content p' = p_content p
  ∧ p_media_url p' = p_media_url p
  ∧ p_scheduled_for p' = p_scheduled_for p
  ∧ (p_status p' = scheduled → p' = p).

(** What relates the state before a dispatch tick to the state after. *)
Definition tick_step (w w' : World) : Prop :=
  Forall2 job_step (heap w) (heap w')
  ∧ Forall2 row_step (content_posts w) (content_posts w')
  ∧ processingJobs w' = processingJobs w
  ∧ jobs w' `sublist_of` jobs w
  ∧ next_post_id w' = next_post_id w
  ∧ same_control w w'.

(** What one iteration of the dispatch loop makes of a row of the job's
    post: [posting], then [published] on success, [failed] once the
    retries are exhausted, and still [posting] when a retry is planned. *)
Definition outcome_row (env : TickEnv) (job : PostingJob) (p : ContentPost)
  : ContentPost :=
  match dispatch env job with
  | inl ppid => with_published ppid (posted_now env job) (with_status posting p)
  | inr msg =>
      if attempts job + 1 <? 3 then with_status posting p
      else with_failed msg (with_status posting p)
  end.

(** What the [catch] block makes of the job object. *)
Definition job_after_failure (env : TickEnv) (job : PostingJob) : PostingJob :=
  let job1 := with_attempts (attempts job + 1) job in
  if attempts job1 <? 3 then
    with_scheduledTime (retry_now env job1 + backoffMs (attempts job1)) job1
  else job1.

(** Every address of [due] holds a job whose post is not being
    processed. *)
Definition ready (due : list nat) (w : World) : Prop :=
  ∀ l, l ∈ due → ∃ job, heap w !! l = Some job
                        ∧ postId job ∉ processingJobs w.

(** The publish call succeeds for every job object listed in [due]. *)
Definition succeeds_on (env : TickEnv) (due : list nat) (w : World) : Prop :=
  ∀ l job, l ∈ due → heap w !! l = Some job →
           ∃ ppid, dispatch env job = inl ppid.

(** A row that went through a successful publish. *)
Definition is_published (p : ContentPost) : Prop :=
  p_status p = published
  ∧ is_Some (p_platform_post_id p)
  ∧ is_Some (p_posted_at p).

(** What relates the state before a generation run, or before the
    recovery step, to the state after: only the jobs, their objects, the
    posts and the notifications may differ. *)
Definition gen_frame (w w' : World) : Prop :=
  same_control w w'
  ∧ processingJobs w' = processingJobs w
  ∧ lastProcessTime w' = lastProcessTime w.

#[export] Instance TimerTask_eq_dec : EqDecision TimerTask.
Proof. solve_decision. Defined.

(** The job list refers to allocated job objects only. *)
Definition jobs_allocated (w : World) : Prop :=
  Forall (λ l, (l < length (heap w))%nat) (jobs w).

(** The topics [scheduleContentForPlatform] draws from. *)
Definition topics_of (env : GenEnv) (s : ScheduleEntry) : list string :=
  match g_topics env s with
  | Some (t :: ts) => t :: ts
  | _ => default_topics
  end.

(** Slot [i] of schedule [s] gets content: the generator answers for the
    topic drawn. *)
Definition slot_generates (env : GenEnv) (s : ScheduleEntry) (i : nat) : bool :=
  let e := g_slot env s i in
  let topics := topics_of env s in
  bool_decide (is_Some (s_generate e (platform_name s)
                          (nth (s_random e mod length topics)%nat topics ""))).

(** Slot [i] has a time that parses. *)
Definition slot_parses (s : ScheduleEntry) (i : nat) : bool :=
  bool_decide (is_Some (preferredTimes s !! i ≫= parse_time)).

(** Slot [i] ends with a new row: content, a time, and the insert
    succeeds. *)
Definition slot_inserts (env : GenEnv) (s : ScheduleEntry) (i : nat) : bool :=
  slot_generates env s i && slot_parses s i && s_insert_ok (g_slot env s i).

(** Slot [i] ends in the [catch] block, with a notification. *)
Definition slot_notifies (env : GenEnv) (s : ScheduleEntry) (i : nat) : bool :=
  negb (slot_generates env s i && slot_parses s i).

(** The job [j] mirrors the row [p]: same post, platform, instant, title,
    content and media, and no attempt made. *)
Definition mirrors (p : ContentPost) (j : PostingJob) : Prop :=
  postId j = p_id p
  ∧ platform j = p_platform_name p
  ∧ Some (scheduledTime j) = p_scheduled_for p
  ∧ attempts j = 0
  ∧ c_title (content j) = p_title p
  ∧ c_content (content j) = p_content p
  ∧ c_mediaUrl (content j) = p_media_url p
  ∧ p_status p = scheduled.

(** The job objects listed in [w'] after those listed in [w]. *)
Definition new_jobs (w w' : World) : list PostingJob :=
  drop (length (job_objects w)) (job_objects w').

(** [w'] lists the jobs of [w] followed by one new job per new row, each
    mirroring its row. *)
Definition grows (w w' : World) : Prop :=
  jobs_allocated w →
  jobs_allocated w'
  ∧ ∃ rows js, content_posts w' = content_posts w ++ rows
               ∧ job_objects w' = job_objects w ++ js
               ∧ Forall2 mirrors rows js.

(** The handles of the live timers are older than the next handle. *)
Definition timers_fresh (w : World) : Prop :=
  Forall (λ t, (timer_id t < next_timer w)%positive) (timers w).

End Relations.

(** ** More sample data *)

Module MoreSamples.
Import Scheduler Samples.

(** A start at [now]: the user is signed in, no schedule is active. *)
Definition starting (now : Z) : StartEnv :=
  {| e_load := signed_in; e_gen := generating now [];
     e_midnight_now := now; e_midnight_now' := now |}.

(** A fresh scheduler over an empty store. *)
Definition fresh : World := initial [] 1.

End MoreSamples.

(** ** [watchScheduleChanges()] *)

Module Watcher.
Import JSDate TimeUtils JSString Scheduler.

(** The double quote. *)
Definition dquote : ascii := ascii_of_nat 34.

Definition hex_digit (n : nat) : ascii :=
  nth n ["0"; "1"; "2"; "3"; "4"; "5"; "6"; "7"; "8"; "9";
         "a"; "b"; "c"; "d"; "e"; "f"]%char "0"%char.

(** The escape of one character inside a JSON string: the quote, the
    backslash, the five short escapes, [\u00XX] for the other control
    characters, and the character itself otherwise. *)
Definition json_escape (c : ascii) : string :=
  let n := nat_of_ascii c in
  if (n =? 34)%nat then String "\"%char (String dquote "")
  else if (n =? 92)%nat then "\\"
  else if (n =? 8)%nat then "\b"
  else if (n =? 9)%nat then "\t"
  else if (n =? 10)%nat then "\n"
  else if (n =? 12)%nat then "\f"
  else if (n =? 13)%nat then "\r"
  else if (n <? 32)%nat then
    "\u00" +:+ String (hex_digit (n / 16)) (String (hex_digit (n mod 16)) "")
  else String c "".

Fixpoint json_chars (s : string) : string :=
  match s with
  | EmptyString => ""
  | String c s' => json_escape c +:+ json_chars s'
  end.

(** [JSON.stringify] of a string. *)
Definition json_string (s : string) : string :=
  String dquote (json_chars s) +:+ String dquote "".

(** [JSON.stringify] of an integer. *)
Definition json_number (n : Z) : string := pretty n.

Definition json_bool (b : bool) : string := if b then "true" else "false".

Fixpoint json_join (l : list string) : string :=
  match l with
  | [] => ""
  | [x] => x
  | x :: l' => x +:+ "," +:+ json_join l'
  end.

(** [JSON.stringify] of an array whose elements are already rendered. *)
Definition json_array (l : list string) : string := "[" +:+ json_join l +:+ "]".

Definition json_day (d : DayEntry) : string :=
  match d with
  | DNum n => json_number n
  | DStr s => json_string s
  end.

(** [JSON.stringify] of the object built for a row by [schedules.map];
    a missing value is [null]. *)
Definition json_schedule (s : ScheduleEntry) : string :=
  "{" +:+ json_string "id" +:+ ":" +:+ json_string (id s)
  +:+ "," +:+ json_string "platform" +:+ ":" +:+ json_string (platform_name s)
  +:+ "," +:+ json_string "times" +:+ ":"
  +:+ match preferred_times s with
      | Some l => json_array (json_string <$> l)
      | None => "null"
      end
  +:+ "," +:+ json_string "days" +:+ ":"
  +:+ match days_of_week s with
      | Some l => json_array (json_day <$> l)
      | None => "null"
      end
  +:+ "," +:+ json_string "maxPosts" +:+ ":"
  +:+ match max_posts_per_day s with
      | Some n => json_number n
      | None => "null"
      end
  +:+ "," +:+ json_string "active" +:+ ":" +:+ json_bool (is_active s)
  +:+ "}".

(** [JSON.stringify(schedules?.map(...) || [])] *)
Definition currentScheduleState (schedules : option (list ScheduleEntry))
  : string :=
  json_array (json_schedule <$> default [] schedules).

(** [watchScheduleChanges()], with the answers of a generation run. *)
Definition watchScheduleChanges (tz : Z) (env : GenEnv) (w : World) : World :=
  match g_user env with
  | None => w
  | Some _ =>
      let schedules := g_schedules env in
      let state := currentScheduleState schedules in
      if decide (lastScheduleState w ≠ state) then
        let w := set_lastScheduleState state w in
        let istNow := getCurrentIST tz (g_now env) in
        let currentDayOfWeek := getDay tz istNow in
        let todaySchedules :=
          filter (λ s, runs_on currentDayOfWeek s) (default [] schedules) in
        if (0 <? length todaySchedules)%nat then
          foldl (generate_for tz env) w todaySchedules
        else w
      else w
  end.

End Watcher.

Module WatcherSamples.
Import Scheduler Samples.

(** A start at [now] with the rows [l] active. *)
Definition starting_with (now : Z) (l : list ScheduleEntry) : StartEnv :=
  {| e_load := signed_in; e_gen := generating now l;
     e_midnight_now := now; e_midnight_now' := now |}.

(** One dev.to slot at 18:00 on Wednesdays. *)
Definition wednesday_evening : ScheduleEntry :=
  weekly [DNum 3] (Some 1) ["18:00"].

End WatcherSamples.

(** ** services/contentGenerator *)

Module ContentGenerator.

Definition priority : list string := ["rapidapi-gpt4"; "gemini-2.0"; "llama3-8b"].

(** [if (activeModels.includes(m)) ordered.push(m)] *)
Definition push_if_active (activeModels ordered : list string) (m : string)
  : list string :=
  if bool_decide (m ∈ activeModels) then ordered ++ [m] else ordered.

(** [if (!ordered.includes(m)) ordered.push(m)] *)
Definition push_if_new (ordered : list string) (m : string) : list string :=
  if bool_decide (m ∈ ordered) then ordered else ordered ++ [m].

(** [getOrderedModels(activeModels)]: the two [forEach] loops. *)
Definition getOrderedModels (activeModels : list string) : list string :=
  foldl push_if_new
        (foldl (push_if_active activeModels) [] priority) activeModels.

(** [selectBestModel(activeModels)]; the empty string is falsy in
    [activeModels[0] || 'rapidapi-gpt4']. *)
Definition selectBestModel (activeModels : list string) : string :=
  match List.find (λ m, bool_decide (m ∈ activeModels)) priority with
  | Some m => m
  | None =>
      match activeModels with
      | m :: _ => if bool_decide (m = "") then "rapidapi-gpt4" else m
      | [] => "rapidapi-gpt4"
      end
  end.

Inductive ContentType := blog | social | video | thread.

(** [getContentType(platform)] *)
Definition getContentType (platform : string) : ContentType :=
  if bool_decide (platform ∈ ["hashnode"; "devto"]) then blog
  else if bool_decide (platform ∈ ["instagram"; "youtube"]) then video
  else if bool_decide (platform = "twitter") then thread
  else social.

(** What a model answered, once parsed: [tags] is [None] when it is not an
    array. *)
Record Parsed := {
  r_title : string;
  r_body : string;
  r_tags : option (list string);
  r_mediaUrl : option string
}.

(** An error value: its [message] and what [String(err)] gives. *)
Record JsError := {
  err_message : string;
  err_shown : string
}.

(** [new Error(msg)] *)
Definition Error (msg : string) : JsError :=
  {| err_message := msg; err_shown := "Error: " +:+ msg |}.

(** The answer of [supabase.functions.invoke('generate-content', ...)] for
    one model: an error (returned or thrown), or data; the data, after
    [cleanJson] when it is a string, is an object ([Some]) or not. *)
Inductive Invoke :=
  | InvokeError (e : JsError)
  | InvokeData (parsed : option Parsed).

(** The body of the [try] for one model: the content returned, or the
    error caught. *)
Definition try_model (r : Invoke) : Parsed + JsError :=
  match r with
  | InvokeError e => inr e
  | InvokeData None => inr (Error "AI returned invalid response format")
  | InvokeData (Some p) =>
      if negb (bool_decide (r_title p = "")) && negb (bool_decide (r_body p = ""))
      then
        if bool_decide (r_title p = "Generated Content")
           && match r_tags p with
              | Some tags => bool_decide ("generated" ∈ tags)
              | None => false
              end
        then inr (Error "LLM returned fallback content")
        else inl p
      else inr (Error "AI returned invalid response format")
  end.

(** The loop [for (const model of orderedModels)]: the content of the
    first model that answers well, or the last error caught. *)
Fixpoint try_models (invoke : string → Invoke) (models : list string)
    (lastError : option JsError) : Parsed + option JsError :=
  match models with
  | [] => inr lastError
  | model :: rest =>
      match try_model (invoke model) with
      | inl p => inl p
      | inr e => try_models invoke rest (Some e)
      end
  end.

(** [${lastError?.message || lastError}] *)
Definition show_last (lastError : option JsError) : string :=
  match lastError with
  | None => "null"
  | Some e => if bool_decide (err_message e = "") then err_shown e
              else err_message e
  end.

(** [settings.active_models] when it is a non-empty array, the three
    default models otherwise. *)
Definition activeModels (active_models : option (list string)) : list string :=
  match active_models with
  | Some (m :: ms) => m :: ms
  | _ => ["rapidapi-gpt4"; "gemini-2.0"; "llama3-8b"]
  end.

(** [callAIAPI(prompt, settings)]: [user] is the signed-in user, [invoke]
    the answer of the edge function for each model. *)
Definition callAIAPI (user : option string) (invoke : string → Invoke)
    (active_models : option (list string)) : Parsed + JsError :=
  match user with
  | None => inr (Error "Not authenticated")
  | Some _ =>
      let orderedModels := getOrderedModels (activeModels active_models) in
      match try_models invoke orderedModels None with
      | inl p => inl p
      | inr last =>
          inr (Error ("AI generation failed with all active models. Last error: "
                      +:+ show_last last))
      end
  end.

(** What [generateContent] returns. *)
Record GeneratedContent := {
  gc_title : string;
  gc_content : string;
  gc_type : ContentType;
  gc_platform : string;
  gc_tags : option (list string);
  gc_mediaUrl : option string
}.

(** [generateContent(platform, contentType)]: [settings] is what
    [getAISettings()] gives, an error thrown or the [active_models] of the
    settings in force. *)
Definition generateContent (user : option string)
    (settings : JsError + option (list string)) (invoke : string → Invoke)
    (platform : string) : GeneratedContent + JsError :=
  match settings with
  | inl e => inr e
  | inr active_models =>
      match callAIAPI user invoke active_models with
      | inl p =>
          inl {| gc_title := r_title p; gc_content := r_body p;
                 gc_type := getContentType platform; gc_platform := platform;
                 gc_tags := r_tags p; gc_mediaUrl := r_mediaUrl p |}
      | inr e =>
          inr (Error ("Failed to generate content for " +:+ platform +:+ ": "
                      +:+ err_message e))
      end
  end.

End ContentGenerator.

Module GeneratorSamples.
Import ContentGenerator.

Definition good_answer : Parsed :=
  {| r_title := "T"; r_body := "B"; r_tags := Some ["x"]; r_mediaUrl := None |}.

(** Only the model "gemini-2.0" answers well. *)
Definition gemini_answers (m : string) : Invoke :=
  if bool_decide (m = "gemini-2.0") then InvokeData (Some good_answer)
  else InvokeData None.

(** Every model is out of quota. *)
Definition over_quota (m : string) : Invoke :=
  InvokeError {| err_message := "quota exceeded for " +:+ m;
                 err_shown := "FunctionsHttpError: quota exceeded" |}.

End GeneratorSamples.

(** ** services/platformApi *)

Module PlatformAPI.
Import ContentGenerator.

Inductive MediaType := image | video_media.

#[export] Instance MediaType_eq_dec : EqDecision MediaType.
Proof. solve_decision. Defined.

(** [interface PostContent] *)
Record PostContent := {
  pc_title : string;
  pc_content : string;
  pc_tags : option (list string);
  pc_mediaUrl : option string;
  pc_mediaType : option MediaType;
  pc_isReel : option bool
}.

(** The payload of a job as a [PostContent].  Both places that build a job
    (the object literal of [loadScheduledPosts] and the object returned by
    [generateContent]) set no [mediaType] and no [isReel]. *)
Definition post_content_of (c : Scheduler.Content) : PostContent :=
  {| pc_title := Scheduler.c_title c; pc_content := Scheduler.c_content c;
     pc_tags := Scheduler.c_tags c; pc_mediaUrl := Scheduler.c_mediaUrl c;
     pc_mediaType := None; pc_isReel := None |}.

(** A string value is truthy when it is present and not empty. *)
Definition truthy (v : option string) : bool :=
  match v with
  | Some s => negb (bool_decide (s = ""))
  | None => false
  end.

(** What the methods of [PlatformAPI] reach: the signed-in user, the
    [credentials] of the connected row of [platforms] per platform, and the
    answers of the network: the status of the request that tests the
    YouTube token ([None]: [fetch] throws), the [access_token] of the
    answer to the refresh request ([None]: the response is not ok, or the
    request or the update of the credentials throws), and the answer of the
    edge function [upload-youtube-short] for an access token. *)
Record Net := {
  net_user : option string;
  net_platforms : string → option (gmap string string);
  net_youtube_test : option Z;
  net_youtube_refresh : option (option string);
  net_youtube_upload : option string → string + JsError
}.

(** [getCredentials(platform)] *)
Definition getCredentials (net : Net) (platform : string)
  : gmap string string + JsError :=
  match net_user net with
  | None => inr (Error "Not authenticated")
  | Some _ =>
      match net_platforms net platform with
      | None => inr (Error ("Platform " +:+ platform
                            +:+ " not connected. Please configure it in Platform Setup."))
      | Some credentials => inl credentials
      end
  end.

(** [refreshYouTubeToken(credentials)]: the new token, and with it the
    credentials written back by [updateCredentials]. *)
Definition refreshYouTubeToken (net : Net) (credentials : gmap string string)
  : (option string * gmap string string) + JsError :=
  if negb (truthy (credentials !! "refresh_token"))
     || negb (truthy (credentials !! "client_id"))
     || negb (truthy (credentials !! "client_secret"))
  then inr (Error "Missing required credentials for token refresh")
  else match net_youtube_refresh net with
       | None => inr (Error "Failed to refresh YouTube access token")
       | Some newAccessToken =>
           inl (newAccessToken,
                match newAccessToken with
                | Some token => <["access_token" := token]> credentials
                | None => delete "access_token" credentials
                end)
       end.

(** [postToYouTube(content)]: the video id or the error thrown, and the
    credentials written back, if any. *)
Definition postToYouTube (net : Net) (content : PostContent)
  : (string + JsError) * option (gmap string string) :=
  match getCredentials net "youtube" with
  | inr e => (inr e, None)
  | inl credentials =>
      if negb (truthy (pc_mediaUrl content))
         || negb (bool_decide (pc_mediaType content = Some video_media))
      then (inr (Error "YouTube Shorts require video content"), None)
      else
        let failed := inr (Error "Failed to upload to YouTube") in
        match net_youtube_test net with
        | None => (failed, None)
        | Some status =>
            if status =? 401 then
              match refreshYouTubeToken net credentials with
              | inr _ => (failed, None)
              | inl (token, written) =>
                  match net_youtube_upload net token with
                  | inr _ => (failed, Some written)
                  | inl videoId => (inl videoId, Some written)
                  end
              end
            else
              match net_youtube_upload net (credentials !! "access_token") with
              | inr _ => (failed, None)
              | inl videoId => (inl videoId, None)
              end
        end
  end.

(** [tag.toLowerCase()] on the letters A to Z.  None of the keys of
    [tagToSubreddit] contains a letter that a character outside ASCII
    lower-cases to, so the table lookup below is not affected by the other
    characters. *)
Definition lower (c : ascii) : ascii :=
  let n := nat_of_ascii c in
  if ((65 <=? n) && (n <=? 90))%nat then ascii_of_nat (n + 32) else c.

Fixpoint toLowerCase (s : string) : string :=
  match s with
  | EmptyString => EmptyString
  | String c s' => String (lower c) (toLowerCase s')
  end.

(** The table [tagToSubreddit], for the keys that map to a subreddit. *)
Definition tagToSubreddit (key : string) : option string :=
  if bool_decide (key = "javascript") then Some "javascript"
  else if bool_decide (key = "typescript") then Some "typescript"
  else if bool_decide (key = "react") then Some "reactjs"
  else if bool_decide (key = "webdev") then Some "webdev"
  else if bool_decide (key = "programming") then Some "programming"
  else if bool_decide (key = "coding") then Some "programming"
  else None.

(** [selectSubreddit(tags, availableSubreddits)] *)
Fixpoint selectSubreddit (tags availableSubreddits : list string) : string :=
  match tags with
  | [] =>
      match availableSubreddits with
      | sr :: _ => if bool_decide (sr = "") then "programming" else sr
      | [] => "programming"
      end
  | tag :: rest =>
      match tagToSubreddit (toLowerCase tag) with
      | Some mappedSubreddit =>
          if bool_decide (mappedSubreddit ∈ availableSubreddits)
          then mappedSubreddit
          else selectSubreddit rest availableSubreddits
      | None => selectSubreddit rest availableSubreddits
      end
  end.

(** The subreddits [postToReddit] chooses from:
    [credentials.subreddits.split(',')], or the four defaults. *)
Definition subreddits_of (credentials : gmap string string) : list string :=
  match credentials !! "subreddits" with
  | Some s => if bool_decide (s = "")
              then ["programming"; "webdev"; "javascript"; "typescript"]
              else JSString.split "," s
  | None => ["programming"; "webdev"; "javascript"; "typescript"]
  end.

(** The messages with which [postToYouTube] refuses before any request to
    YouTube. *)
Definition youtube_refusal (msg : string) : Prop :=
  msg = "Not authenticated"
  ∨ msg = "Platform youtube not connected. Please configure it in Platform Setup."
  ∨ msg = "YouTube Shorts require video content".

(** A dispatch tick whose [platformAPI.postToYouTube] is the method above:
    for a job of platform "youtube" the scheduler passes [job.content], and
    gets the video id or catches the error. *)
Definition youtube_is_live (net : Net) (env : Scheduler.TickEnv) : Prop :=
  ∀ job, Scheduler.platform job = "youtube" →
    Scheduler.platformAPI env job
    = match fst (postToYouTube net (post_content_of (Scheduler.content job))) with
      | inl videoId => inl videoId
      | inr e => inr (err_message e)
      end.

End PlatformAPI.

Module PlatformSamples.
Import Scheduler Samples ContentGenerator PlatformAPI.

(** YouTube is connected and every request succeeds. *)
Definition youtube_up : Net :=
  {| net_user := Some "u1";
     net_platforms := λ _, Some {["access_token" := "tok"]};
     net_youtube_test := Some 200;
     net_youtube_refresh := Some (Some "tok2");
     net_youtube_upload := λ _, inl "video-1" |}.

Definition clip : Content :=
  {| c_title := "Clip"; c_content := "Script"; c_tags := None;
     c_mediaUrl := Some "https://cdn.example/clip.mp4" |}.

Definition youtube_job : PostingJob :=
  {| attempts := 0; platform := "youtube"; content := clip;
     scheduledTime := 200000; postId := 1 |}.

(** One scheduled YouTube post and its job. *)
Definition youtube_queue : World :=
  set_jobs [0%nat] (set_heap [youtube_job] (initial [row 1 "youtube" 200000] 2)).

(** A tick at [now] wired to [youtube_up]. *)
Definition youtube_tick (now : Z) : TickEnv :=
  {| tick_now := now; tick_currentTime := now;
     platformAPI := λ job,
       match fst (postToYouTube youtube_up (post_content_of (content job))) with
       | inl videoId => inl videoId
       | inr e => inr (err_message e)
       end;
     posted_now := λ _, now; retry_now := λ _, now |}.

End PlatformSamples.

(** ** A host whose offset from UTC changes *)

(** The definitions above fix the offset of the host for all instants.  A
    host in a zone with daylight saving changes its offset; this module
    takes the zone as a function, as ECMA-262 does with [LocalTZA(t,
    isUTC)], and embeds the same methods over it.  [offset t true] is the
    offset of local time from UTC, in minutes, at the instant [t];
    [offset t false] is the offset that the host gives to the local time
    value [t] (the offset before the transition for a local time that a
    transition skips or repeats).  Offsets are whole minutes, as those of
    the zones in use are. *)
Module Zone.
Import JSDate.

Section Host.
Variable offset : Z → bool → Z.

Definition LocalTZA (t : Z) (isUTC : bool) : Z := offset t isUTC * msPerMinute.
Definition LocalTime (t : Z) : Z := t + LocalTZA t true.
Definition UTC (t : Z) : Z := t - LocalTZA t false.

Definition getTimezoneOffset (t : Z) : Z := (t - LocalTime t) / msPerMinute.

Definition getDay (d : Z) : Z := WeekDay (LocalTime d).
Definition getDate (d : Z) : Z := DateFromTime (LocalTime d).

(** [d.setHours(hour, min, sec, ms)] *)
Definition setHours (d hour min sec ms : Z) : Z :=
  let t := LocalTime d in
  UTC (MakeDate (Day t) (MakeTime hour min sec ms)).

(** [d.setDate(date)] *)
Definition setDate (d date : Z) : Z :=
  let t := LocalTime d in
  UTC (MakeDate (MakeDay (YearFromTime t) (MonthFromTime t) date)
                (TimeWithinDay t)).

(** [getCurrentIST()]: [now] is the reading of [Date.now()], [now'] the one
    of [new Date()], whose offset is taken. *)
Definition getCurrentIST (now now' : Z) : Z :=
  let nowUTC := now + getTimezoneOffset now' * 60000 in
  TimeUtils.toIST nowUTC.

(** [getISTDayBoundsUTC(istDate?)] *)
Definition getISTDayBoundsUTC (now now' : Z) (istDate : option Z)
  : TimeUtils.DayBounds :=
  let currentIST := match istDate with
                    | Some d => d
                    | None => getCurrentIST now now'
                    end in
  let startOfDayIST := setHours currentIST 0 0 0 0 in
  let endOfDayIST := setDate startOfDayIST (getDate startOfDayIST + 1) in
  {| TimeUtils.startUTC := TimeUtils.fromIST startOfDayIST;
     TimeUtils.endUTC := TimeUtils.fromIST endOfDayIST |}.

(** [scheduleDailyGeneration()]: [now] and [now'] are the two readings of
    [getCurrentIST()], [now''] the one of [new Date().getTime()]. *)
Definition scheduleDailyGeneration (now now' now'' : Z) (w : Scheduler.World)
  : Scheduler.World :=
  let istNow := getCurrentIST now now' in
  let nextMidnightIST := setHours istNow 24 0 0 0 in
  let nextMidnightUTC := TimeUtils.fromIST nextMidnightIST in
  let msUntilMidnight := nextMidnightUTC - now'' in
  snd (Scheduler.add_timer Scheduler.MidnightGeneration msUntilMidnight false w).

(** The offset is [- tz] minutes from [lo] to [hi], for the instants of
    that period and for their local times. *)
Definition steady (tz lo hi : Z) : Prop :=
  ∀ x, lo <= x <= hi →
       offset x true = - tz ∧ offset (x - tz * msPerMinute) false = - tz.

End Host.

(** A host whose [getTimezoneOffset()] is [tz] at all times. *)
Definition fixed (tz : Z) : Z → bool → Z := λ _ _, - tz.

End Zone.

Module ZoneSamples.
Import JSDate.

(** India: UTC+5:30 all year. *)
Definition kolkata : Z → bool → Z := Zone.fixed (-330).

(** Sunday 8 March 2026, 07:00 UTC, and Sunday 1 November 2026, 06:00 UTC:
    the two instants of 2026 at which New York changes its clocks. *)
Definition spring_forward : Z := 1772953200000.
Definition fall_back : Z := 1793512800000.

(** New York during 2026: UTC-5, and UTC-4 between the two transitions.
    As local time values, the hour skipped in March and the hour repeated in
    November take the offset before the transition. *)
Definition new_york : Z → bool → Z := λ t isUTC,
  if isUTC then
    if (spring_forward <=? t) && (t <? fall_back) then -240 else -300
  else
    if (spring_forward - 240 * msPerMinute <=? t)
       && (t <? fall_back - 240 * msPerMinute) then -240 else -300.

(** Saturday 7 March 2026, 20:00 UTC: 15:00 in New York, and 01:30 on
    Sunday in India. *)
Definition saturday_20h : Z := 1772913600000.

(** Wednesday 15 July 2026, 12:00 UTC. *)
Definition july_noon : Z := 1784116800000.

(** Sunday 1 November 2026, 11:30 UTC, which is 17:00 in India. *)
Definition sunday_17h : Z := 1793532600000.

End ZoneSamples.

(** ** A [Date] with its range *)

(** The time value of a [Date] is an integer of at most 8.64e15 in
    absolute value, or NaN: the constructor clips.  [None] is the invalid
    date. *)
Module DateValue.

Definition maxTime : Z := 8640000000000000.

Definition Date := option Z.

(** [TimeClip(time)] for an integer or NaN. *)
Definition TimeClip (time : option Z) : Date :=
  match time with
  | Some t => if Z.abs t <=? maxTime then Some t else None
  | None => None
  end.

(** [d.getTime()] *)
Definition getTime (d : Date) : option Z := d.

(** [new Date(utcDate.getTime() + IST_OFFSET_MS)] *)
Definition toIST (utcDate : Date) : Date :=
  TimeClip ((λ t, t + TimeUtils.IST_OFFSET_MS) <$> getTime utcDate).

(** [new Date(istDate.getTime() - IST_OFFSET_MS)] *)
Definition fromIST (istDate : Date) : Date :=
  TimeClip ((λ t, t - TimeUtils.IST_OFFSET_MS) <$> getTime istDate).

End DateValue.

(** ** Entries of [preferred_times] *)

Module Entries.
Import JSString Scheduler.

Definition is_digit (c : ascii) : bool := bool_decide (is_Some (digit_of c)).

(** One or two decimal digits. *)
Definition clock_part (p : string) : bool :=
  match p with
  | String a EmptyString => is_digit a
  | String a (String b EmptyString) => is_digit a && is_digit b
  | _ => false
  end.

(** An entry "H:M": one or two decimal digits, a colon, one or two decimal
    digits. *)
Definition clock_entry (t : string) : bool :=
  match split ":" t with
  | [hh; mm] => clock_part hh && clock_part mm
  | _ => false
  end.

(** An entry without a colon: [split(':')] gives one piece, and [minutes]
    is undefined. *)
Definition no_colon (t : string) : bool :=
  match split ":" t with
  | [_] => true
  | _ => false
  end.

(** Every entry of the schedule is of one of these two forms. *)
Definition plain_times (s : ScheduleEntry) : Prop :=
  Forall (λ t, clock_entry t || no_colon t = true) (preferredTimes s).

End Entries.

Module RestartSamples.
Import Scheduler Samples.

(** Nobody is signed in. *)
Definition signed_out : LoadEnv := {| l_user := None; l_query_ok := true |}.

(** A start at [now] with nobody signed in. *)
Definition starting_signed_out (now : Z) : StartEnv :=
  {| e_load := signed_out;
     e_gen := {| g_user := None; g_now := now; g_schedules := None;
                 g_check_now := λ _, now; g_topics := λ _, None;
                 g_slot := g_slot (generating now []) |};
     e_midnight_now := now; e_midnight_now' := now |}.

(** The job of [one_job] after two ticks in which publishing failed. *)
Definition failed_twice : World :=
  processScheduledPosts (failing 1200000)
    (processScheduledPosts (failing 1000000) one_job).

End RestartSamples.

Import JSDate TimeUtils JSString Scheduler.

(** * Properties *)

(** ** Date arithmetic *)

(** The calendar on known dates: the epoch is Thursday 1 January 1970;
    1793766600000 is Wednesday 4 November 2026 (months count from 0);
    951782400000 is Tuesday 29 February 2000; one millisecond before the
    epoch is 31 December 1969; [setDate] past the end of a month carries
    into the next one. *)
Example calendar_samples :
  (YearFromTime 0, MonthFromTime 0, DateFromTime 0, WeekDay 0) = (1970, 0, 1, 4)
  ∧ (YearFromTime 1793766600000, MonthFromTime 1793766600000,
     DateFromTime 1793766600000, WeekDay 1793766600000) = (2026, 10, 4, 3)
  ∧ (YearFromTime 951782400000, MonthFromTime 951782400000,
     DateFromTime 951782400000, WeekDay 951782400000) = (2000, 1, 29, 2)
  ∧ (YearFromTime (-1), MonthFromTime (-1), DateFromTime (-1)) = (1969, 11, 31)
  ∧ setDate 0 951782400000 30 = 951782400000 + msPerDay
  ∧ setHours (-330) 1793766600000 9 0 0 0 = 1793763000000.
Proof. vm_compute. repeat split. Qed.

Example string_samples :
  split ":" "09:30" = ["09"; "30"]%string
  ∧ parse_time "09:30" = Some (9, 30)
  ∧ parse_time "18" = None
  ∧ parse_time "ab:cd" = None
  ∧ parseInt "3" = Some 3
  ∧ parseInt " 12px" = Some 12
  ∧ parseInt "wed" = None
  ∧ normalize_day (DStr "3") = normalize_day (DNum 3).
Proof. vm_compute. repeat split. Qed.

Section DateFacts.
Variable tz : Z.

Lemma YearFromTime_spec t :
  DayFromYear (YearFromTime t) <= Day t < DayFromYear (YearFromTime t + 1).
Proof.
  unfold YearFromTime. set (d := Day t). clearbody d.
  unfold DayFromYear.
  repeat case_match;
    repeat match goal with
           | H : (_ <? _) = _ |- _ =>
               first [apply Z.ltb_lt in H | apply Z.ltb_ge in H]
           | H : (_ <=? _) = _ |- _ =>
               first [apply Z.leb_le in H | apply Z.leb_gt in H]
           end;
    Z.div_mod_to_equations; lia.
Qed.

Lemma MonthFromDay_range dwy leap : 0 <= MonthFromDay dwy leap < 12.
Proof. unfold MonthFromDay. repeat case_match; lia. Qed.

Lemma InLeapYear_eq t :
  InLeapYear t = if isLeapYear (YearFromTime t) then 1 else 0.
Proof. reflexivity. Qed.

(** Asking [MakeDay] for the date of [t] plus [n] gives the day of [t]
    plus [n]: the month and year of [t] cancel out. *)
Lemma MakeDay_DateFromTime t n :
  MakeDay (YearFromTime t) (MonthFromTime t) (DateFromTime t + n) = Day t + n.
Proof.
  unfold MakeDay, DateFromTime, DayWithinYear.
  pose proof (MonthFromDay_range (Day t - DayFromYear (YearFromTime t))
                (InLeapYear t)) as Hm.
  fold (DayWithinYear t) in Hm. fold (MonthFromTime t) in Hm.
  rewrite Z.div_small, Z.mod_small by lia.
  rewrite Z.add_0_r, <- InLeapYear_eq. lia.
Qed.

Lemma MakeDate_Day t n :
  MakeDate (Day t + n) (TimeWithinDay t) = t + n * msPerDay.
Proof.
  unfold MakeDate, Day, TimeWithinDay.
  pose proof (Z.div_mod t msPerDay ltac:(discriminate)). lia.
Qed.

Lemma UTC_LocalTime t : UTC tz (LocalTime tz t) = t.
Proof. unfold UTC, LocalTime. lia. Qed.

Lemma LocalTime_UTC t : LocalTime tz (UTC tz t) = t.
Proof. unfold UTC, LocalTime. lia. Qed.

(** [d.setDate(d.getDate() + n)] moves [d] by [n] days. *)
Lemma setDate_getDate d n :
  setDate tz d (getDate tz d + n) = d + n * msPerDay.
Proof.
  unfold setDate, getDate.
  rewrite MakeDay_DateFromTime, MakeDate_Day.
  unfold UTC, LocalTime. lia.
Qed.

(** [d.setHours(0, 0, 0, 0)] is the last local midnight. *)
Lemma setHours_midnight d :
  setHours tz d 0 0 0 0 = d - TimeWithinDay (LocalTime tz d).
Proof.
  unfold setHours, MakeTime, MakeDate, UTC, Day, TimeWithinDay.
  pose proof (Z.div_mod (LocalTime tz d) msPerDay ltac:(discriminate)).
  unfold LocalTime in *. lia.
Qed.

Lemma TimeWithinDay_range t : 0 <= TimeWithinDay t < msPerDay.
Proof. unfold TimeWithinDay. apply Z.mod_pos_bound. reflexivity. Qed.

Lemma getTimezoneOffset_tz t : getTimezoneOffset tz t = tz.
Proof.
  unfold getTimezoneOffset, LocalTime, LocalTZA.
  replace (t - (t + - (tz * msPerMinute))) with (tz * msPerMinute) by lia.
  apply Z.div_mul. discriminate.
Qed.

Lemma getCurrentIST_value now :
  getCurrentIST tz now = now + tz * 60000 + IST_OFFSET_MS.
Proof. unfold getCurrentIST, toIST. now rewrite getTimezoneOffset_tz. Qed.
End DateFacts.

(** ** Time utilities *)

(** Where the shifted value is in the range of [Date], the shift on dates
    is the shift on time values. *)
Lemma toIST_in_range t :
  Z.abs (toIST t) <= DateValue.maxTime →
  DateValue.toIST (Some t) = Some (toIST t).
Proof.
  intros H. unfold DateValue.toIST, DateValue.TimeClip, DateValue.getTime.
  cbn. fold (toIST t). now rewrite (proj2 (Z.leb_le _ _) H).
Qed.

Lemma fromIST_in_range t :
  Z.abs (fromIST t) <= DateValue.maxTime →
  DateValue.fromIST (Some t) = Some (fromIST t).
Proof.
  intros H. unfold DateValue.fromIST, DateValue.TimeClip, DateValue.getTime.
  cbn. fold (fromIST t). now rewrite (proj2 (Z.leb_le _ _) H).
Qed.

(** C8 as stated fails at the end of the range of [Date]: the last instant
    is a valid date, 5:30 later there is none, so [toIST] answers the
    invalid date and [fromIST] cannot come back. *)
Lemma toIST_out_of_range_counterexample :
  DateValue.TimeClip (Some 8640000000000000) = Some 8640000000000000
  ∧ DateValue.toIST (Some 8640000000000000) = None
  ∧ DateValue.fromIST (DateValue.toIST (Some 8640000000000000))
    ≠ Some 8640000000000000.
Proof. vm_compute. repeat split. discriminate. Qed.

(** C8, amended. On every time value at least 5:30 away from both ends of
    the range of [Date], the shift by +5:30 and its inverse undo each
    other: [fromIST (toIST t) = t] and [toIST (fromIST t) = t]. *)
Theorem toIST_fromIST_roundtrip (t : Z) :
  Z.abs t <= DateValue.maxTime - IST_OFFSET_MS →
  DateValue.fromIST (DateValue.toIST (Some t)) = Some t
  ∧ DateValue.toIST (DateValue.fromIST (Some t)) = Some t.
Proof.
  intros H.
  assert (Hm : DateValue.maxTime = 8640000000000000) by reflexivity.
  assert (Ho : IST_OFFSET_MS = 19800000) by reflexivity.
  split.
  - rewrite toIST_in_range by (unfold toIST; lia).
    rewrite fromIST_in_range by (unfold fromIST, toIST; lia).
    f_equal. unfold fromIST, toIST. lia.
  - rewrite fromIST_in_range by (unfold fromIST; lia).
    rewrite toIST_in_range by (unfold fromIST, toIST; lia).
    f_equal. unfold fromIST, toIST. lia.
Qed.

Lemma toIST_fromIST_roundtrip_witness :
  DateValue.fromIST (DateValue.toIST (Some 1793766600000)) = Some 1793766600000
  ∧ DateValue.toIST (DateValue.fromIST (Some 1793766600000))
    = Some 1793766600000.
Proof.
  apply (toIST_fromIST_roundtrip 1793766600000). vm_compute. discriminate.
Defined.

(** On a host whose offset is fixed, the day bounds of a local instant [t]
    are exactly 24 hours apart and contain the UTC instant of [t], the
    start included and the end excluded. *)
Lemma getISTDayBoundsUTC_fixed_offset (tz now t : Z) :
  let b := getISTDayBoundsUTC tz now (Some t) in
  let b0 := getISTDayBoundsUTC tz now None in
  (endUTC b - startUTC b = 24 * 60 * 60 * 1000
   ∧ startUTC b <= fromIST t < endUTC b)
  ∧ (endUTC b0 - startUTC b0 = 24 * 60 * 60 * 1000
     ∧ startUTC b0 <= fromIST (getCurrentIST tz now) < endUTC b0).
Proof.
  assert (Hgen : ∀ d,
    let b := getISTDayBoundsUTC tz now (Some d) in
    endUTC b - startUTC b = 24 * 60 * 60 * 1000
    ∧ startUTC b <= fromIST d < endUTC b).
  { intros d. cbn [getISTDayBoundsUTC startUTC endUTC].
    rewrite setDate_getDate, setHours_midnight.
    pose proof (TimeWithinDay_range (LocalTime tz d)).
    unfold fromIST, msPerDay in *. lia. }
  split; [apply Hgen | apply (Hgen (getCurrentIST tz now))].
Qed.

(** ** The host zone as a function *)

Import ZoneSamples.

(** The methods over a zone function are the ones above when the function
    is constant. *)
Lemma fixed_zone_agrees tz :
  (∀ t, Zone.LocalTime (Zone.fixed tz) t = LocalTime tz t)
  ∧ (∀ t, Zone.UTC (Zone.fixed tz) t = UTC tz t)
  ∧ (∀ d h m s ms, Zone.setHours (Zone.fixed tz) d h m s ms
                   = setHours tz d h m s ms)
  ∧ (∀ d n, Zone.setDate (Zone.fixed tz) d n = setDate tz d n)
  ∧ (∀ d, Zone.getDate (Zone.fixed tz) d = getDate tz d)
  ∧ (∀ d, Zone.getDay (Zone.fixed tz) d = getDay tz d)
  ∧ (∀ now, Zone.getCurrentIST (Zone.fixed tz) now now = getCurrentIST tz now)
  ∧ (∀ now d, Zone.getISTDayBoundsUTC (Zone.fixed tz) now now d
              = getISTDayBoundsUTC tz now d).
Proof.
  assert (L : ∀ t, Zone.LocalTime (Zone.fixed tz) t = LocalTime tz t)
    by (intros; unfold Zone.LocalTime, Zone.LocalTZA, Zone.fixed, LocalTime,
          LocalTZA; lia).
  assert (U : ∀ t, Zone.UTC (Zone.fixed tz) t = UTC tz t)
    by (intros; unfold Zone.UTC, Zone.LocalTZA, Zone.fixed, UTC, LocalTZA; lia).
  assert (H : ∀ d h m s ms, Zone.setHours (Zone.fixed tz) d h m s ms
                            = setHours tz d h m s ms)
    by (intros; unfold Zone.setHours, setHours; now rewrite L, U).
  assert (D : ∀ d n, Zone.setDate (Zone.fixed tz) d n = setDate tz d n)
    by (intros; unfold Zone.setDate, setDate; now rewrite L, U).
  assert (G : ∀ d, Zone.getDate (Zone.fixed tz) d = getDate tz d)
    by (intros; unfold Zone.getDate, getDate; now rewrite L).
  assert (C : ∀ now, Zone.getCurrentIST (Zone.fixed tz) now now
                     = getCurrentIST tz now)
    by (intros; unfold Zone.getCurrentIST, getCurrentIST,
          Zone.getTimezoneOffset, getTimezoneOffset; now rewrite L).
  repeat split; auto.
  - intros. unfold Zone.getDay, getDay. now rewrite L.
  - intros now d. unfold Zone.getISTDayBoundsUTC, getISTDayBoundsUTC.
    now rewrite C, H, D, G.
Qed.

Lemma zone_getTimezoneOffset offset t :
  Zone.getTimezoneOffset offset t = - offset t true.
Proof.
  unfold Zone.getTimezoneOffset, Zone.LocalTime, Zone.LocalTZA.
  replace (t - (t + offset t true * msPerMinute))
    with (- offset t true * msPerMinute) by lia.
  apply Z.div_mul. discriminate.
Qed.

Lemma zone_getCurrentIST_value offset now now' :
  Zone.getCurrentIST offset now now' = toIST now - offset now' true * 60000.
Proof.
  unfold Zone.getCurrentIST. rewrite zone_getTimezoneOffset.
  unfold toIST. lia.
Qed.

(** C7 fails on the code on a host with daylight saving.  In New York the
    clocks go forward on Sunday 8 March 2026 and that local day has 23
    hours.  Called without argument on the Saturday at 20:00 UTC, and
    called with the date whose time value is 12:00 UTC of the Sunday,
    [getISTDayBoundsUTC] returns a window of 23 hours, which contains the
    instant it was computed from. *)
Theorem getISTDayBoundsUTC_short_day :
  let b0 := Zone.getISTDayBoundsUTC new_york saturday_20h saturday_20h None in
  let t := 1772971200000 in
  let b := Zone.getISTDayBoundsUTC new_york saturday_20h saturday_20h (Some t) in
  (endUTC b0 - startUTC b0 = 23 * 60 * 60 * 1000
   ∧ startUTC b0
     <= fromIST (Zone.getCurrentIST new_york saturday_20h saturday_20h)
     < endUTC b0)
  ∧ (endUTC b - startUTC b = 23 * 60 * 60 * 1000
     ∧ startUTC b <= fromIST t < endUTC b)
  ∧ endUTC b - startUTC b ≠ 24 * 60 * 60 * 1000.
Proof. vm_compute. repeat split; discriminate. Qed.

(** C5 fails on the code: [getCurrentIST] adds the offset of the host to
    the clock before it adds 5:30.  On every host the value returned is
    the clock plus 5:30 less the host's offset from UTC, so it is the clock
    plus 5:30 only where that offset is zero; on a host in India it is the
    clock itself, and [fromIST] of it is 5:30 before the clock. *)
Theorem getCurrentIST_adds_host_offset :
  (∀ offset now now',
     Zone.getCurrentIST offset now now'
     = now + 5 * 3600000 + 30 * 60000 - offset now' true * 60000)
  ∧ (∀ offset now now',
       Zone.getCurrentIST offset now now' = toIST now ↔ offset now' true = 0)
  ∧ Zone.getCurrentIST kolkata sunday_17h sunday_17h = sunday_17h
  ∧ Zone.getCurrentIST kolkata sunday_17h sunday_17h ≠ toIST sunday_17h
  ∧ fromIST (Zone.getCurrentIST kolkata sunday_17h sunday_17h)
    = sunday_17h - 19800000.
Proof.
  split; [|split].
  - intros. rewrite zone_getCurrentIST_value. unfold toIST.
    change IST_OFFSET_MS with 19800000. lia.
  - intros. rewrite zone_getCurrentIST_value. lia.
  - vm_compute. repeat split. discriminate.
Qed.

(** ** [stop()] *)

Import Samples RestartSamples.

Lemma filter_all {A} (P : A → Prop) `{!∀ x, Decision (P x)} (l : list A) :
  (∀ x, P x) → filter P l = l.
Proof.
  intros HP. induction l as [|x l IH]; [reflexivity|].
  rewrite filter_cons_True by apply HP. now rewrite IH.
Qed.

Lemma clearInterval_fields h w :
  jobs (clearInterval h w) = jobs w
  ∧ heap (clearInterval h w) = heap w
  ∧ content_posts (clearInterval h w) = content_posts w
  ∧ intervalId (clearInterval h w) = intervalId w
  ∧ scheduleWatchInterval (clearInterval h w) = scheduleWatchInterval w
  ∧ timers (clearInterval h w) = filter (λ t, timer_id t ≠ h) (timers w).
Proof. repeat split. Qed.

(** C3 as stated fails: [stop()] does not touch [this.jobs]; a scheduler
    holding one job still holds it after [stop()]. *)
Lemma stop_keeps_jobs_counterexample :
  jobs (stop one_job) = [0%nat] ∧ jobs (stop one_job) ≠ [].
Proof. split; [reflexivity | discriminate]. Qed.

(** C3, amended. After [stop()] the processing set is empty, the handles
    of the two periodic timers are null and these two timers are no longer
    live (the other live timers are untouched), the scheduler is not
    running, the rate-limit bookkeeping is reset ([lastProcessTime] is 0,
    [lastScheduleState] is empty), no row of [content_posts] is changed,
    and the in-memory job list and its job objects are left as they
    were. *)
Theorem stop_effect (w : World) :
  let w' := stop w in
  jobs w' = jobs w
  ∧ heap w' = heap w
  ∧ processingJobs w' = ∅
  ∧ intervalId w' = None
  ∧ scheduleWatchInterval w' = None
  ∧ timers w' = filter (λ t, Some (timer_id t) ≠ intervalId w
                             ∧ Some (timer_id t) ≠ scheduleWatchInterval w)
                       (timers w)
  ∧ isRunning w' = false
  ∧ lastProcessTime w' = 0
  ∧ lastScheduleState w' = ""
  ∧ content_posts w' = content_posts w.
Proof.
  destruct w as [js i1 i2 r d pj lp ls hp cp np tm nt ns].
  destruct i1 as [h1|], i2 as [h2|]; cbn;
    repeat split; cbn.
  - rewrite list_filter_filter. apply list_filter_iff. intros t.
    split; intros [? ?]; split; congruence.
  - apply list_filter_iff. intros t. split; [|intros []]; naive_solver.
  - apply list_filter_iff. intros t. split; [|intros []]; naive_solver.
  - symmetry. apply filter_all. intros t. split; discriminate.
Qed.

(** ** [getStatus()] *)

Lemma sort_insert_perm h x l : sort_insert h x l ≡ₚ x :: l.
Proof.
  induction l as [|y l IH]; cbn; [reflexivity|].
  case_match; [reflexivity|]. rewrite IH. apply Permutation_swap.
Qed.

Lemma sort_jobs_perm h l : sort_jobs h l ≡ₚ l.
Proof.
  induction l as [|x l IH]; cbn; [reflexivity|].
  now rewrite sort_insert_perm, IH.
Qed.

Lemma sort_insert_head h x l :
  head (sort_insert h x l)
  = match head l with
    | Some y => if time_at h x - time_at h y <=? 0 then Some x else Some y
    | None => Some x
    end.
Proof. destruct l as [|y l]; cbn; [reflexivity|]. now case_match. Qed.

(** The head of the sorted list is a job with the least scheduled time. *)
Lemma sort_jobs_head_least h l x :
  head (sort_jobs h l) = Some x →
  x ∈ l ∧ ∀ y, y ∈ l → time_at h x <= time_at h y.
Proof.
  revert x. induction l as [|a l IH]; cbn; intros x Hx; [discriminate|].
  rewrite sort_insert_head in Hx.
  destruct (head (sort_jobs h l)) as [m|] eqn:Hm.
  - destruct (IH m eq_refl) as [Hin Hle].
    destruct (time_at h a - time_at h m <=? 0) eqn:Hc;
      [apply Z.leb_le in Hc | apply Z.leb_gt in Hc];
      injection Hx as <-; (split; [apply elem_of_cons; eauto|]);
      intros y [->|Hy]%elem_of_cons; try lia; specialize (Hle y Hy); lia.
  - injection Hx as <-. split; [apply elem_of_cons; eauto|].
    destruct (sort_jobs h l) as [|? ?] eqn:Hs; [|discriminate].
    pose proof (sort_jobs_perm h l) as Hp. rewrite Hs in Hp.
    apply Permutation_nil_l in Hp. subst l.
    intros y [->|Hy]%elem_of_cons; [lia | by apply elem_of_nil in Hy].
Qed.

(** What [getStatus()] does keep: every field other than the order of
    [jobs], and the jobs themselves up to their order; the snapshot counts
    the jobs and reports the least scheduled time. *)
Lemma getStatus_frame w :
  let '(st, w') := getStatus w in
  jobs w' ≡ₚ jobs w
  ∧ set_jobs (jobs w) w' = w
  ∧ st_isRunning st = isRunning w
  ∧ st_scheduledJobs st = length (jobs w)
  ∧ st_processingJobs st = size (processingJobs w)
  ∧ match st_nextJob st with
    | Some t => (∃ l, l ∈ jobs w ∧ time_at (heap w) l = t)
                ∧ ∀ l, l ∈ jobs w → t <= time_at (heap w) l
    | None => jobs w = []
    end.
Proof.
  unfold getStatus. destruct w as [js i1 i2 r d pj lp ls hp cp np tm nt ns].
  cbn [jobs heap]. destruct js as [|a js]; cbn [length Nat.ltb Nat.leb].
  - cbn. repeat split; done.
  - cbv beta iota zeta. cbn [jobs isRunning processingJobs st_isRunning
      st_scheduledJobs st_processingJobs st_nextJob set_jobs heap
      intervalId scheduleWatchInterval dailyGenerationScheduled
      lastProcessTime lastScheduleState content_posts next_post_id timers
      next_timer notifications].
    pose proof (sort_jobs_perm hp (a :: js)) as Hp.
    repeat split; try done.
    + now rewrite Hp.
    + destruct (head (sort_jobs hp (a :: js))) as [m|] eqn:Hm; cbn.
      * destruct (sort_jobs_head_least _ _ _ Hm) as [Hin Hle]. eauto.
      * destruct (sort_jobs hp (a :: js)) eqn:Hs; [|discriminate].
        now apply Permutation_nil_l in Hp.
Qed.

(** C9 fails on the code: [getStatus()] sorts [this.jobs] in place.  With
    two jobs, the first due later than the second, the call returns the
    right snapshot but leaves the list in the opposite order, and the next
    dispatch tick publishes in that new order. *)
Theorem getStatus_reorders_jobs :
  let '(st, w') := getStatus two_jobs in
  jobs two_jobs = [0%nat; 1%nat]
  ∧ st_nextJob st = Some 100000
  ∧ jobs w' = [1%nat; 0%nat]
  ∧ w' ≠ two_jobs
  ∧ n_platform <$> notifications (processScheduledPosts (succeeding 1000000) two_jobs)
    = [Some "devto"; Some "hashnode"]
  ∧ n_platform <$> notifications (processScheduledPosts (succeeding 1000000) w')
    = [Some "hashnode"; Some "devto"].
Proof.
  vm_compute. repeat split. discriminate.
Qed.

(** ** [loadScheduledPosts()] *)

Lemma is_recoverable_spec uid p :
  is_recoverable uid p = true
  ↔ p_user_id p = uid ∧ p_status p = scheduled ∧ is_Some (p_scheduled_for p).
Proof.
  unfold is_recoverable. rewrite !andb_true_iff, !bool_decide_eq_true.
  tauto.
Qed.

(** Reading back, through their addresses, objects that were just
    allocated at the end of the heap. *)
Lemma omap_lookup_fresh (h objs : list PostingJob) :
  omap (λ l, (h ++ objs) !! l) (seq (length h) (length objs)) = objs.
Proof.
  revert h. induction objs as [|x objs IH]; intros h; [reflexivity|].
  cbn. rewrite list_lookup_middle by reflexivity.
  f_equal. specialize (IH (h ++ [x])).
  rewrite <- app_assoc, length_app in IH. cbn in IH.
  rewrite Nat.add_1_r in IH. exact IH.
Qed.

Lemma job_objects_assign objs w : job_objects (assign_jobs objs w) = objs.
Proof. unfold job_objects, assign_jobs. cbn. apply omap_lookup_fresh. Qed.

(** C10 as stated fails: the recovery step returns at once when nobody is
    signed in, and [stop()] keeps the job list.  A job that failed twice
    keeps its two attempts over a [stop()] and a [start()] with nobody
    signed in. *)
Lemma signed_out_restart_keeps_attempts_counterexample :
  let w := start 0 (starting_signed_out 1300000) (stop failed_twice) in
  attempts <$> job_objects failed_twice = [2]
  ∧ isRunning w = true
  ∧ attempts <$> job_objects w = [2]
  ∧ ¬ Forall (λ j, attempts j = 0) (job_objects w).
Proof.
  vm_compute. repeat split.
  intros H. apply Forall_cons in H as [H _]. discriminate.
Qed.

(** C10, amended. When the user is signed in and the query answers, the
    recovery step replaces the job list by one new job per row of
    [content_posts] that belongs to the user, has status [scheduled] and a
    non-null [scheduled_for], in table order and with the row's key as
    [postId]; every one of these jobs has [attempts = 0], whatever the jobs
    held before; no row is changed.  When nobody is signed in or the query
    does not answer, the step changes nothing: the jobs stay as they are,
    attempts included. *)
Theorem loadScheduledPosts_resets_attempts (env : LoadEnv) (w : World) :
  let w' := loadScheduledPosts env w in
  (∀ uid, l_user env = Some uid → l_query_ok env = true →
     let rows := filter (λ p, is_recoverable uid p) (content_posts w) in
     (∀ p, p ∈ rows ↔ p ∈ content_posts w ∧ p_user_id p = uid
                       ∧ p_status p = scheduled ∧ is_Some (p_scheduled_for p))
     ∧ job_objects w' = job_of_post <$> rows
     ∧ postId <$> job_objects w' = p_id <$> rows
     ∧ length (jobs w') = length rows
     ∧ Forall (λ j, attempts j = 0) (job_objects w')
     ∧ content_posts w' = content_posts w)
  ∧ (l_user env = None ∨ l_query_ok env = false → w' = w).
Proof.
  cbv zeta. split.
  - intros uid Hu Hq. unfold loadScheduledPosts.
    rewrite Hu, Hq. set (rows := filter _ (content_posts w)).
    rewrite job_objects_assign.
    split; [|split; [|split; [|split; [|split]]]].
    + intros p. unfold rows. rewrite list_elem_of_filter.
      rewrite Is_true_true, is_recoverable_spec. tauto.
    + reflexivity.
    + rewrite <- list_fmap_compose. reflexivity.
    + unfold assign_jobs. cbn. now rewrite length_seq, length_fmap.
    + apply Forall_fmap, Forall_true. reflexivity.
    + reflexivity.
  - unfold loadScheduledPosts. intros [-> | Hq]; [reflexivity|].
    rewrite Hq. now destruct (l_user env).
Qed.

Lemma loadScheduledPosts_resets_attempts_witness :
  l_user signed_in = Some "u1"
  ∧ l_query_ok signed_in = true
  ∧ attempts <$> job_objects retried = [2]
  ∧ Forall (λ j, attempts j = 0)
           (job_objects (loadScheduledPosts signed_in retried))
  ∧ loadScheduledPosts signed_out retried = retried.
Proof.
  split; [reflexivity|]. split; [reflexivity|]. split; [reflexivity|].
  split.
  - exact (proj1 (proj2 (proj2 (proj2 (proj2
      (proj1 (loadScheduledPosts_resets_attempts signed_in retried)
         "u1" eq_refl eq_refl)))))).
  - exact (proj2 (loadScheduledPosts_resets_attempts signed_out retried)
             (or_introl eq_refl)).
Defined.

(** ** [processScheduledPosts()] *)

(** The [catch] block never touches [this.jobs]: neither the retry branch
    nor the branch taken once the retries are exhausted removes the job. *)
Lemma on_publish_error_keeps_jobs env l job msg w :
  jobs (on_publish_error env l job msg w) = jobs w.
Proof. unfold on_publish_error. cbn. now case_match. Qed.

(** The retry branch: the job object at [l] gets [attempts + 1] and is
    rescheduled [2 ^ (attempts + 1)] minutes after the failure. *)
Lemma on_publish_error_retry env l job msg w :
  (l < length (heap w))%nat →
  attempts job + 1 < 3 →
  heap (on_publish_error env l job msg w) !! l
  = Some (with_scheduledTime
            (retry_now env (with_attempts (attempts job + 1) job)
             + 2 ^ (attempts job + 1) * 60000)
            (with_attempts (attempts job + 1) job)).
Proof.
  intros Hl Ha. unfold on_publish_error. cbn.
  destruct (attempts job + 1 <? 3) eqn:E; [|apply Z.ltb_ge in E; lia].
  cbn. rewrite list_lookup_insert_eq; [reflexivity|].
  now rewrite length_insert.
Qed.

(** A loop body whose publish call fails leaves [this.jobs] as it was. *)
Lemma process_job_failure_keeps_jobs env w l :
  (∀ job ppid, dispatch env job ≠ inl ppid) →
  jobs (process_job env w l) = jobs w.
Proof.
  intros Hfail. unfold process_job.
  destruct (heap w !! l) as [job|]; [|reflexivity].
  destruct (decide (postId job ∈ processingJobs w)); [reflexivity|].
  destruct (dispatch env job) as [ppid|msg] eqn:E.
  - now apply Hfail in E.
  - cbn [jobs set_processingJobs]. now rewrite on_publish_error_keeps_jobs.
Qed.

(** A tick in which every publish call fails removes no job, however many
    attempts the jobs have accumulated. *)
Lemma failing_tick_keeps_jobs env w :
  (∀ job ppid, dispatch env job ≠ inl ppid) →
  jobs (processScheduledPosts env w) = jobs w.
Proof.
  intros Hfail. unfold processScheduledPosts.
  repeat case_match; try reflexivity.
  set (w0 := set_lastProcessTime (tick_now env) w).
  change (jobs w) with (jobs w0).
  generalize (filter (λ l, is_due env w0 l) (jobs w0)) as due.
  intros due. generalize w0. clear w0.
  induction due as [|l due IH]; intros w0; [reflexivity|].
  cbn [foldl]. rewrite IH. now apply process_job_failure_keeps_jobs.
Qed.

(** C2 fails on the code: the exponent is the number of attempts after
    the increment.  A job failing at 1000000, 1200000 and 1500000 ms is
    rescheduled 2 minutes after its first failure and 4 minutes after its
    second one; its third failure applies no delay at all, the scheduled
    time stays what the second failure made it. *)
Theorem retry_delays_are_two_and_four_minutes :
  let w1 := processScheduledPosts (failing 1000000) one_job in
  let w2 := processScheduledPosts (failing 1200000) w1 in
  let w3 := processScheduledPosts (failing 1500000) w2 in
  (λ j, (attempts j, scheduledTime j)) <$> job_objects w1
    = [(1, 1000000 + 2 * 60000)]
  ∧ (λ j, (attempts j, scheduledTime j)) <$> job_objects w2
    = [(2, 1200000 + 4 * 60000)]
  ∧ (λ j, (attempts j, scheduledTime j)) <$> job_objects w3
    = [(3, 1200000 + 4 * 60000)]
  ∧ backoffMs 1 = 2 * 60000
  ∧ backoffMs 2 = 4 * 60000.
Proof. vm_compute. repeat split. Qed.

(** C1 fails on the code in its second half.  After three failed ticks
    the post is [failed] with the last error message, but the job is still
    in [this.jobs] with [attempts = 3] and a scheduled time in the past: it
    is due at the next tick, where a fourth publish call that succeeds
    turns the failed post into a published one. *)
Theorem exhausted_job_is_not_removed :
  let w1 := processScheduledPosts (failing 1000000) one_job in
  let w2 := processScheduledPosts (failing 1200000) w1 in
  let w3 := processScheduledPosts (failing 1500000) w2 in
  let w4 := processScheduledPosts (succeeding 1600000) w3 in
  (λ p, (p_status p, p_error_message p)) <$> find_post 1 w3
    = Some (failed, Some "boom")
  ∧ jobs w3 = [0%nat]
  ∧ attempts <$> job_objects w3 = [3]
  ∧ filter (λ l, is_due (failing 1600000) w3 l) (jobs w3) = [0%nat]
  ∧ p_status <$> find_post 1 w4 = Some published
  ∧ jobs w4 = [].
Proof. vm_compute. repeat split. Qed.

(** ** The slot time *)

(** On numeric entries the search of the roll-over is right: with today
    [cur] and some listed day reachable, [daysToAdd] is the least [j]
    between 1 and 7 whose weekday [(cur + j) mod 7] is listed. *)
Lemma daysToAdd_numeric cur days :
  0 <= cur < 7 →
  (∃ j, 1 <= j <= 7 ∧ includes_raw days ((cur + j) mod 7) = true) →
  let j := daysToAdd cur days in
  1 <= j <= 7
  ∧ includes_raw days ((cur + j) mod 7) = true
  ∧ ∀ k, 1 <= k < j → includes_raw days ((cur + k) mod 7) = false.
Proof.
  intros Hc [j0 [Hj0 Hin]].
  assert (Hrem : ∀ k, 1 <= k <= 7 → Z.rem (cur + k) 7 = (cur + k) mod 7)
    by (intros k Hk; apply Z.rem_mod_nonneg; lia).
  unfold daysToAdd. cbn [first_scheduled_day].
  rewrite !Hrem by lia.
  repeat case_match; cbv [from_option Datatypes.id];
    try (split; [lia|]; split; [assumption|];
         intros k Hk;
         assert (k = 1 ∨ k = 2 ∨ k = 3 ∨ k = 4 ∨ k = 5 ∨ k = 6) as Hcases
           by lia;
         repeat (destruct Hcases as [->|Hcases]; [first [assumption|lia]|]);
         subst; first [assumption|lia]).
  exfalso.
  assert (j0 = 1 ∨ j0 = 2 ∨ j0 = 3 ∨ j0 = 4 ∨ j0 = 5 ∨ j0 = 6 ∨ j0 = 7)
    as Hcases by lia.
  repeat (destruct Hcases as [->|Hcases]; [congruence|]).
  subst. congruence.
Qed.

(** A slot whose time has passed moves by [daysToAdd] whole days. *)
Lemma scheduledTimeIST_passed tz istNow days hours minutes :
  setHours tz istNow hours minutes 0 0 <= istNow →
  scheduledTimeIST tz istNow days hours minutes
  = setHours tz istNow hours minutes 0 0
    + daysToAdd (getDay tz istNow) (default [] days) * msPerDay.
Proof.
  intros Hp. unfold scheduledTimeIST.
  destruct (Z.leb_spec (setHours tz istNow hours minutes 0 0) istNow);
    [|lia].
  apply setDate_getDate.
Qed.

(** C6 fails on the code for entries stored as strings: the roll-over
    compares the raw entries with a number and, unlike the filter of
    [generateContentForToday], does not run them through [parseInt].  On
    Wednesday 4 November 2026 at 10:00 (India), a schedule whose days are
    stored as [["3"]] is selected for today (3 is Wednesday), its 09:00 slot
    has passed, and the post is scheduled for Thursday 5 November 09:00,
    a weekday that is not listed; with the numeric entry [[3]] it is
    scheduled for Wednesday 11 November 09:00. *)
Theorem string_days_roll_over_to_tomorrow :
  let istNow := getCurrentIST 0 wednesday_10h in
  let as_strings := weekly [DStr "3"] (Some 1) ["09:00"] in
  let as_numbers := weekly [DNum 3] (Some 1) ["09:00"] in
  let run s := generateContentForToday 0 (generating wednesday_10h [s])
                 (initial [] 1) in
  getDay 0 istNow = 3
  ∧ runs_on 3 as_strings = true
  ∧ parse_time "09:00" = Some (9, 0)
  ∧ daysToAdd 3 [DStr "3"] = 1
  ∧ daysToAdd 3 [DNum 3] = 7
  ∧ getDay 0 (scheduledTimeIST 0 istNow (Some [DStr "3"]) 9 0) = 4
  ∧ p_scheduled_for <$> content_posts (run as_strings)
    = [Some 1793849400000]
  ∧ p_scheduled_for <$> content_posts (run as_numbers)
    = [Some 1794367800000].
Proof. vm_compute. repeat split. Qed.

(** ** Daily generation *)

Lemma appends_same P w w' :
  content_posts w' = content_posts w → appends P w w'.
Proof. intros E. exists []. split; [now rewrite app_nil_r | constructor]. Qed.

Lemma appends_refl P w : appends P w w.
Proof. now apply appends_same. Qed.

Lemma appends_trans P w1 w2 w3 :
  appends P w1 w2 → appends P w2 w3 → appends P w1 w3.
Proof.
  intros [r1 [E1 F1]] [r2 [E2 F2]]. exists (r1 ++ r2). split.
  - now rewrite E2, E1, app_assoc.
  - now apply Forall_app.
Qed.

Lemma appends_weaken (P Q : ContentPost → Prop) w w' :
  (∀ p, P p → Q p) → appends P w w' → appends Q w w'.
Proof.
  intros HPQ [r [E F]]. exists r. split; [exact E|].
  eapply Forall_impl; eauto.
Qed.

Lemma new_posts_appends w w' rows :
  content_posts w' = content_posts w ++ rows → new_posts w w' = rows.
Proof. intros E. unfold new_posts. rewrite E. apply drop_app_length. Qed.

Lemma insert_scheduled_posts s c t w :
  ∃ r, content_posts (insert_scheduled s c t w) = content_posts w ++ [r]
       ∧ slot_row s r.
Proof. eexists. split; [reflexivity|]. split; reflexivity. Qed.

Lemma schedule_slot_appends tz env s topics times w i :
  appends (slot_row s) w (schedule_slot tz env s topics times w i).
Proof.
  unfold schedule_slot.
  destruct (s_generate _ _ _) as [c|]; [|now apply appends_same].
  destruct (times !! i ≫= parse_time) as [[h m]|]; [|now apply appends_same].
  destruct (s_insert_ok _); [|apply appends_refl].
  destruct (insert_scheduled_posts s c
              (fromIST (scheduledTimeIST tz (getCurrentIST tz
                 (s_now (g_slot env s i))) (days_of_week s) h m)) w)
    as [r [E Hr]].
  exists [r]. split; [exact E | now constructor].
Qed.

Lemma foldl_appends {A} P (f : World → A → World) (l : list A) w :
  (∀ w a, a ∈ l → appends P w (f w a)) → appends P w (foldl f w l).
Proof.
  revert w. induction l as [|a l IH]; intros w Hf; [apply appends_refl|].
  cbn. eapply appends_trans.
  - apply (Hf w a). apply elem_of_cons; eauto.
  - apply IH. intros w' a' Ha'. apply Hf. apply elem_of_cons; eauto.
Qed.

Lemma scheduleContentForPlatform_appends tz env w s :
  appends (slot_row s) w (scheduleContentForPlatform tz env w s).
Proof.
  unfold scheduleContentForPlatform. apply foldl_appends.
  intros w' i _. apply schedule_slot_appends.
Qed.

Section AllSlotsSucceed.
Variables (tz : Z) (env : GenEnv) (s : ScheduleEntry).
Hypothesis generated :
  ∀ i topic, is_Some (s_generate (g_slot env s i) (platform_name s) topic).
Hypothesis inserted : ∀ i, s_insert_ok (g_slot env s i) = true.



End AllSlotsSucceed.

(** Rows that are [scheduled] do not count as content for today. *)
Lemma hasContentForToday_appends tz env w w' s :
  appends (λ p, p_status p = scheduled) w w' →
  hasContentForToday tz env w' s = hasContentForToday tz env w s.
Proof.
  intros [rows [E F]]. unfold hasContentForToday.
  destruct (g_user env) as [uid|]; [|reflexivity].
  rewrite E, filter_app.
  match goal with
  | |- context [?a ++ filter ?P rows] =>
      replace (filter P rows) with (@nil ContentPost);
      [now rewrite app_nil_r|]
  end.
  symmetry. clear E. induction F as [|r rows Hr F IH]; [reflexivity|].
  rewrite filter_cons_False; [exact IH|].
  rewrite Hr. cbn. rewrite andb_false_r. cbn. tauto.
Qed.

Lemma generate_for_appends tz env w s :
  appends (slot_row s) w (generate_for tz env w s).
Proof.
  unfold generate_for. destruct (hasContentForToday tz env w s).
  - apply appends_refl.
  - apply scheduleContentForPlatform_appends.
Qed.


Lemma maxPosts_nonzero s m :
  max_posts_per_day s = Some m → m ≠ 0 → maxPosts s = m.
Proof.
  intros E Hm. unfold maxPosts. rewrite E.
  destruct (Z.eqb_spec m 0); [contradiction | reflexivity].
Qed.


Lemma filter_Forall_id {A} (P : A → Prop) `{!∀ x, Decision (P x)} (l : list A) :
  Forall P l → filter P l = l.
Proof.
  induction 1 as [|x l Hx _ IH]; [reflexivity|].
  rewrite filter_cons_True by assumption. now rewrite IH.
Qed.





(** * Further properties of the scheduler *)

Import Relations.

(** ** Relations between states *)

Lemma same_control_refl w : same_control w w.
Proof. repeat split. Qed.

Lemma same_control_trans w1 w2 w3 :
  same_control w1 w2 → same_control w2 w3 → same_control w1 w3.
Proof. unfold same_control. intros H1 H2. intuition congruence. Qed.

Lemma job_step_refl j : job_step j j.
Proof. repeat split. lia. Qed.

Lemma job_step_trans j1 j2 j3 : job_step j1 j2 → job_step j2 j3 → job_step j1 j3.
Proof. unfold job_step. intros H1 H2. intuition (try congruence; try lia). Qed.

Lemma row_step_refl p : row_step p p.
Proof. repeat split. Qed.

Lemma row_step_trans p1 p2 p3 : row_step p1 p2 → row_step p2 p3 → row_step p1 p3.
Proof.
  unfold row_step. intros H1 H2.
  destruct H1 as (?&?&?&?&?&?&?&?&Hs1), H2 as (?&?&?&?&?&?&?&?&Hs2).
  repeat split; try congruence.
  intros Hs. pose proof (Hs2 Hs) as ->. auto.
Qed.

Lemma Forall2_refl_of {A} (R : A → A → Prop) (l : list A) :
  (∀ x, R x x) → Forall2 R l l.
Proof. intros HR. apply Forall_Forall2_diag, Forall_true, HR. Qed.

Lemma Forall2_trans_of {A} (R : A → A → Prop) (l1 l2 l3 : list A) :
  (∀ x y z, R x y → R y z → R x z) →
  Forall2 R l1 l2 → Forall2 R l2 l3 → Forall2 R l1 l3.
Proof.
  intros HR H12. revert l3.
  induction H12 as [|x y l1 l2 Hxy _ IH]; intros l3 H23; inv H23;
    constructor; eauto.
Qed.

(** Overwriting one element by a related one. *)
Lemma Forall2_overwrite {A} (R : A → A → Prop) (l : list A) i x y :
  (∀ x, R x x) → l !! i = Some x → R x y → Forall2 R l (<[i:=y]> l).
Proof.
  intros HR Hi Hxy. apply Forall2_same_length_lookup_2.
  - now rewrite length_insert.
  - intros k a b Ha Hb. destruct (decide (k = i)) as [->|Hne].
    + rewrite list_lookup_insert_eq in Hb by (eapply lookup_lt_Some; eauto).
      congruence.
    + rewrite list_lookup_insert_ne in Hb by auto.
      replace b with a by congruence. apply HR.
Qed.

Lemma tick_step_refl w : tick_step w w.
Proof.
  repeat split; try reflexivity.
  - apply Forall2_refl_of, job_step_refl.
  - apply Forall2_refl_of, row_step_refl.
Qed.

Lemma tick_step_trans w1 w2 w3 :
  tick_step w1 w2 → tick_step w2 w3 → tick_step w1 w3.
Proof.
  intros (H1&R1&P1&J1&N1&C1) (H2&R2&P2&J2&N2&C2).
  split; [|split; [|split; [|split; [|split]]]].
  - eapply Forall2_trans_of; eauto using job_step_trans.
  - eapply Forall2_trans_of; eauto using row_step_trans.
  - congruence.
  - etransitivity; eauto.
  - congruence.
  - eapply same_control_trans; eauto.
Qed.

Lemma foldl_rel {A} (R : World → World → Prop) (f : World → A → World)
    (l : list A) w :
  (∀ w, R w w) → (∀ w1 w2 w3, R w1 w2 → R w2 w3 → R w1 w3) →
  (∀ w a, R w (f w a)) → R w (foldl f w l).
Proof.
  intros Hrefl Htrans Hstep. revert w.
  induction l as [|a l IH]; intros w; cbn; eauto.
Qed.

(** ** What a dispatch tick keeps *)

Lemma update_post_rows pid f w :
  (∀ p, row_step p (f p)) →
  Forall2 row_step (content_posts w) (content_posts (update_post pid f w)).
Proof.
  intros Hf. cbn. apply Forall2_fmap_r, Forall_Forall2_diag, Forall_true.
  intros p. unfold compose.
  destruct (decide (p_id p = pid)); [apply Hf | apply row_step_refl].
Qed.

Lemma row_step_with_status st p : st ≠ scheduled → row_step p (with_status st p).
Proof. intros Hst. repeat split. cbn. intros E. now destruct Hst. Qed.

Lemma row_step_with_published ppid t p : row_step p (with_published ppid t p).
Proof. repeat split. cbn. discriminate. Qed.

Lemma row_step_with_failed msg p : row_step p (with_failed msg p).
Proof. repeat split. cbn. discriminate. Qed.

Lemma on_publish_error_step env l job msg w :
  heap w !! l = Some job →
  tick_step w (on_publish_error env l job msg w).
Proof.
  intros Hl. unfold on_publish_error.
  assert (H1 : Forall2 job_step (heap w)
                 (<[l:=with_attempts (attempts job + 1) job]> (heap w))).
  { eapply Forall2_overwrite; eauto using job_step_refl.
    repeat split. cbn. lia. }
  destruct (attempts (with_attempts (attempts job + 1) job) <? 3).
  - repeat split; try reflexivity.
    cbn. rewrite list_insert_insert_eq.
    eapply Forall2_overwrite; eauto using job_step_refl.
    + repeat split. cbn. lia.
    + cbn. apply Forall2_refl_of, row_step_refl.
  - repeat split; try reflexivity.
    + exact H1.
    + cbn. apply Forall2_fmap_r, Forall_Forall2_diag, Forall_true.
      intros p. unfold compose. destruct (decide (p_id p = postId job));
        [apply row_step_with_failed | apply row_step_refl].
Qed.

Lemma add_then_delete (pid : nat) (S : gset nat) :
  pid ∉ S → ({[pid]} ∪ S) ∖ {[pid]} = S.
Proof.
  intros Hpid. apply set_eq. intros x.
  rewrite elem_of_difference, elem_of_union, !elem_of_singleton.
  split; [intros [[->|Hx] Hne]; [contradiction|exact Hx]|].
  intros Hx. split; [now right|]. intros ->. contradiction.
Qed.

(** One iteration of the dispatch loop. *)
Lemma process_job_step env w l : tick_step w (process_job env w l).
Proof.
  unfold process_job.
  destruct (heap w !! l) as [job|] eqn:Hl; [|apply tick_step_refl].
  destruct (decide (postId job ∈ processingJobs w)) as [Hin|Hnotin];
    [apply tick_step_refl|].
  set (w1 := update_post (postId job) (with_status posting)
               (set_processingJobs ({[postId job]} ∪ processingJobs w) w)).
  assert (Hw1 : Forall2 row_step (content_posts w) (content_posts w1)).
  { apply (update_post_rows _ _
             (set_processingJobs ({[postId job]} ∪ processingJobs w) w)).
    intros p. now apply row_step_with_status. }
  destruct (dispatch env job) as [ppid|msg].
  - repeat split; try reflexivity.
    + cbn. apply Forall2_refl_of, job_step_refl.
    + eapply Forall2_trans_of; [apply row_step_trans | exact Hw1 |].
      apply (update_post_rows _ _ w1). intros p.
      apply row_step_with_published.
    + cbn. now apply add_then_delete.
    + cbn. apply sublist_filter.
  - destruct (on_publish_error_step env l job msg w1 Hl)
      as (H&R&P&J&N&C).
    split; [exact H|]. split.
    { eapply Forall2_trans_of; [apply row_step_trans | exact Hw1 | exact R]. }
    split.
    { cbn [processingJobs set_processingJobs]. rewrite P. cbn.
      now apply add_then_delete. }
    split; [exact J|]. split; [exact N|]. exact C.
Qed.

Lemma processScheduledPosts_fold env w :
  processScheduledPosts env w = w
  ∨ ∃ due, processScheduledPosts env w
           = foldl (process_job env) (set_lastProcessTime (tick_now env) w) due.
Proof.
  unfold processScheduledPosts.
  destruct (tick_now env - lastProcessTime w <? 30000); [now left|].
  right. repeat case_match; eauto.
  - now exists [].
  - exists []. reflexivity.
Qed.

Lemma lookup_insert_twice {A} (l : list A) i x y :
  <[i:=y]> (<[i:=x]> l) = <[i:=y]> l.
Proof. apply list_insert_insert_eq. Qed.

(** One iteration of the dispatch loop, on a job object that is allocated
    and whose post is not being processed: the rows of its post become
    [outcome_row], the list loses the jobs of that post on success only,
    and the object is rewritten on failure only. *)
Lemma process_job_eq env w l job :
  heap w !! l = Some job →
  postId job ∉ processingJobs w →
  content_posts (process_job env w l)
  = (λ p, if decide (p_id p = postId job) then outcome_row env job p else p)
      <$> content_posts w
  ∧ jobs (process_job env w l)
    = (if dispatch env job is inl _
       then filter (λ l', postId <$> heap w !! l' ≠ Some (postId job)) (jobs w)
       else jobs w)
  ∧ heap (process_job env w l)
    = (if dispatch env job is inl _ then heap w
       else <[l := job_after_failure env job]> (heap w)).
Proof.
  intros Hl Hp. unfold process_job, outcome_row, job_after_failure.
  rewrite Hl. destruct (decide (postId job ∈ processingJobs w)); [done|].
  destruct (dispatch env job) as [ppid|msg].
  - cbn. split; [|done]. rewrite <- list_fmap_compose.
    apply list_fmap_ext. intros i p _. cbn.
    destruct (decide (p_id p = postId job)) as [E|E]; cbn.
    + now rewrite decide_True.
    + now rewrite decide_False.
  - unfold on_publish_error. cbn [attempts with_attempts].
    destruct (attempts job + 1 <? 3); cbn.
    + now rewrite list_insert_insert_eq.
    + split; [|done]. rewrite <- list_fmap_compose.
      apply list_fmap_ext. intros i p _. cbn.
      destruct (decide (p_id p = postId job)) as [E|E]; cbn.
      * now rewrite decide_True.
      * now rewrite decide_False.
Qed.

Lemma process_job_skip env w l :
  (∀ job, heap w !! l = Some job → postId job ∈ processingJobs w) →
  process_job env w l = w.
Proof.
  intros H. unfold process_job. destruct (heap w !! l) as [job|]; [|done].
  now rewrite decide_True by auto.
Qed.

Lemma process_job_lastProcessTime env w l :
  lastProcessTime (process_job env w l) = lastProcessTime w.
Proof.
  unfold process_job. destruct (heap w !! l) as [job|]; [|done].
  destruct (decide _); [done|]. destruct (dispatch env job); [done|].
  unfold on_publish_error. cbn. now destruct (_ <? _).
Qed.

Lemma foldl_process_lastProcessTime env due w :
  lastProcessTime (foldl (process_job env) w due) = lastProcessTime w.
Proof.
  revert w. induction due as [|l due IH]; intros w; [done|].
  cbn. now rewrite IH, process_job_lastProcessTime.
Qed.

Lemma foldl_process_step env due w :
  tick_step w (foldl (process_job env) w due).
Proof.
  apply foldl_rel; auto using tick_step_refl, process_job_step.
  apply tick_step_trans.
Qed.

(** A whole tick, the time of the last run apart. *)
Lemma processScheduledPosts_step env w :
  tick_step w (processScheduledPosts env w).
Proof.
  destruct (processScheduledPosts_fold env w) as [->|[due ->]];
    [apply tick_step_refl|].
  apply (tick_step_trans _ (set_lastProcessTime (tick_now env) w)).
  - destruct (tick_step_refl w) as (?&?&?&?&?&?). repeat split; auto.
  - apply foldl_process_step.
Qed.

(** A tick that passes the rate limit runs the loop body over the due
    jobs, in list order. *)
Lemma processScheduledPosts_unfold env w :
  30000 <= tick_now env - lastProcessTime w →
  processScheduledPosts env w
  = foldl (process_job env) (set_lastProcessTime (tick_now env) w)
      (filter (λ l, is_due env w l) (jobs w)).
Proof.
  intros Hrate. unfold processScheduledPosts.
  destruct (Z.ltb_spec (tick_now env - lastProcessTime w) 30000); [lia|].
  change (jobs (set_lastProcessTime (tick_now env) w)) with (jobs w).
  destruct (jobs w) as [|l js] eqn:Hj; [reflexivity|].
  cbn [length Nat.eqb].
  change (filter (λ l0, is_due env (set_lastProcessTime (tick_now env) w) l0)
            (l :: js))
    with (filter (λ l0, is_due env w l0) (l :: js)).
  destruct (filter (λ l0, is_due env w l0) (l :: js)); reflexivity.
Qed.

Lemma is_due_true env w l :
  is_due env w l = true →
  ∃ job, heap w !! l = Some job
         ∧ scheduledTime job <= tick_currentTime env
         ∧ postId job ∉ processingJobs w.
Proof.
  unfold is_due. destruct (heap w !! l) as [job|]; [|discriminate].
  rewrite andb_true_iff, negb_true_iff, bool_decide_eq_false.
  intros [Ht Hp]. apply Z.leb_le in Ht. eauto.
Qed.

Lemma ready_step due w w' : ready due w → tick_step w w' → ready due w'.
Proof.
  intros Hr (H&_&P&_) l Hl. destruct (Hr l Hl) as [job [Hj Hp]].
  destruct (Forall2_lookup_l _ _ _ _ _ H Hj) as [job' [Hj' (E&_)]].
  exists job'. split; [exact Hj'|]. now rewrite E, P.
Qed.

Lemma ready_tail a due w : ready (a :: due) w → ready due w.
Proof. intros Hr l Hl. apply Hr. apply elem_of_cons. now right. Qed.

Lemma heap_postId_back w w' l job' :
  tick_step w w' → heap w' !! l = Some job' →
  ∃ job, heap w !! l = Some job ∧ postId job' = postId job.
Proof.
  intros (H&_) Hj'. destruct (Forall2_lookup_r _ _ _ _ _ H Hj')
    as [job [Hj (E&_)]]. eauto.
Qed.

Lemma heap_postId_forth w w' l job :
  tick_step w w' → heap w !! l = Some job →
  ∃ job', heap w' !! l = Some job' ∧ postId job' = postId job.
Proof.
  intros (H&_) Hj. destruct (Forall2_lookup_l _ _ _ _ _ H Hj)
    as [job' [Hj' (E&_)]]. eauto.
Qed.

Lemma rows_back w w' p' :
  tick_step w w' → p' ∈ content_posts w' →
  ∃ p, p ∈ content_posts w ∧ row_step p p'.
Proof.
  intros (_&R&_) Hp'. apply list_elem_of_lookup in Hp' as [i Hi].
  destruct (Forall2_lookup_r _ _ _ _ _ R Hi) as [p [Hp Hs]].
  exists p. split; [|exact Hs]. eapply list_elem_of_lookup_2; eauto.
Qed.

Lemma outcome_row_id env job p : p_id (outcome_row env job p) = p_id p.
Proof. unfold outcome_row. repeat case_match; reflexivity. Qed.

Lemma outcome_row_status env job p : p_status (outcome_row env job p) ≠ scheduled.
Proof. unfold outcome_row. repeat case_match; discriminate. Qed.

Lemma outcome_row_published env job p ppid :
  dispatch env job = inl ppid → is_published (outcome_row env job p).
Proof.
  intros E. unfold outcome_row. rewrite E.
  split; [reflexivity|]. split; eexists; reflexivity.
Qed.

(** The loop body either does nothing or is described by
    [process_job_eq]. *)
Lemma process_job_cases env w l :
  process_job env w l = w
  ∨ ∃ job, heap w !! l = Some job ∧ postId job ∉ processingJobs w.
Proof.
  unfold process_job. destruct (heap w !! l) as [job|]; [|now left].
  destruct (decide (postId job ∈ processingJobs w)); [now left|].
  right. eauto.
Qed.

(** Rows of other posts are not written by the loop. *)
Lemma foldl_process_other_rows env due w i p :
  content_posts w !! i = Some p →
  (∀ l job, l ∈ due → heap w !! l = Some job → postId job ≠ p_id p) →
  content_posts (foldl (process_job env) w due) !! i = Some p.
Proof.
  revert w. induction due as [|a due IH]; intros w Hi Hother; [exact Hi|].
  cbn [foldl]. apply IH.
  - destruct (process_job_cases env w a) as [->|[job [Hj Hp]]]; [exact Hi|].
    destruct (process_job_eq env w a job Hj Hp) as [-> _].
    rewrite list_lookup_fmap, Hi. cbn.
    rewrite decide_False; [reflexivity|].
    intros E. eapply Hother; eauto. apply elem_of_cons. now left.
  - intros l job' Hl Hj'.
    destruct (heap_postId_back w _ l job' (process_job_step env w a) Hj')
      as [job [Hj ->]].
    eapply Hother; eauto. apply elem_of_cons. now right.
Qed.

(** The rows of a post stay off [scheduled] once they left it. *)
Lemma rows_stay_unscheduled w w' pid :
  tick_step w w' →
  (∀ p, p ∈ content_posts w → p_id p = pid → p_status p ≠ scheduled) →
  ∀ p', p' ∈ content_posts w' → p_id p' = pid → p_status p' ≠ scheduled.
Proof.
  intros Hstep Hw p' Hp' Hid Hs.
  destruct (rows_back w w' p' Hstep Hp') as [p [Hp Hrow]].
  destruct Hrow as (Eid&_&_&_&_&_&_&_&Hsame).
  pose proof (Hsame Hs) as ->. eapply Hw; eauto.
Qed.

Lemma process_job_marks env w l job :
  heap w !! l = Some job → postId job ∉ processingJobs w →
  ∀ p, p ∈ content_posts (process_job env w l) → p_id p = postId job →
       p_status p ≠ scheduled.
Proof.
  intros Hj Hp p Hin Hid.
  destruct (process_job_eq env w l job Hj Hp) as [E _]. rewrite E in Hin.
  apply list_elem_of_fmap in Hin as [p0 [-> Hp0]].
  destruct (decide (p_id p0 = postId job)); [|contradiction].
  apply outcome_row_status.
Qed.

Lemma foldl_process_marks env due w :
  ready due w →
  ∀ l job p, l ∈ due → heap w !! l = Some job →
    p ∈ content_posts (foldl (process_job env) w due) →
    p_id p = postId job → p_status p ≠ scheduled.
Proof.
  revert w. induction due as [|a due IH]; intros w Hr l job p Hl Hj Hp Hid.
  { now apply elem_of_nil in Hl. }
  cbn [foldl] in Hp.
  pose proof (process_job_step env w a) as Hstep.
  apply elem_of_cons in Hl as [->|Hl].
  - destruct (Hr a) as [job0 [Hj0 Hp0]]; [apply elem_of_cons; now left|].
    replace job0 with job in * by congruence.
    eapply (rows_stay_unscheduled (process_job env w a)); eauto.
    + apply foldl_process_step.
    + now apply process_job_marks.
  - destruct (heap_postId_forth w _ l job Hstep Hj) as [job' [Hj' E]].
    eapply (IH (process_job env w a)); eauto.
    + eapply ready_step; eauto using ready_tail.
    + congruence.
Qed.

Lemma process_job_keeps_published env w a pid :
  (∀ job, heap w !! a = Some job → ∃ ppid, dispatch env job = inl ppid) →
  (∀ p, p ∈ content_posts w → p_id p = pid → is_published p) →
  ∀ p, p ∈ content_posts (process_job env w a) → p_id p = pid →
       is_published p.
Proof.
  intros Hs Hw p Hin Hid.
  destruct (process_job_cases env w a) as [E|[job [Hj Hp]]].
  { rewrite E in Hin. auto. }
  destruct (process_job_eq env w a job Hj Hp) as [E _]. rewrite E in Hin.
  apply list_elem_of_fmap in Hin as [p0 [-> Hp0]].
  destruct (decide (p_id p0 = postId job)).
  - destruct (Hs job Hj) as [ppid Hd].
    eapply outcome_row_published; eauto.
  - auto.
Qed.

Lemma process_job_success_heap env w a :
  (∀ job, heap w !! a = Some job → ∃ ppid, dispatch env job = inl ppid) →
  heap (process_job env w a) = heap w.
Proof.
  intros Hs. destruct (process_job_cases env w a) as [->|[job [Hj Hp]]];
    [reflexivity|].
  destruct (process_job_eq env w a job Hj Hp) as (_&_&->).
  destruct (Hs job Hj) as [ppid ->]. reflexivity.
Qed.

Lemma succeeds_tail env a due w :
  succeeds_on env (a :: due) w → succeeds_on env due (process_job env w a).
Proof.
  intros Hs l job Hl Hj. rewrite process_job_success_heap in Hj.
  - eapply Hs; eauto. apply elem_of_cons. now right.
  - intros job' Hj'. eapply Hs; eauto. apply elem_of_cons. now left.
Qed.

Lemma foldl_process_keeps_published env due w pid :
  succeeds_on env due w →
  (∀ p, p ∈ content_posts w → p_id p = pid → is_published p) →
  ∀ p, p ∈ content_posts (foldl (process_job env) w due) → p_id p = pid →
       is_published p.
Proof.
  revert w. induction due as [|a due IH]; intros w Hs Hw; [exact Hw|].
  cbn [foldl]. apply IH; [now apply succeeds_tail|].
  apply process_job_keeps_published; [|exact Hw].
  intros job Hj. eapply Hs; eauto. apply elem_of_cons. now left.
Qed.

Lemma process_job_publishes env w l job :
  heap w !! l = Some job → postId job ∉ processingJobs w →
  (∃ ppid, dispatch env job = inl ppid) →
  (∀ p, p ∈ content_posts (process_job env w l) → p_id p = postId job →
        is_published p)
  ∧ l ∉ jobs (process_job env w l).
Proof.
  intros Hj Hp [ppid Hd].
  destruct (process_job_eq env w l job Hj Hp) as (E&J&_). split.
  - intros p Hin Hid. rewrite E in Hin.
    apply list_elem_of_fmap in Hin as [p0 [-> Hp0]].
    destruct (decide (p_id p0 = postId job)); [|contradiction].
    eapply outcome_row_published; eauto.
  - rewrite J, Hd. intros Hin. apply list_elem_of_filter in Hin as [Hne _].
    apply Hne. now rewrite Hj.
Qed.

Lemma foldl_process_publishes env due w :
  succeeds_on env due w →
  ready due w →
  ∀ l job, l ∈ due → heap w !! l = Some job →
    (∀ p, p ∈ content_posts (foldl (process_job env) w due) →
          p_id p = postId job → is_published p)
    ∧ l ∉ jobs (foldl (process_job env) w due).
Proof.
  revert w. induction due as [|a due IH]; intros w Hs Hr l job Hl Hj.
  { now apply elem_of_nil in Hl. }
  cbn [foldl].
  pose proof (process_job_step env w a) as Hstep.
  pose proof (succeeds_tail env a due w Hs) as Hs'.
  apply elem_of_cons in Hl as [->|Hl].
  - destruct (Hr a) as [job0 [Hj0 Hp0]]; [apply elem_of_cons; now left|].
    replace job0 with job in * by congruence.
    destruct (process_job_publishes env w a job Hj Hp0) as [Hpub Hgone].
    { eapply Hs; eauto. apply elem_of_cons. now left. }
    split.
    + now apply foldl_process_keeps_published.
    + intros Hin. apply Hgone.
      destruct (foldl_process_step env due (process_job env w a))
        as (_&_&_&Hsub&_).
      eapply elem_of_sublist; eauto.
  - destruct (heap_postId_forth w _ l job Hstep Hj) as [job' [Hj' E]].
    rewrite <- E. apply IH; [exact Hs'| |exact Hl|exact Hj'].
    eapply ready_step; eauto using ready_tail.
Qed.

Lemma due_ready env w : ready (filter (λ l, is_due env w l) (jobs w)) w.
Proof.
  intros l Hl. apply list_elem_of_filter in Hl as [Hd _].
  apply Is_true_true in Hd.
  destruct (is_due_true env w l Hd) as [job (Hj&_&Hp)]. eauto.
Qed.

(** ** The dispatch tick as a whole *)

(** X1. Guaranteed release: a dispatch tick leaves the processing set
    exactly as it found it, whatever the publish calls answer. *)
Theorem tick_releases_processing_set (env : TickEnv) (w : World) :
  processingJobs (processScheduledPosts env w) = processingJobs w.
Proof. now destruct (processScheduledPosts_step env w) as (_&_&P&_). Qed.

(** X2. A dispatch tick inserts no row and deletes none; row by row it
    keeps the key, owner, platform, type, title, content, media and
    scheduled instant, and it never writes the status [scheduled]: a row
    that is [scheduled] after the tick is the row as it was before. *)
Theorem tick_keeps_rows (env : TickEnv) (w : World) :
  Forall2 row_step (content_posts w)
                   (content_posts (processScheduledPosts env w))
  ∧ next_post_id (processScheduledPosts env w) = next_post_id w.
Proof. destruct (processScheduledPosts_step env w) as (_&R&_&_&N&_). auto. Qed.

(** X3. A dispatch tick adds no job and does not reorder the list (what
    remains is a sublist of the old list); every job object keeps its
    post, platform and payload, and its [attempts] never decreases. *)
Theorem tick_keeps_job_identity (env : TickEnv) (w : World) :
  jobs (processScheduledPosts env w) `sublist_of` jobs w
  ∧ Forall2 job_step (heap w) (heap (processScheduledPosts env w)).
Proof. destruct (processScheduledPosts_step env w) as (H&_&_&J&_). auto. Qed.

(** X4. Rate limit: after a tick that ran (30 seconds or more after the
    previous run), a tick whose clock reads less than 30 seconds later does
    nothing at all. *)
Theorem second_tick_within_30s_is_noop (env1 env2 : TickEnv) (w : World) :
  30000 <= tick_now env1 - lastProcessTime w →
  tick_now env2 - tick_now env1 < 30000 →
  processScheduledPosts env2 (processScheduledPosts env1 w)
  = processScheduledPosts env1 w.
Proof.
  intros H1 H2.
  assert (Hlast : lastProcessTime (processScheduledPosts env1 w)
                  = tick_now env1).
  { rewrite processScheduledPosts_unfold by exact H1.
    now rewrite foldl_process_lastProcessTime. }
  unfold processScheduledPosts at 1. rewrite Hlast.
  destruct (Z.ltb_spec (tick_now env2 - tick_now env1) 30000); [reflexivity|].
  lia.
Qed.

Lemma second_tick_within_30s_is_noop_witness :
  30000 <= tick_now (failing 1000000) - lastProcessTime one_job
  ∧ tick_now (succeeding 1029999) - tick_now (failing 1000000) < 30000
  ∧ processScheduledPosts (succeeding 1029999)
      (processScheduledPosts (failing 1000000) one_job)
    = processScheduledPosts (failing 1000000) one_job.
Proof.
  split; [vm_compute; discriminate|]. split; [reflexivity|].
  apply (second_tick_within_30s_is_noop (failing 1000000)
           (succeeding 1029999) one_job).
  - vm_compute. discriminate.
  - reflexivity.
Defined.

(** X5. A dispatch tick writes only the posts of due jobs: a row whose key
    is not the [postId] of any listed job that is due is the same row after
    the tick. *)
Theorem tick_writes_only_due_posts (env : TickEnv) (w : World) (i : nat)
    (p : ContentPost) :
  content_posts w !! i = Some p →
  (∀ l job, l ∈ jobs w → heap w !! l = Some job → is_due env w l = true →
            postId job ≠ p_id p) →
  content_posts (processScheduledPosts env w) !! i = Some p.
Proof.
  intros Hi Hother.
  destruct (Z.ltb_spec (tick_now env - lastProcessTime w) 30000) as [Hr|Hr].
  { unfold processScheduledPosts.
    destruct (Z.ltb_spec (tick_now env - lastProcessTime w) 30000);
      [exact Hi | lia]. }
  rewrite processScheduledPosts_unfold by exact Hr.
  apply foldl_process_other_rows; [exact Hi|].
  intros l job Hl Hj. apply list_elem_of_filter in Hl as [Hd Hl].
  apply Is_true_true in Hd. eapply Hother; eauto.
Qed.

Lemma tick_writes_only_due_posts_witness :
  content_posts two_jobs !! 0%nat = Some (row 1 "devto" 200000)
  ∧ content_posts (processScheduledPosts (succeeding 150000) two_jobs) !! 0%nat
    = Some (row 1 "devto" 200000).
Proof.
  split; [reflexivity|].
  apply (tick_writes_only_due_posts (succeeding 150000) two_jobs 0
           (row 1 "devto" 200000) eq_refl).
  intros l job Hl Hj Hd.
  apply elem_of_cons in Hl as [->|Hl].
  - vm_compute in Hd. discriminate.
  - apply elem_of_cons in Hl as [->|Hl].
    + injection Hj as <-. discriminate.
    + now apply elem_of_nil in Hl.
Defined.

(** X6. When the publish call succeeds for every job that is due (and
    the tick passes the rate limit), no job that was due remains in the
    list, and every row of the post of a due job is [published] with a
    platform post id and a posting time. *)
Theorem successful_tick_publishes_due_jobs (env : TickEnv) (w : World) :
  30000 <= tick_now env - lastProcessTime w →
  (∀ l job, l ∈ jobs w → heap w !! l = Some job → is_due env w l = true →
            ∃ ppid, dispatch env job = inl ppid) →
  let w' := processScheduledPosts env w in
  (∀ l, l ∈ jobs w' → is_due env w l = false)
  ∧ (∀ l job p, l ∈ jobs w → heap w !! l = Some job →
       is_due env w l = true →
       p ∈ content_posts w' → p_id p = postId job → is_published p).
Proof.
  intros Hr Hs w'. subst w'.
  rewrite processScheduledPosts_unfold by exact Hr.
  set (w0 := set_lastProcessTime (tick_now env) w).
  set (due := filter (λ l, is_due env w l) (jobs w)).
  assert (Hready : ready due w0) by apply (due_ready env w).
  assert (Hsucc : succeeds_on env due w0).
  { intros l job Hl Hj. apply list_elem_of_filter in Hl as [Hd Hl].
    apply Is_true_true in Hd. eapply Hs; eauto. }
  split.
  - intros l Hl. destruct (is_due env w l) eqn:Hd; [|reflexivity].
    exfalso.
    assert (Hin : l ∈ jobs w).
    { destruct (foldl_process_step env due w0) as (_&_&_&Hsub&_).
      eapply elem_of_sublist; eauto. }
    assert (Hdue : l ∈ due).
    { apply list_elem_of_filter. split; [now apply Is_true_true | exact Hin]. }
    destruct (Hready l Hdue) as [job [Hj _]].
    destruct (foldl_process_publishes env due w0 Hsucc Hready l job Hdue Hj)
      as [_ Hgone].
    contradiction.
  - intros l job p Hl Hj Hd Hp Hid.
    assert (Hdue : l ∈ due).
    { apply list_elem_of_filter. split; [now apply Is_true_true | exact Hl]. }
    destruct (foldl_process_publishes env due w0 Hsucc Hready l job Hdue Hj)
      as [Hpub _].
    now apply Hpub.
Qed.

Lemma successful_tick_publishes_due_jobs_witness :
  30000 <= tick_now (succeeding 1000000) - lastProcessTime two_jobs
  ∧ jobs two_jobs = [0%nat; 1%nat]
  ∧ ∀ l, l ∈ jobs (processScheduledPosts (succeeding 1000000) two_jobs) →
         is_due (succeeding 1000000) two_jobs l = false.
Proof.
  split; [vm_compute; discriminate|]. split; [reflexivity|].
  refine (proj1 (successful_tick_publishes_due_jobs (succeeding 1000000)
                   two_jobs _ _)).
  - vm_compute. discriminate.
  - intros l job Hl Hj _.
    apply elem_of_cons in Hl as [->|Hl];
      [injection Hj as <-; eexists; reflexivity|].
    apply elem_of_cons in Hl as [->|Hl];
      [injection Hj as <-; eexists; reflexivity|].
    now apply elem_of_nil in Hl.
Defined.

(** X7. A post that a tick dispatched is never left [scheduled]: its rows
    are [posting], [published] or [failed] afterwards, also when a retry is
    pending.  Recovery reads [scheduled] rows only, so a
    [loadScheduledPosts] that follows rebuilds no job for that post. *)
Theorem dispatched_post_is_not_recovered (env : TickEnv) (lenv : LoadEnv)
    (uid : string) (w : World) (l : nat) (job : PostingJob) :
  30000 <= tick_now env - lastProcessTime w →
  l ∈ jobs w → heap w !! l = Some job → is_due env w l = true →
  l_user lenv = Some uid → l_query_ok lenv = true →
  let w' := processScheduledPosts env w in
  (∀ p, p ∈ content_posts w' → p_id p = postId job → p_status p ≠ scheduled)
  ∧ postId job ∉ postId <$> job_objects (loadScheduledPosts lenv w').
Proof.
  intros Hr Hl Hj Hd Hu Hq w'.
  assert (Hrows : ∀ p, p ∈ content_posts w' → p_id p = postId job →
                       p_status p ≠ scheduled).
  { subst w'. rewrite processScheduledPosts_unfold by exact Hr.
    intros p Hp Hid.
    apply (foldl_process_marks env (filter (λ l, is_due env w l) (jobs w))
             (set_lastProcessTime (tick_now env) w) (due_ready env w)
             l job p); auto.
    apply list_elem_of_filter. split; [now apply Is_true_true | exact Hl]. }
  split; [exact Hrows|].
  unfold loadScheduledPosts. rewrite Hu, Hq, job_objects_assign.
  rewrite <- list_fmap_compose. intros Hin.
  apply list_elem_of_fmap in Hin as [p [Hid Hp]].
  apply list_elem_of_filter in Hp as [Hrec Hp].
  apply Is_true_true, is_recoverable_spec in Hrec as (_&Hst&_).
  eapply Hrows; eauto.
Qed.

Lemma dispatched_post_is_not_recovered_witness :
  let w' := processScheduledPosts (failing 1000000) one_job in
  is_due (failing 1000000) one_job 0 = true
  ∧ (λ j, (postId j, attempts j)) <$> job_objects w' = [(1%nat, 1)]
  ∧ 1%nat ∉ postId <$> job_objects (loadScheduledPosts signed_in w').
Proof.
  split; [reflexivity|]. split; [reflexivity|].
  refine (proj2 (dispatched_post_is_not_recovered (failing 1000000)
    signed_in "u1" one_job 0 job_a _ _ eq_refl eq_refl eq_refl eq_refl)).
  - vm_compute. discriminate.
  - apply elem_of_cons. now left.
Defined.

(** ** [start()] and [stop()] *)

Lemma gen_frame_refl w : gen_frame w w.
Proof. repeat split. Qed.

Lemma gen_frame_trans w1 w2 w3 :
  gen_frame w1 w2 → gen_frame w2 w3 → gen_frame w1 w3.
Proof.
  intros (C1&P1&L1) (C2&P2&L2). split; [|split; congruence].
  eapply same_control_trans; eauto.
Qed.

Lemma gen_frame_notify n w : gen_frame w (notify n w).
Proof. repeat split. Qed.

Lemma gen_frame_insert s c t w : gen_frame w (insert_scheduled s c t w).
Proof. repeat split. Qed.

Lemma gen_frame_slot tz env s topics times w i :
  gen_frame w (schedule_slot tz env s topics times w i).
Proof.
  unfold schedule_slot. repeat case_match;
    auto using gen_frame_refl, gen_frame_notify, gen_frame_insert.
Qed.

Lemma gen_frame_platform tz env w s :
  gen_frame w (scheduleContentForPlatform tz env w s).
Proof.
  unfold scheduleContentForPlatform.
  apply foldl_rel; auto using gen_frame_refl, gen_frame_slot.
  apply gen_frame_trans.
Qed.

Lemma gen_frame_generate_for tz env w s : gen_frame w (generate_for tz env w s).
Proof.
  unfold generate_for. case_match;
    auto using gen_frame_refl, gen_frame_platform.
Qed.

Lemma gen_frame_generate tz env w :
  gen_frame w (generateContentForToday tz env w).
Proof.
  unfold generateContentForToday. repeat case_match; try apply gen_frame_refl.
  apply foldl_rel; auto using gen_frame_refl, gen_frame_generate_for.
  apply gen_frame_trans.
Qed.

Lemma gen_frame_load env w : gen_frame w (loadScheduledPosts env w).
Proof.
  unfold loadScheduledPosts. repeat case_match; try apply gen_frame_refl.
  repeat split.
Qed.

(** The state [start()] reaches from a stopped scheduler, field by field:
    [w2] is the state once the two periodic timers are armed. *)
Lemma start_fields tz env w :
  isRunning w = false →
  let h1 := next_timer w in
  let h2 := Pos.succ h1 in
  let periodic :=
    [ {| timer_id := h1; timer_task := ProcessScheduledPosts;
         timer_ms := 60000; timer_repeats := true |};
      {| timer_id := h2; timer_task := WatchScheduleChanges;
         timer_ms := 30000; timer_repeats := true |} ] in
  let midnight :=
    {| timer_id := Pos.succ h2; timer_task := MidnightGeneration;
       timer_ms := fromIST (setHours tz (getCurrentIST tz (e_midnight_now env))
                              24 0 0 0) - e_midnight_now' env;
       timer_repeats := false |} in
  let w' := start tz env w in
  isRunning w' = true
  ∧ intervalId w' = Some h1
  ∧ scheduleWatchInterval w' = Some h2
  ∧ dailyGenerationScheduled w' = true
  ∧ timers w' = timers w ++ periodic
                ++ (if dailyGenerationScheduled w then [] else [midnight])
  ∧ next_timer w' = (if dailyGenerationScheduled w then Pos.succ h2
                     else Pos.succ (Pos.succ h2))
  ∧ processingJobs w' = processingJobs w
  ∧ lastProcessTime w' = lastProcessTime w
  ∧ lastScheduleState w' = lastScheduleState w.
Proof.
  intros Hrun. cbv zeta. unfold start. rewrite Hrun.
  cbn [add_timer fst snd].
  match goal with
  | |- context [loadScheduledPosts (e_load env) ?w0] => set (w2 := w0)
  end.
  set (w3 := loadScheduledPosts (e_load env) w2).
  set (w4 := generateContentForToday tz (e_gen env) w3).
  assert (F : gen_frame w2 w4).
  { eapply gen_frame_trans; [apply gen_frame_load | apply gen_frame_generate]. }
  destruct F as ((F1&F2&F3&F4&F5&F6&F7)&F8&F9).
  change (dailyGenerationScheduled w2) with (dailyGenerationScheduled w) in F4.
  destruct (dailyGenerationScheduled w4) eqn:Hd; rewrite <- F4;
    cbn; rewrite ?F1, ?F2, ?F3, ?F5, ?F6, ?F7, ?F8, ?F9; cbn;
    rewrite <- ?app_assoc; cbn; repeat split; congruence.
Qed.

(** X8. [start()] is idempotent: a second call, whatever its collaborators
    would answer, changes nothing; in particular no second pair of
    periodic timers is armed. *)
Theorem start_is_idempotent (tz : Z) (env1 env2 : StartEnv) (w : World) :
  start tz env2 (start tz env1 w) = start tz env1 w.
Proof.
  assert (Hrun : isRunning (start tz env1 w) = true).
  { destruct (isRunning w) eqn:Hr.
    - unfold start. now rewrite Hr.
    - now destruct (start_fields tz env1 w Hr) as [H _]. }
  unfold start at 1. now rewrite Hrun.
Qed.

(** X9. From a stopped scheduler, [start()] arms exactly the 60 s dispatch
    timer and the 30 s schedule-watch timer, keeps their two handles, and,
    unless daily generation was armed before, one one-shot timer for the
    next midnight; the scheduler is running afterwards and the rate-limit
    bookkeeping is untouched. *)
Theorem start_arms_timers (tz : Z) (env : StartEnv) (w : World) :
  isRunning w = false →
  let h1 := next_timer w in
  let h2 := Pos.succ h1 in
  let w' := start tz env w in
  isRunning w' = true
  ∧ intervalId w' = Some h1
  ∧ scheduleWatchInterval w' = Some h2
  ∧ dailyGenerationScheduled w' = true
  ∧ timers w'
    = timers w
      ++ [ {| timer_id := h1; timer_task := ProcessScheduledPosts;
              timer_ms := 60000; timer_repeats := true |};
           {| timer_id := h2; timer_task := WatchScheduleChanges;
              timer_ms := 30000; timer_repeats := true |} ]
      ++ (if dailyGenerationScheduled w then []
          else [ {| timer_id := Pos.succ h2;
                    timer_task := MidnightGeneration;
                    timer_ms := fromIST (setHours tz
                                  (getCurrentIST tz (e_midnight_now env))
                                  24 0 0 0) - e_midnight_now' env;
                    timer_repeats := false |} ])
  ∧ lastProcessTime w' = lastProcessTime w.
Proof.
  intros Hr. destruct (start_fields tz env w Hr)
    as (H1&H2&H3&H4&H5&_&_&H8&_).
  repeat split; assumption.
Qed.

Lemma filter_fresh_timers (h : positive) (l : list Timer) :
  Forall (λ t, (timer_id t < h)%positive) l →
  filter (λ t, timer_id t ≠ h) l = l.
Proof.
  intros Hl. apply filter_Forall_id. eapply Forall_impl; [exact Hl|].
  intros t Ht. cbn in *. lia.
Qed.

Lemma stop_fields w :
  isRunning (stop w) = false
  ∧ dailyGenerationScheduled (stop w) = dailyGenerationScheduled w
  ∧ timers (stop w)
    = filter (λ t, Some (timer_id t) ≠ intervalId w
                   ∧ Some (timer_id t) ≠ scheduleWatchInterval w) (timers w)
  ∧ next_timer (stop w) = next_timer w.
Proof.
  destruct w as [js i1 i2 r d pj lp ls hp cp np tm nt ns].
  destruct i1 as [h1|], i2 as [h2|]; cbn; repeat split; cbn.
  - rewrite list_filter_filter. apply list_filter_iff. intros t.
    split; intros [? ?]; split; congruence.
  - apply list_filter_iff. intros t. split; [|intros []]; naive_solver.
  - apply list_filter_iff. intros t. split; [|intros []]; naive_solver.
  - symmetry. apply filter_all. intros t. split; discriminate.
Qed.

(** What [stop()] makes of a scheduler that [start()] just started. *)
Lemma stop_start_fields tz env w :
  isRunning w = false →
  timers_fresh w →
  let w1 := stop (start tz env w) in
  let midnight :=
    {| timer_id := Pos.succ (Pos.succ (next_timer w));
       timer_task := MidnightGeneration;
       timer_ms := fromIST (setHours tz (getCurrentIST tz (e_midnight_now env))
                              24 0 0 0) - e_midnight_now' env;
       timer_repeats := false |} in
  isRunning w1 = false
  ∧ dailyGenerationScheduled w1 = true
  ∧ timers w1 = timers w
                ++ (if dailyGenerationScheduled w then [] else [midnight])
  ∧ timers_fresh w1.
Proof.
  intros Hr Hfresh. cbv zeta.
  destruct (start_fields tz env w Hr) as (S1&S2&S3&S4&S5&S6&_).
  destruct (stop_fields (start tz env w)) as (T1&T2&T3&T4).
  unfold timers_fresh. rewrite T1, T2, T3, T4, S2, S3, S4, S5, S6.
  split; [reflexivity|]. split; [reflexivity|].
  assert (Hkeep : filter (λ t, Some (timer_id t) ≠ Some (next_timer w)
                          ∧ Some (timer_id t) ≠ Some (Pos.succ (next_timer w)))
                    (timers w) = timers w).
  { apply filter_Forall_id. eapply Forall_impl; [exact Hfresh|].
    intros t Ht. cbn in Ht. split; intros [= E]; lia. }
  rewrite !filter_app, Hkeep.
  rewrite filter_cons_False by (cbn; intros [H _]; now apply H).
  rewrite filter_cons_False by (cbn; intros [_ H]; now apply H).
  rewrite filter_nil. cbn [app].
  destruct (dailyGenerationScheduled w).
  - rewrite filter_nil, app_nil_r. split; [reflexivity|].
    eapply Forall_impl; [exact Hfresh|]. cbn. intros t Ht. lia.
  - rewrite filter_cons_True by (cbn; split; intros [= E]; lia).
    rewrite filter_nil. split; [reflexivity|].
    apply Forall_app. split.
    + eapply Forall_impl; [exact Hfresh|]. cbn. intros t Ht. lia.
    + repeat constructor. cbn. lia.
Qed.

Import MoreSamples.

Lemma start_arms_timers_witness :
  isRunning fresh = false
  ∧ intervalId (start 0 (starting wednesday_10h) fresh) = Some 1%positive
  ∧ (λ t, (timer_task t, timer_ms t))
      <$> timers (start 0 (starting wednesday_10h) fresh)
    = [(ProcessScheduledPosts, 60000); (WatchScheduleChanges, 30000);
       (MidnightGeneration, 50400000)].
Proof.
  split; [reflexivity|].
  destruct (start_arms_timers 0 (starting wednesday_10h) fresh eq_refl)
    as (_&H2&_&_&H5&_).
  split; [exact H2|]. rewrite H5. reflexivity.
Defined.

(** X10. [stop()] does not cancel the one-shot timer for the next
    midnight: after [start()] then [stop()] on a scheduler that never ran,
    that timer is the one live timer added; and since the flag
    [dailyGenerationScheduled] stays set, a later [start()] arms no second
    one. *)
Theorem stop_leaves_midnight_timer (tz : Z) (env env' : StartEnv) (w : World) :
  isRunning w = false →
  dailyGenerationScheduled w = false →
  timers_fresh w →
  let midnight :=
    {| timer_id := Pos.succ (Pos.succ (next_timer w));
       timer_task := MidnightGeneration;
       timer_ms := fromIST (setHours tz (getCurrentIST tz (e_midnight_now env))
                              24 0 0 0) - e_midnight_now' env;
       timer_repeats := false |} in
  let w1 := stop (start tz env w) in
  timers w1 = timers w ++ [midnight]
  ∧ filter (λ t, timer_task t = MidnightGeneration) (timers (start tz env' w1))
    = filter (λ t, timer_task t = MidnightGeneration) (timers w) ++ [midnight].
Proof.
  intros Hr Hd Hfresh midnight w1.
  destruct (stop_start_fields tz env w Hr Hfresh) as (R1&D1&T1&_).
  fold w1 in R1, D1, T1. rewrite Hd in T1. fold midnight in T1.
  split; [exact T1|].
  destruct (start_fields tz env' w1 R1) as (_&_&_&_&S5&_).
  rewrite S5, D1, T1, app_nil_r, !filter_app.
  rewrite (filter_cons_True _ midnight) by reflexivity.
  rewrite filter_nil.
  rewrite filter_cons_False by discriminate.
  rewrite filter_cons_False by discriminate.
  rewrite filter_nil. now rewrite app_nil_r.
Qed.

Lemma stop_leaves_midnight_timer_witness :
  isRunning fresh = false
  ∧ dailyGenerationScheduled fresh = false
  ∧ timers_fresh fresh
  ∧ timer_task <$> timers (stop (start 0 (starting wednesday_10h) fresh))
    = [MidnightGeneration].
Proof.
  split; [reflexivity|]. split; [reflexivity|]. split; [constructor|].
  rewrite (proj1 (stop_leaves_midnight_timer 0 (starting wednesday_10h)
                    (starting wednesday_10h) fresh eq_refl eq_refl
                    ltac:(constructor))).
  reflexivity.
Defined.

(** ** Day bounds, weekday and the midnight timer *)

Lemma LocalTime_getCurrentIST tz now :
  LocalTime tz (getCurrentIST tz now) = toIST now.
Proof.
  rewrite getCurrentIST_value.
  unfold LocalTime, LocalTZA, toIST, msPerMinute. lia.
Qed.

(** The last local midnight of [d], as a time value. *)
Lemma local_midnight_spec tz d :
  let m := setHours tz d 0 0 0 0 in
  m <= d < m + msPerDay
  ∧ LocalTime tz m = Day (LocalTime tz d) * msPerDay.
Proof.
  cbv zeta. rewrite setHours_midnight.
  pose proof (TimeWithinDay_range (LocalTime tz d)) as Hr.
  split; [lia|].
  unfold TimeWithinDay, Day in *.
  pose proof (Z.div_mod (LocalTime tz d) msPerDay ltac:(discriminate)).
  unfold LocalTime in *. lia.
Qed.

Lemma Day_unique t q : q * msPerDay <= t < q * msPerDay + msPerDay → Day t = q.
Proof.
  intros H. unfold Day. symmetry.
  apply (Z.div_unique t msPerDay q (t - q * msPerDay)); unfold msPerDay in *; lia.
Qed.

Lemma getISTDayBoundsUTC_Some tz now t :
  getISTDayBoundsUTC tz now (Some t)
  = {| startUTC := fromIST (setHours tz t 0 0 0 0);
       endUTC := fromIST (setHours tz t 0 0 0 0 + msPerDay) |}.
Proof.
  unfold getISTDayBoundsUTC. rewrite setDate_getDate.
  now rewrite Z.mul_1_l.
Qed.



Lemma fixed_offset_bounds_adjoin (tz now t : Z) :
  startUTC (getISTDayBoundsUTC tz now (Some (t + 24 * 60 * 60 * 1000)))
  = endUTC (getISTDayBoundsUTC tz now (Some t))
  ∧ TimeWithinDay
      (LocalTime tz (toIST (startUTC (getISTDayBoundsUTC tz now (Some t)))))
    = 0.
Proof.
  rewrite !getISTDayBoundsUTC_Some. cbn [startUTC endUTC]. split.
  - f_equal. rewrite !setHours_midnight.
    unfold TimeWithinDay, LocalTime.
    replace (t + 24 * 60 * 60 * 1000 + LocalTZA tz)
      with (t + LocalTZA tz + 1 * msPerDay) by (unfold msPerDay; lia).
    rewrite Z.mod_add by discriminate. unfold msPerDay. lia.
  - destruct (local_midnight_spec tz t) as [_ Hm].
    replace (toIST (fromIST (setHours tz t 0 0 0 0)))
      with (setHours tz t 0 0 0 0) by (unfold toIST, fromIST; lia).
    rewrite Hm. unfold TimeWithinDay. apply Z.mod_mul. discriminate.
Qed.

(** While the offset of the host is steady, the methods over its zone are
    the methods for that fixed offset. *)
Section Steady.
Variable offset : Z → bool → Z.
Variables tz lo hi : Z.
Hypothesis Hsteady : Zone.steady offset tz lo hi.

Lemma steady_LocalTime x :
  lo <= x <= hi → Zone.LocalTime offset x = LocalTime tz x.
Proof.
  intros Hx. destruct (Hsteady x Hx) as [E _].
  unfold Zone.LocalTime, Zone.LocalTZA, LocalTime, LocalTZA. rewrite E. lia.
Qed.

Lemma steady_UTC y : lo <= UTC tz y <= hi → Zone.UTC offset y = UTC tz y.
Proof.
  intros Hy. destruct (Hsteady (UTC tz y) Hy) as [_ E].
  replace (UTC tz y - tz * msPerMinute) with y in E
    by (unfold UTC, LocalTZA; lia).
  unfold Zone.UTC, Zone.LocalTZA, UTC, LocalTZA. rewrite E. lia.
Qed.

Lemma steady_setHours d h m s ms :
  lo <= d <= hi → lo <= setHours tz d h m s ms <= hi →
  Zone.setHours offset d h m s ms = setHours tz d h m s ms.
Proof.
  intros Hd Hr. unfold Zone.setHours. rewrite steady_LocalTime by exact Hd.
  now rewrite steady_UTC.
Qed.

Lemma steady_getDate d : lo <= d <= hi → Zone.getDate offset d = getDate tz d.
Proof. intros Hd. unfold Zone.getDate. now rewrite steady_LocalTime. Qed.

Lemma steady_setDate d n :
  lo <= d <= hi → lo <= setDate tz d n <= hi →
  Zone.setDate offset d n = setDate tz d n.
Proof.
  intros Hd Hr. unfold Zone.setDate. rewrite steady_LocalTime by exact Hd.
  now rewrite steady_UTC.
Qed.
End Steady.

(** X12. While the offset of the host does not change from one day before
    [t] to one day after, the window of [t] has 24 hours, the window of the
    instant 24 hours after [t] starts where the window of [t] ends, and the
    window starts at a local midnight of the [Date] it was computed
    from. *)
Theorem next_day_bounds_adjoin (offset : Z → bool → Z) (tz now now' t : Z) :
  Zone.steady offset tz (t - msPerDay) (t + msPerDay) →
  let b := Zone.getISTDayBoundsUTC offset now now' (Some t) in
  let b' := Zone.getISTDayBoundsUTC offset now now'
              (Some (t + 24 * 60 * 60 * 1000)) in
  endUTC b - startUTC b = 24 * 60 * 60 * 1000
  ∧ startUTC b' = endUTC b
  ∧ TimeWithinDay (Zone.LocalTime offset (toIST (startUTC b))) = 0.
Proof.
  intros Hs.
  pose proof (TimeWithinDay_range (LocalTime tz t)) as Hr.
  pose proof (TimeWithinDay_range (LocalTime tz (t + msPerDay))) as Hr'.
  assert (Hstart : Zone.setHours offset t 0 0 0 0 = setHours tz t 0 0 0 0).
  { apply (steady_setHours offset tz _ _ Hs); rewrite ?setHours_midnight;
      unfold msPerDay in *; lia. }
  assert (Hstart' : Zone.setHours offset (t + msPerDay) 0 0 0 0
                    = setHours tz (t + msPerDay) 0 0 0 0).
  { apply (steady_setHours offset tz _ _ Hs); rewrite ?setHours_midnight;
      unfold msPerDay in *; lia. }
  assert (Hb : Zone.getISTDayBoundsUTC offset now now' (Some t)
               = getISTDayBoundsUTC tz now (Some t)).
  { unfold Zone.getISTDayBoundsUTC, getISTDayBoundsUTC. rewrite Hstart.
    rewrite (steady_getDate offset tz _ _ Hs)
      by (rewrite setHours_midnight; unfold msPerDay in *; lia).
    rewrite (steady_setDate offset tz _ _ Hs); [reflexivity| |];
      rewrite ?setDate_getDate, setHours_midnight; unfold msPerDay in *; lia. }
  cbv zeta. rewrite Hb.
  destruct (fixed_offset_bounds_adjoin tz now t) as [Hadj Hmid].
  destruct (getISTDayBoundsUTC_fixed_offset tz now t) as [[Hlen _] _].
  split; [exact Hlen|]. split.
  - rewrite <- Hadj. rewrite !getISTDayBoundsUTC_Some.
    unfold Zone.getISTDayBoundsUTC. cbn [startUTC].
    change (24 * 60 * 60 * 1000) with msPerDay. now rewrite Hstart'.
  - rewrite <- Hmid. f_equal. apply (steady_LocalTime offset tz _ _ Hs).
    rewrite getISTDayBoundsUTC_Some. cbn [startUTC].
    replace (toIST (fromIST (setHours tz t 0 0 0 0)))
      with (setHours tz t 0 0 0 0) by (unfold toIST, fromIST; lia).
    rewrite setHours_midnight. unfold msPerDay in *. lia.
Qed.

Lemma new_york_summer x isUTC :
  spring_forward <= x - 86400000 → x + 86400000 < fall_back →
  new_york x isUTC = -240.
Proof.
  intros H1 H2. unfold new_york, spring_forward, fall_back, msPerMinute in *.
  destruct isUTC.
  - rewrite (proj2 (Z.leb_le _ _)), (proj2 (Z.ltb_lt _ _)) by lia. reflexivity.
  - rewrite (proj2 (Z.leb_le _ _)), (proj2 (Z.ltb_lt _ _)) by lia. reflexivity.
Qed.

Lemma next_day_bounds_adjoin_witness :
  let b := Zone.getISTDayBoundsUTC new_york 0 0 (Some july_noon) in
  let b' := Zone.getISTDayBoundsUTC new_york 0 0
              (Some (july_noon + 24 * 60 * 60 * 1000)) in
  Zone.steady new_york 240 (july_noon - msPerDay) (july_noon + msPerDay)
  ∧ endUTC b - startUTC b = 24 * 60 * 60 * 1000
  ∧ startUTC b' = endUTC b.
Proof.
  assert (Hs : Zone.steady new_york 240 (july_noon - msPerDay)
                 (july_noon + msPerDay)).
  { intros x Hx. unfold july_noon, msPerDay, msPerMinute in *.
    split; apply new_york_summer; unfold spring_forward, fall_back; lia. }
  split; [exact Hs|].
  pose proof (next_day_bounds_adjoin new_york 240 0 0 july_noon Hs)
    as (H1&H2&_).
  split; [exact H1 | exact H2].
Defined.

(** X13. Whenever the offset of the host at the instant that
    [getCurrentIST()] returns is the offset that [getTimezoneOffset()] has
    just read, the weekday that selects today's schedules is the weekday in
    India of the system clock. *)
Theorem today_is_the_weekday_in_India (offset : Z → bool → Z) (now now' : Z)
    (l : list ScheduleEntry) :
  offset (Zone.getCurrentIST offset now now') true = offset now' true →
  Zone.getDay offset (Zone.getCurrentIST offset now now') = WeekDay (toIST now)
  ∧ filter (λ s, runs_on (Zone.getDay offset
                            (Zone.getCurrentIST offset now now')) s) l
    = filter (λ s, runs_on (WeekDay (toIST now)) s) l.
Proof.
  intros H.
  assert (E : Zone.getDay offset (Zone.getCurrentIST offset now now')
              = WeekDay (toIST now)).
  { unfold Zone.getDay, Zone.LocalTime, Zone.LocalTZA. rewrite H.
    rewrite zone_getCurrentIST_value. f_equal. unfold msPerMinute. lia. }
  split; [exact E|]. now rewrite E.
Qed.

Lemma today_is_the_weekday_in_India_witness :
  new_york (Zone.getCurrentIST new_york july_noon july_noon) true
  = new_york july_noon true
  ∧ Zone.getDay new_york (Zone.getCurrentIST new_york july_noon july_noon) = 3
  ∧ Zone.getDay new_york (Zone.getCurrentIST new_york july_noon july_noon)
    = WeekDay (toIST july_noon).
Proof.
  split; [reflexivity|]. split; [reflexivity|].
  exact (proj1 (today_is_the_weekday_in_India new_york july_noon july_noon []
                  eq_refl)).
Defined.

(** X14. The one-shot timer armed by [scheduleDailyGeneration] (the three
    clock readings being [now]).  Whenever the host has, at the instant
    that [getCurrentIST()] returns and for the local time 24:00 of that
    day, the offset [o] that [getTimezoneOffset()] has just read, the timer
    waits for the next midnight in India less that offset: plus the offset,
    the delay is positive, at most 24 hours, and ends on a midnight in
    India. *)
Theorem midnight_timer_delay (offset : Z → bool → Z) (now : Z) (w : World) :
  let o := offset now true in
  let istNow := Zone.getCurrentIST offset now now in
  offset istNow true = o →
  offset (MakeDate (Day (toIST now)) (MakeTime 24 0 0 0)) false = o →
  let ms := fromIST (Zone.setHours offset istNow 24 0 0 0) - now in
  timers (Zone.scheduleDailyGeneration offset now now now w)
  = timers w ++ [ {| timer_id := next_timer w;
                     timer_task := MidnightGeneration;
                     timer_ms := ms; timer_repeats := false |} ]
  ∧ ms = msPerDay - TimeWithinDay (toIST now) - o * 60000
  ∧ 0 < ms + o * 60000 <= msPerDay
  ∧ TimeWithinDay (toIST (now + (ms + o * 60000))) = 0.
Proof.
  cbv zeta. intros H1 H2. split; [reflexivity|].
  assert (HL : Zone.LocalTime offset (Zone.getCurrentIST offset now now)
               = toIST now).
  { unfold Zone.LocalTime, Zone.LocalTZA. rewrite H1.
    rewrite zone_getCurrentIST_value. unfold msPerMinute. lia. }
  assert (E : fromIST (Zone.setHours offset
                         (Zone.getCurrentIST offset now now) 24 0 0 0) - now
              = msPerDay - TimeWithinDay (toIST now) - offset now true * 60000).
  { unfold Zone.setHours. rewrite HL. unfold Zone.UTC, Zone.LocalTZA.
    rewrite H2.
    unfold MakeDate, MakeTime, fromIST, TimeWithinDay, Day.
    pose proof (Z.div_mod (toIST now) msPerDay ltac:(discriminate)) as Hdm.
    unfold toIST, msPerHour, msPerMinute, msPerSecond, msPerDay in *. lia. }
  rewrite E. split; [reflexivity|].
  pose proof (TimeWithinDay_range (toIST now)) as Hr.
  split; [lia|].
  replace (toIST (now + (msPerDay - TimeWithinDay (toIST now)
                         - offset now true * 60000 + offset now true * 60000)))
    with (toIST now - TimeWithinDay (toIST now) + 1 * msPerDay)
    by (unfold toIST; lia).
  unfold TimeWithinDay. rewrite Z.mod_add by discriminate.
  pose proof (Z.div_mod (toIST now) msPerDay ltac:(discriminate)) as Hdm.
  replace (toIST now - toIST now `mod` msPerDay)
    with (toIST now `div` msPerDay * msPerDay) by lia.
  apply Z.mod_mul. discriminate.
Qed.

Lemma midnight_timer_delay_witness :
  let ms := fromIST (Zone.setHours new_york
                       (Zone.getCurrentIST new_york july_noon july_noon)
                       24 0 0 0) - july_noon in
  ms = 37800000
  ∧ TimeWithinDay (toIST (july_noon + (ms + -240 * 60000))) = 0.
Proof.
  split; [reflexivity|].
  exact (proj2 (proj2 (proj2
    (midnight_timer_delay new_york july_noon fresh eq_refl eq_refl)))).
Defined.

(** ** The slot time, continued *)

Import Entries.


Lemma digits_value_nonneg s acc n :
  0 <= acc → digits_value acc s = Some n → 0 <= n.
Proof.
  revert acc. induction s as [|c s IH]; intros acc Hacc; cbn.
  - intros [= <-]. exact Hacc.
  - unfold digit_of. destruct (_ && _) eqn:E; [|discriminate].
    apply andb_true_iff in E as [E1 E2].
    apply Z.leb_le in E1. apply IH. lia.
Qed.

Lemma parse_time_nonneg s h m : parse_time s = Some (h, m) → 0 <= h ∧ 0 <= m.
Proof.
  unfold parse_time.
  destruct (split ":" s) as [|x [|y r]]; cbn; try discriminate.
  - now destruct (Number x).
  - destruct (Number x) as [a|] eqn:Ea; [|discriminate].
    destruct (Number y) as [b|] eqn:Eb; [|discriminate].
    intros [= <- <-]. unfold Number in *.
    split; eapply digits_value_nonneg; eauto; lia.
Qed.


Lemma digit_of_range c d : digit_of c = Some d → 0 <= d <= 9.
Proof.
  unfold digit_of. destruct (_ && _) eqn:E; [|discriminate].
  apply andb_true_iff in E as [E1 E2].
  apply Z.leb_le in E1. apply Z.leb_le in E2. intros [= <-]. lia.
Qed.

Lemma clock_part_Number p :
  clock_part p = true → ∃ n, Number p = Some n ∧ 0 <= n < 100.
Proof.
  unfold clock_part, is_digit, Number.
  destruct p as [|a [|b [|? ?]]]; try discriminate.
  - intros [x Hx]%bool_decide_eq_true. cbn. rewrite Hx.
    apply digit_of_range in Hx. exists (10 * 0 + x). split; [reflexivity|lia].
  - intros [[x Hx]%bool_decide_eq_true [y Hy]%bool_decide_eq_true]%andb_true_iff.
    cbn. rewrite Hx, Hy.
    apply digit_of_range in Hx. apply digit_of_range in Hy.
    exists (10 * (10 * 0 + x) + y). split; [reflexivity|lia].
Qed.

(** An entry "H:M" is read as the two numbers it shows. *)
Lemma clock_entry_parse s :
  clock_entry s = true →
  ∃ h m, parse_time s = Some (h, m) ∧ 0 <= h < 100 ∧ 0 <= m < 100.
Proof.
  unfold clock_entry, parse_time.
  destruct (split ":" s) as [|hh [|mm [|? ?]]]; try discriminate.
  intros [Hh Hm]%andb_true_iff.
  destruct (clock_part_Number hh Hh) as [h [Eh Rh]].
  destruct (clock_part_Number mm Hm) as [m [Em Rm]].
  exists h, m. cbn. rewrite Eh, Em. auto.
Qed.

(** An entry without a colon has no minutes. *)
Lemma no_colon_parse s : no_colon s = true → parse_time s = None.
Proof.
  unfold no_colon, parse_time.
  destruct (split ":" s) as [|x [|? ?]]; try discriminate.
  intros _. cbn. now destruct (Number x).
Qed.



Lemma includes_raw_DNum days n : DNum n ∈ days → includes_raw days n = true.
Proof.
  intros Hin. unfold includes_raw. apply existsb_exists.
  exists (DNum n). split; [now apply list_elem_of_In | apply Z.eqb_refl].
Qed.

Lemma getDay_plus_days tz t j :
  getDay tz (t + j * msPerDay) = (getDay tz t + j) mod 7.
Proof.
  unfold getDay, WeekDay, Day, LocalTime.
  replace (t + j * msPerDay + LocalTZA tz)
    with (t + LocalTZA tz + j * msPerDay) by lia.
  rewrite Z.div_add by discriminate.
  rewrite Zplus_mod_idemp_l. f_equal. lia.
Qed.

Lemma getDay_setHours tz d h m :
  0 <= MakeTime h m 0 0 < msPerDay →
  getDay tz (setHours tz d h m 0 0) = getDay tz d.
Proof.
  intros Hr. unfold getDay, WeekDay. f_equal. f_equal.
  unfold setHours. rewrite LocalTime_UTC. unfold MakeDate.
  apply Day_unique. lia.
Qed.

(** X16. With a numeric entry between 0 and 6 among the listed days, a
    slot whose time of day has passed moves by whole days to the nearest
    following date whose weekday is listed: between 1 and 7 days, the
    weekday of the result is listed, and no date in between has a listed
    weekday. *)
Theorem passed_slot_rolls_to_next_listed_weekday (tz istNow : Z)
    (days : list DayEntry) (h m n : Z) :
  0 <= MakeTime h m 0 0 < msPerDay →
  setHours tz istNow h m 0 0 <= istNow →
  DNum n ∈ days →
  0 <= n < 7 →
  let t := setHours tz istNow h m 0 0 in
  let r := scheduledTimeIST tz istNow (Some days) h m in
  let j := daysToAdd (getDay tz istNow) days in
  1 <= j <= 7
  ∧ r = t + j * msPerDay
  ∧ includes_raw days (getDay tz r) = true
  ∧ ∀ k, 1 <= k < j → includes_raw days (getDay tz (t + k * msPerDay)) = false.
Proof.
  intros Htime Hpast Hin Hn t r j.
  assert (Hcur : 0 <= getDay tz istNow < 7)
    by (unfold getDay, WeekDay; apply Z.mod_pos_bound; lia).
  assert (Hex : ∃ j0, 1 <= j0 <= 7
                      ∧ includes_raw days ((getDay tz istNow + j0) mod 7) = true).
  { set (d := (n - getDay tz istNow) mod 7).
    assert (0 <= d < 7) by (apply Z.mod_pos_bound; lia).
    exists (if d =? 0 then 7 else d).
    destruct (Z.eqb_spec d 0) as [E|E].
    - split; [lia|].
      replace ((getDay tz istNow + 7) mod 7) with n;
        [now apply includes_raw_DNum|].
      subst d. Z.div_mod_to_equations. lia.
    - split; [lia|].
      replace ((getDay tz istNow + d) mod 7) with n;
        [now apply includes_raw_DNum|].
      subst d. Z.div_mod_to_equations. lia. }
  destruct (daysToAdd_numeric (getDay tz istNow) days Hcur Hex)
    as (Hj&Hlisted&Hleast).
  fold j in Hj, Hlisted, Hleast.
  assert (Hr : r = t + j * msPerDay).
  { subst r t j. now rewrite scheduledTimeIST_passed. }
  assert (Hday : getDay tz t = getDay tz istNow)
    by (subst t; now apply getDay_setHours).
  split; [exact Hj|]. split; [exact Hr|]. split.
  - now rewrite Hr, getDay_plus_days, Hday.
  - intros k Hk. rewrite getDay_plus_days, Hday. now apply Hleast.
Qed.

Lemma passed_slot_rolls_to_next_listed_weekday_witness :
  let istNow := toIST wednesday_10h in
  setHours 0 istNow 9 0 0 0 <= istNow
  ∧ getDay 0 istNow = 3
  ∧ getDay 0 (scheduledTimeIST 0 istNow (Some [DNum 1; DNum 5]) 9 0) = 5
  ∧ includes_raw [DNum 1; DNum 5]
      (getDay 0 (scheduledTimeIST 0 istNow (Some [DNum 1; DNum 5]) 9 0))
    = true.
Proof.
  split; [vm_compute; discriminate|]. split; [reflexivity|].
  split; [reflexivity|].
  refine (proj1 (proj2 (proj2
    (passed_slot_rolls_to_next_listed_weekday 0 (toIST wednesday_10h)
       [DNum 1; DNum 5] 9 0 5 _ _ _ _)))).
  - vm_compute. split; [discriminate|reflexivity].
  - vm_compute. discriminate.
  - apply elem_of_cons. right. apply elem_of_cons. now left.
  - lia.
Defined.

Lemma LocalTime_shift tz y : LocalTime tz (y + tz * 60000) = LocalTime 0 y.
Proof. unfold LocalTime, LocalTZA, msPerMinute. lia. Qed.

(** X17. The instant stored for a slot depends on the host zone: on a host
    whose [getTimezoneOffset()] is [tz] minutes it is the instant a host
    in UTC would store, plus [tz] minutes. *)
Theorem stored_instant_shifts_with_host_offset (tz now : Z)
    (days : option (list DayEntry)) (h m : Z) :
  fromIST (scheduledTimeIST tz (getCurrentIST tz now) days h m)
  = fromIST (scheduledTimeIST 0 (getCurrentIST 0 now) days h m) + tz * 60000.
Proof.
  assert (Hnow : getCurrentIST tz now = getCurrentIST 0 now + tz * 60000)
    by (rewrite !getCurrentIST_value; lia).
  rewrite Hnow. set (x := getCurrentIST 0 now).
  assert (Hset : setHours tz (x + tz * 60000) h m 0 0
                 = setHours 0 x h m 0 0 + tz * 60000).
  { unfold setHours. rewrite LocalTime_shift.
    unfold UTC, LocalTZA, msPerMinute. lia. }
  assert (Hday : getDay tz (x + tz * 60000) = getDay 0 x)
    by (unfold getDay; now rewrite LocalTime_shift).
  unfold scheduledTimeIST. rewrite Hset, Hday.
  destruct (Z.leb_spec (setHours 0 x h m 0 0) x);
    destruct (Z.leb_spec (setHours 0 x h m 0 0 + tz * 60000)
                (x + tz * 60000)); try lia.
  - rewrite !setDate_getDate. unfold fromIST. lia.
  - unfold fromIST. lia.
Qed.

(** ** Daily generation, continued *)

Lemma generate_appends_scheduled tz env w :
  appends (λ p, p_status p = scheduled) w (generateContentForToday tz env w).
Proof.
  unfold generateContentForToday. repeat case_match; try apply appends_refl.
  apply foldl_appends. intros w' sch _.
  eapply appends_weaken; [|apply generate_for_appends].
  now intros p [_ ?].
Qed.

(** X18. The guard against repeated generation does not see the posts that
    generation creates: they are [scheduled], the guard counts [posted] and
    [published] rows only.  So a run of [generateContentForToday] (or
    [forceGenerateContent]) never changes the answer of
    [hasContentForToday], and a second run is not held back by the first. *)
Theorem generation_does_not_satisfy_its_guard (tz : Z) (env env' : GenEnv)
    (w : World) (s : ScheduleEntry) :
  hasContentForToday tz env' (generateContentForToday tz env w) s
  = hasContentForToday tz env' w s
  ∧ hasContentForToday tz env' (forceGenerateContent tz env w) s
    = hasContentForToday tz env' w s.
Proof.
  split; apply hasContentForToday_appends, generate_appends_scheduled.
Qed.

Lemma schedule_slot_count tz env s w i :
  let w' := schedule_slot tz env s (topics_of env s) (preferredTimes s) w i in
  (∃ rows, content_posts w' = content_posts w ++ rows
           ∧ length rows = (if slot_inserts env s i then 1 else 0)%nat)
  ∧ (∃ ns, notifications w' = notifications w ++ ns
           ∧ length ns = (if slot_notifies env s i then 1 else 0)%nat
           ∧ Forall (λ n, n = generation_failed s) ns).
Proof.
  cbv zeta. unfold schedule_slot, slot_inserts, slot_notifies,
    slot_generates, slot_parses.
  destruct (s_generate _ _ _) as [c|]; cbn.
  2:{ split; [exists []; now rewrite app_nil_r|].
      eexists [_]. repeat split. repeat constructor. }
  destruct (preferredTimes s !! i ≫= parse_time) as [[h m]|]; cbn.
  2:{ split; [exists []; now rewrite app_nil_r|].
      eexists [_]. repeat split. repeat constructor. }
  destruct (s_insert_ok (g_slot env s i)); cbn.
  - split; [eexists [_]; split; reflexivity|].
    exists []. now rewrite app_nil_r.
  - split; exists []; now rewrite app_nil_r.
Qed.

Lemma schedule_slots_count tz env s (slots : list nat) w :
  let w' := foldl (schedule_slot tz env s (topics_of env s) (preferredTimes s))
              w slots in
  (∃ rows, content_posts w' = content_posts w ++ rows
           ∧ length rows = length (filter (λ i, slot_inserts env s i) slots))
  ∧ (∃ ns, notifications w' = notifications w ++ ns
           ∧ length ns = length (filter (λ i, slot_notifies env s i) slots)
           ∧ Forall (λ n, n = generation_failed s) ns).
Proof.
  cbv zeta. revert w. induction slots as [|i slots IH]; intros w.
  { cbn. split; exists []; now rewrite app_nil_r. }
  cbn [foldl].
  destruct (schedule_slot_count tz env s w i)
    as [[r1 [E1 L1]] [n1 [F1 [M1 A1]]]].
  destruct (IH (schedule_slot tz env s (topics_of env s) (preferredTimes s) w i))
    as [[r2 [E2 L2]] [n2 [F2 [M2 A2]]]].
  split.
  - exists (r1 ++ r2). rewrite E2, E1, <- app_assoc. split; [reflexivity|].
    rewrite length_app, L1, L2, filter_cons.
    destruct (slot_inserts env s i); cbn; reflexivity.
  - exists (n1 ++ n2). rewrite F2, F1, <- app_assoc. split; [reflexivity|].
    split; [|now apply Forall_app].
    rewrite length_app, M1, M2, filter_cons.
    destruct (slot_notifies env s i); cbn; reflexivity.
Qed.

Lemma plain_entry_parses t :
  clock_entry t || no_colon t = true →
  bool_decide (is_Some (parse_time t)) = clock_entry t.
Proof.
  intros H. destruct (clock_entry t) eqn:Hc.
  - destruct (clock_entry_parse t Hc) as (h&m&Hp&_). rewrite Hp.
    apply bool_decide_eq_true. eauto.
  - cbn in H. rewrite (no_colon_parse t H).
    apply bool_decide_eq_false. now intros [? ?].
Qed.

(** X19. The slots of a schedule are filled independently of each other.
    When every entry of [preferred_times] either reads "H:M" (one or two
    decimal digits, a colon, one or two decimal digits) or has no colon at
    all, the time of a slot can be computed exactly for the entries of the
    first kind, and [scheduleContentForPlatform] appends exactly one row
    per slot whose generation, time and insert all succeed, and shows
    exactly one "Content Generation Failed" notification per slot whose
    generation or time failed; a slot whose insert alone fails is dropped
    silently. *)
Theorem slots_are_independent (tz : Z) (env : GenEnv) (w : World)
    (s : ScheduleEntry) :
  plain_times s →
  let w' := scheduleContentForPlatform tz env w s in
  let slots := seq 0 (slot_count s) in
  (∀ i t, preferredTimes s !! i = Some t → slot_parses s i = clock_entry t)
  ∧ content_posts w' = content_posts w ++ new_posts w w'
  ∧ length (new_posts w w')
    = length (filter (λ i, slot_inserts env s i) slots)
  ∧ Forall (slot_row s) (new_posts w w')
  ∧ length (notifications w')
    = (length (notifications w)
       + length (filter (λ i, slot_notifies env s i) slots))%nat.
Proof.
  intros Hplain. cbv zeta. split.
  { intros i t Hi. unfold slot_parses. rewrite Hi. cbn.
    apply plain_entry_parses.
    unfold plain_times in Hplain. rewrite Forall_forall in Hplain.
    apply Hplain. eapply list_elem_of_lookup_2. exact Hi. }
  destruct (schedule_slots_count tz env s (seq 0 (slot_count s)) w)
    as [[rows [E L]] [ns [F [M _]]]].
  change (foldl _ w (seq 0 (slot_count s)))
    with (scheduleContentForPlatform tz env w s) in E, F.
  rewrite (new_posts_appends _ _ _ E).
  split; [exact E|]. split; [exact L|]. split.
  - destruct (scheduleContentForPlatform_appends tz env w s) as [r' [E' Fr]].
    rewrite E in E'. apply app_inv_head in E'. now subst r'.
  - now rewrite F, length_app, M.
Qed.

Lemma slots_are_independent_witness :
  let s := weekly [DNum 3] (Some 2) ["18:00"; "noon"] in
  let w' := scheduleContentForPlatform 0 (generating wednesday_10h [s])
              one_job s in
  plain_times s
  ∧ length (new_posts one_job w') = 1%nat
  ∧ length (notifications w') = 1%nat
  ∧ length (new_posts one_job w')
    = length (filter (λ i, slot_inserts (generating wednesday_10h [s]) s i)
                (seq 0 (slot_count s))).
Proof.
  assert (Hp : plain_times (weekly [DNum 3] (Some 2) ["18:00"; "noon"]))
    by (repeat constructor).
  split; [exact Hp|]. split; [reflexivity|]. split; [reflexivity|].
  exact (proj1 (proj2 (proj2
    (slots_are_independent 0
       (generating wednesday_10h [weekly [DNum 3] (Some 2) ["18:00"; "noon"]])
       one_job (weekly [DNum 3] (Some 2) ["18:00"; "noon"]) Hp)))).
Defined.

Lemma omap_ext_Forall {A B} (f g : A → option B) (l : list A) :
  Forall (λ x, f x = g x) l → omap f l = omap g l.
Proof.
  induction 1 as [|x l Hx _ IH]; [reflexivity|].
  cbn. now rewrite Hx, IH.
Qed.

Lemma grows_same w w' :
  jobs w' = jobs w → heap w' = heap w → content_posts w' = content_posts w →
  grows w w'.
Proof.
  intros J H C Ha. split.
  - unfold jobs_allocated. now rewrite J, H.
  - exists [], []. unfold job_objects. rewrite J, H, C, !app_nil_r.
    repeat split. constructor.
Qed.

Lemma grows_refl w : grows w w.
Proof. now apply grows_same. Qed.

Lemma grows_trans w1 w2 w3 : grows w1 w2 → grows w2 w3 → grows w1 w3.
Proof.
  intros G1 G2 Ha. destruct (G1 Ha) as [Ha2 (r1&j1&C1&O1&M1)].
  destruct (G2 Ha2) as [Ha3 (r2&j2&C2&O2&M2)].
  split; [exact Ha3|]. exists (r1 ++ r2), (j1 ++ j2).
  rewrite C2, C1, O2, O1, <- !app_assoc. repeat split.
  now apply Forall2_app.
Qed.

Lemma insert_scheduled_grows s c t w : grows w (insert_scheduled s c t w).
Proof.
  intros Ha. split.
  - unfold jobs_allocated, insert_scheduled in *. cbn.
    rewrite length_app. cbn. apply Forall_app. split.
    + eapply Forall_impl; [exact Ha|]. cbn. intros l Hl. lia.
    + repeat constructor. lia.
  - eexists [_], [_]. split; [reflexivity|]. split.
    + unfold job_objects, insert_scheduled. cbn. rewrite omap_app. cbn.
      rewrite list_lookup_middle by reflexivity. f_equal.
      apply omap_ext_Forall. eapply Forall_impl; [exact Ha|].
      cbn. intros l Hl. now rewrite lookup_app_l.
    + repeat constructor.
Qed.

Lemma schedule_slot_grows tz env s topics times w i :
  grows w (schedule_slot tz env s topics times w i).
Proof.
  unfold schedule_slot. repeat case_match;
    try apply grows_refl; try apply insert_scheduled_grows;
    now apply grows_same.
Qed.

Lemma generate_for_grows tz env w s : grows w (generate_for tz env w s).
Proof.
  unfold generate_for. case_match; [apply grows_refl|].
  unfold scheduleContentForPlatform.
  apply foldl_rel; auto using grows_refl, schedule_slot_grows.
  apply grows_trans.
Qed.

Lemma generate_grows tz env w : grows w (generateContentForToday tz env w).
Proof.
  unfold generateContentForToday. repeat case_match; try apply grows_refl.
  apply foldl_rel; auto using grows_refl, generate_for_grows.
  apply grows_trans.
Qed.

(** X20. Generation keeps the job list in step with the store: when the
    listed jobs are allocated objects, [generateContentForToday] appends,
    for each row it inserts, exactly one job, in the same order, that
    carries the row's key as [postId], its platform, its scheduled instant,
    its title, content and media, and [attempts = 0]; every new row is
    [scheduled]. *)
Theorem generation_mirrors_rows_in_jobs (tz : Z) (env : GenEnv) (w : World) :
  jobs_allocated w →
  let w' := generateContentForToday tz env w in
  jobs_allocated w'
  ∧ content_posts w' = content_posts w ++ new_posts w w'
  ∧ job_objects w' = job_objects w ++ new_jobs w w'
  ∧ Forall2 mirrors (new_posts w w') (new_jobs w w').
Proof.
  intros Ha w'. destruct (generate_grows tz env w Ha) as [Ha' (r&j&C&O&M)].
  fold w' in Ha', C, O.
  assert (Hr : new_posts w w' = r) by now apply new_posts_appends.
  assert (Hj : new_jobs w w' = j).
  { unfold new_jobs. rewrite O. apply drop_app_length. }
  rewrite Hr, Hj. auto.
Qed.

Lemma generation_mirrors_rows_in_jobs_witness :
  let s := weekly [DNum 3] (Some 2) ["09:00"; "18:00"] in
  let w' := generateContentForToday 0 (generating wednesday_10h [s]) one_job in
  jobs_allocated one_job
  ∧ (λ p, (p_id p, p_scheduled_for p)) <$> new_posts one_job w'
    = [(2%nat, Some 1794367800000); (3%nat, Some 1793795400000)]
  ∧ Forall2 mirrors (new_posts one_job w') (new_jobs one_job w').
Proof.
  split; [repeat constructor|]. split; [reflexivity|].
  refine (proj2 (proj2 (proj2 (generation_mirrors_rows_in_jobs 0
    (generating wednesday_10h [weekly [DNum 3] (Some 2) ["09:00"; "18:00"]])
    one_job _)))).
  repeat constructor.
Defined.

(** ** [getStatus()], continued *)

Lemma sort_insert_sorted h x l :
  StronglySorted (λ a b, time_at h a <= time_at h b) l →
  StronglySorted (λ a b, time_at h a <= time_at h b) (sort_insert h x l).
Proof.
  induction 1 as [|y l Hs IH Hy]; cbn.
  - repeat constructor.
  - destruct (Z.leb_spec (time_at h x - time_at h y) 0) as [Hle|Hgt].
    + constructor; [now constructor|].
      constructor; [lia|].
      eapply Forall_impl; [exact Hy|]. cbn. intros z Hz. lia.
    + constructor; [exact IH|].
      rewrite sort_insert_perm. constructor; [lia | exact Hy].
Qed.

Lemma sort_jobs_sorted h l :
  StronglySorted (λ a b, time_at h a <= time_at h b) (sort_jobs h l).
Proof.
  induction l as [|x l IH]; cbn; [constructor|].
  now apply sort_insert_sorted.
Qed.

Lemma sort_insert_filter h x l t :
  filter (λ a, time_at h a = t) (sort_insert h x l)
  = filter (λ a, time_at h a = t) (x :: l).
Proof.
  induction l as [|y l IH]; cbn [sort_insert]; [reflexivity|].
  destruct (Z.leb_spec (time_at h x - time_at h y) 0) as [Hle|Hgt];
    [reflexivity|].
  rewrite (filter_cons _ y), IH, !(filter_cons _ x), (filter_cons _ y).
  destruct (decide (time_at h y = t)), (decide (time_at h x = t));
    try reflexivity.
  lia.
Qed.

Lemma sort_jobs_filter h l t :
  filter (λ a, time_at h a = t) (sort_jobs h l)
  = filter (λ a, time_at h a = t) l.
Proof.
  induction l as [|x l IH]; cbn [sort_jobs]; [reflexivity|].
  rewrite sort_insert_filter, !(filter_cons _ x), IH. reflexivity.
Qed.

Lemma sort_jobs_of_sorted h l :
  StronglySorted (λ a b, time_at h a <= time_at h b) l → sort_jobs h l = l.
Proof.
  induction 1 as [|x l Hs IH Hx]; cbn; [reflexivity|].
  rewrite IH. destruct l as [|y l]; [reflexivity|]. cbn.
  apply Forall_cons in Hx as [Hxy _].
  destruct (Z.leb_spec (time_at h x - time_at h y) 0); [reflexivity | lia].
Qed.

(** X21. [getStatus()] leaves the job list sorted by scheduled time, jobs
    with equal times in their previous relative order, and changes no job
    object; asking again returns the same snapshot and changes nothing
    more. *)
Theorem getStatus_sorts_the_job_list (w : World) :
  let w' := snd (getStatus w) in
  StronglySorted (λ a b, time_at (heap w) a <= time_at (heap w) b) (jobs w')
  ∧ (∀ t, filter (λ a, time_at (heap w) a = t) (jobs w')
          = filter (λ a, time_at (heap w) a = t) (jobs w))
  ∧ heap w' = heap w
  ∧ getStatus w' = getStatus w.
Proof.
  cbv zeta. unfold getStatus.
  destruct w as [js i1 i2 r d pj lp ls hp cp np tm nt ns]. cbn [jobs heap].
  destruct js as [|a js].
  - cbn. repeat split. constructor.
  - cbn [length Nat.ltb Nat.leb]. cbv beta iota zeta. cbn [snd jobs heap set_jobs].
    pose proof (sort_jobs_sorted hp (a :: js)) as Hs.
    pose proof (sort_jobs_perm hp (a :: js)) as Hp.
    split; [exact Hs|]. split; [intros t; apply sort_jobs_filter|].
    split; [reflexivity|].
    destruct (sort_jobs hp (a :: js)) as [|b l] eqn:E.
    { now apply Permutation_nil_l in Hp. }
    cbn [length Nat.ltb Nat.leb]. cbv beta iota zeta.
    rewrite (sort_jobs_of_sorted hp (b :: l)) by exact Hs.
    reflexivity.
Qed.

(** ** [watchScheduleChanges()] *)

Import Watcher WatcherSamples.

Lemma foldl_generate_frame tz env l w :
  gen_frame w (foldl (generate_for tz env) w l).
Proof.
  apply foldl_rel; auto using gen_frame_refl, gen_frame_generate_for.
  apply gen_frame_trans.
Qed.

Lemma currentScheduleState_not_empty schedules :
  currentScheduleState schedules ≠ "".
Proof. unfold currentScheduleState, json_array. cbn. discriminate. Qed.

(** A watch that finds another fingerprint records it and runs the daily
    generation. *)
Lemma watch_changed tz env w u :
  g_user env = Some u →
  lastScheduleState w ≠ currentScheduleState (g_schedules env) →
  watchScheduleChanges tz env w
  = generateContentForToday tz env
      (set_lastScheduleState (currentScheduleState (g_schedules env)) w).
Proof.
  intros Hu Hne. unfold watchScheduleChanges, generateContentForToday.
  rewrite Hu. rewrite decide_True by exact Hne.
  destruct (g_schedules env) as [l|]; cbn [default from_option Datatypes.id].
  - destruct l as [|s l]; [reflexivity|]. cbn [length Nat.eqb].
    destruct (filter _ (s :: l)) as [|s' l']; reflexivity.
  - reflexivity.
Qed.

(** X22. Watching is idempotent: with the same answers of the store, a
    second [watchScheduleChanges()] finds the fingerprint it has just
    recorded and changes nothing. *)
Theorem watch_is_idempotent (tz : Z) (env : GenEnv) (w : World) :
  watchScheduleChanges tz env (watchScheduleChanges tz env w)
  = watchScheduleChanges tz env w.
Proof.
  assert (Hlast : g_user env ≠ None →
            lastScheduleState (watchScheduleChanges tz env w)
            = currentScheduleState (g_schedules env)).
  { intros Hu. unfold watchScheduleChanges.
    destruct (g_user env) as [u|]; [|done].
    destruct (decide (lastScheduleState w
                      ≠ currentScheduleState (g_schedules env))) as [Hne|He].
    - destruct (0 <? length _)%nat; [|reflexivity].
      now destruct (foldl_generate_frame tz env
        (filter (λ s, runs_on (getDay tz (getCurrentIST tz (g_now env))) s)
           (default [] (g_schedules env)))
        (set_lastScheduleState (currentScheduleState (g_schedules env)) w))
        as ((_&_&_&_&->&_)&_).
    - now destruct (decide (lastScheduleState w
                            = currentScheduleState (g_schedules env))). }
  unfold watchScheduleChanges at 1.
  destruct (g_user env) as [u|] eqn:Hu; [|reflexivity].
  rewrite Hlast by discriminate.
  now rewrite decide_False by auto.
Qed.

(** X23. [start()] leaves the fingerprint as it was, and [stop()] and the
    constructor leave it empty, which no fingerprint is.  So the first
    [watchScheduleChanges()] after a [start()] records the fingerprint and
    runs the whole daily generation once more, 30 seconds after [start()]
    ran it. *)
Theorem first_watch_after_start_generates_again (tz : Z) (senv : StartEnv)
    (env : GenEnv) (w : World) (u : string) :
  isRunning w = false →
  lastScheduleState w = "" →
  g_user env = Some u →
  watchScheduleChanges tz env (start tz senv w)
  = generateContentForToday tz env
      (set_lastScheduleState (currentScheduleState (g_schedules env))
         (start tz senv w)).
Proof.
  intros Hr He Hu. apply (watch_changed tz env _ u Hu).
  destruct (start_fields tz senv w Hr) as (_&_&_&_&_&_&_&_&->).
  rewrite He. intros E. symmetry in E.
  now apply currentScheduleState_not_empty in E.
Qed.

Lemma first_watch_after_start_generates_again_witness :
  let senv := starting_with wednesday_10h [wednesday_evening] in
  let w1 := start 0 senv fresh in
  let w2 := watchScheduleChanges 0 (e_gen senv) w1 in
  isRunning fresh = false
  ∧ lastScheduleState fresh = ""
  ∧ p_scheduled_for <$> content_posts w1 = [Some 1793795400000]
  ∧ w2 = generateContentForToday 0 (e_gen senv)
           (set_lastScheduleState
              (currentScheduleState (g_schedules (e_gen senv))) w1)
  ∧ p_scheduled_for <$> content_posts w2
    = [Some 1793795400000; Some 1793795400000].
Proof.
  split; [reflexivity|]. split; [reflexivity|]. split; [reflexivity|].
  split; [|reflexivity].
  apply (first_watch_after_start_generates_again 0
           (starting_with wednesday_10h [wednesday_evening])
           (e_gen (starting_with wednesday_10h [wednesday_evening]))
           fresh "u1" eq_refl eq_refl eq_refl).
Defined.

(** * The content generator *)

Import ContentGenerator GeneratorSamples.

Lemma push_if_active_priority (active : list string) :
  foldl (push_if_active active) [] priority
  = filter (λ m, m ∈ active) priority.
Proof.
  unfold priority. cbn [foldl]. unfold push_if_active.
  rewrite !filter_cons, filter_nil.
  repeat case_bool_decide; repeat case_decide; try contradiction; reflexivity.
Qed.

Lemma foldl_push_if_new (acc l : list string) :
  ∃ rest, foldl push_if_new acc l = acc ++ rest
          ∧ (NoDup acc → NoDup (acc ++ rest))
          ∧ (∀ m, m ∈ acc ++ rest ↔ m ∈ acc ∨ m ∈ l)
          ∧ Forall (λ m, m ∉ acc) rest
          ∧ head (acc ++ rest) = head (acc ++ l).
Proof.
  revert acc. induction l as [|x l IH]; intros acc.
  { exists []. rewrite app_nil_r.
    split; [reflexivity|]. split; [auto|]. split; [|split; [constructor|done]].
    intros m. rewrite elem_of_nil. tauto. }
  cbn [foldl]. unfold push_if_new at 2. case_bool_decide as Hx.
  - destruct (IH acc) as (rest&E&Hnd&Hel&Hfa&Hhd).
    exists rest. split; [exact E|]. split; [exact Hnd|]. split; [|split].
    + intros m. rewrite Hel, elem_of_cons. split; [tauto|].
      intros [?|[->|?]]; auto.
    + exact Hfa.
    + rewrite Hhd. destruct acc; [now apply elem_of_nil in Hx | reflexivity].
  - destruct (IH (acc ++ [x])) as (rest&E&Hnd&Hel&Hfa&Hhd).
    exists (x :: rest).
    assert (Heq : acc ++ x :: rest = (acc ++ [x]) ++ rest)
      by now rewrite <- app_assoc.
    rewrite Heq. split; [exact E|].
    split; [|split; [|split]].
    + intros Hacc. apply Hnd.
      apply NoDup_app. split; [exact Hacc|]. split.
      * intros y Hy [->|Hn]%elem_of_cons; [contradiction|].
        now apply elem_of_nil in Hn.
      * apply NoDup_singleton.
    + intros m. rewrite Hel.
      rewrite elem_of_app, !elem_of_cons, elem_of_nil. tauto.
    + constructor; [exact Hx|].
      eapply Forall_impl; [exact Hfa|]. cbn. intros m Hm Hin.
      apply Hm. apply elem_of_app. now left.
    + rewrite Hhd. now rewrite <- app_assoc.
Qed.

Lemma NoDup_filter_priority (active : list string) :
  NoDup (filter (λ m, m ∈ active) priority).
Proof.
  apply NoDup_filter. unfold priority.
  repeat (apply NoDup_cons; split;
          [rewrite ?elem_of_cons, ?elem_of_nil; intuition discriminate|]).
  apply NoDup_nil_2.
Qed.

Lemma getOrderedModels_orders_models_aux (active : list string) :
  ∀ m, m ∈ active → m ∈ getOrderedModels active.
Proof.
  intros m Hm. unfold getOrderedModels. rewrite push_if_active_priority.
  destruct (foldl_push_if_new (filter (λ m, m ∈ active) priority) active)
    as (rest&E&_&Hel&_).
  rewrite E. apply Hel. now right.
Qed.

(** X24. [getOrderedModels] returns every active model exactly once and
    nothing else: first the active models of the priority list, in
    priority order, then the other active models. *)
Theorem getOrderedModels_orders_active_models (active : list string) :
  NoDup (getOrderedModels active)
  ∧ (∀ m, m ∈ getOrderedModels active ↔ m ∈ active)
  ∧ ∃ rest, getOrderedModels active
            = filter (λ m, m ∈ active) priority ++ rest
            ∧ Forall (λ m, m ∉ priority) rest.
Proof.
  unfold getOrderedModels. rewrite push_if_active_priority.
  destruct (foldl_push_if_new (filter (λ m, m ∈ active) priority) active)
    as (rest&E&Hnd&Hel&Hfa&_).
  rewrite E. split; [apply Hnd, NoDup_filter_priority|]. split.
  - intros m. rewrite Hel, list_elem_of_filter. tauto.
  - exists rest. split; [reflexivity|].
    assert (Hrest : ∀ m, m ∈ rest → m ∈ active).
    { intros m Hm.
      destruct (proj1 (Hel m)) as [Hin|Hin]; [| |exact Hin].
      - apply elem_of_app. now right.
      - now apply list_elem_of_filter in Hin as [? _]. }
    apply Forall_forall. intros m Hm Hp.
    eapply Forall_forall in Hfa; [|exact Hm]. apply Hfa.
    apply list_elem_of_filter. split; [now apply Hrest | exact Hp].
Qed.

Lemma find_head_filter (P : string → bool) (l : list string) :
  List.find P l = head (filter (λ m, P m) l).
Proof.
  induction l as [|x l IH]; [reflexivity|]. cbn [List.find].
  rewrite filter_cons. destruct (P x); [reflexivity | exact IH].
Qed.

(** X25. [selectBestModel] picks the model [getOrderedModels] puts first,
    as long as no active model is the empty string. *)
Theorem selectBestModel_is_first_ordered (active : list string) :
  active ≠ [] →
  "" ∉ active →
  head (getOrderedModels active) = Some (selectBestModel active).
Proof.
  intros Hne Hempty. unfold getOrderedModels, selectBestModel.
  rewrite push_if_active_priority.
  destruct (foldl_push_if_new (filter (λ m, m ∈ active) priority) active)
    as (rest&E&_&_&_&Hhd).
  rewrite E, Hhd, find_head_filter.
  assert (Hf : filter (λ m, bool_decide (m ∈ active)) priority
               = filter (λ m, m ∈ active) priority).
  { apply list_filter_iff. intros m. now rewrite bool_decide_spec. }
  rewrite Hf.
  destruct (filter (λ m, m ∈ active) priority) as [|p ps]; [|reflexivity].
  cbn. destruct active as [|a l]; [contradiction|]. cbn.
  rewrite bool_decide_false; [reflexivity|].
  intros ->. apply Hempty. apply elem_of_cons. now left.
Qed.

Lemma selectBestModel_is_first_ordered_witness :
  head (getOrderedModels ["my-model"; "llama3-8b"; "gemini-2.0"])
  = Some (selectBestModel ["my-model"; "llama3-8b"; "gemini-2.0"])
  ∧ getOrderedModels ["my-model"; "llama3-8b"; "gemini-2.0"]
    = ["gemini-2.0"; "llama3-8b"; "my-model"].
Proof.
  split; [|reflexivity].
  apply selectBestModel_is_first_ordered; [discriminate|].
  rewrite !elem_of_cons, elem_of_nil. intuition discriminate.
Defined.

Lemma try_models_app invoke pre rest lastError :
  Forall (λ m, ∀ q, try_model (invoke m) ≠ inl q) pre →
  ∃ lastError', try_models invoke (pre ++ rest) lastError
                = try_models invoke rest lastError'
           ∧ (pre = [] → lastError' = lastError)
           ∧ (∀ m e, last pre = Some m → try_model (invoke m) = inr e →
                     lastError' = Some e).
Proof.
  revert lastError. induction pre as [|x pre IH]; intros lastError Hpre.
  { exists lastError. repeat split; auto. intros m e Hm. discriminate. }
  apply Forall_cons in Hpre as [Hx Hpre]. cbn [app try_models].
  destruct (try_model (invoke x)) as [q|e] eqn:Ex; [now destruct (Hx q)|].
  destruct (IH (Some e) Hpre) as (l'&E&Hnil&Hlast).
  exists l'. split; [exact E|]. split; [discriminate|].
  intros m e' Hm He'. destruct pre as [|y pre'].
  - cbn in Hm. injection Hm as <-. rewrite Hnil by reflexivity. congruence.
  - apply (Hlast m e'); [|exact He']. exact Hm.
Qed.

Lemma try_model_good r p :
  try_model r = inl p →
  r_title p ≠ "" ∧ r_body p ≠ ""
  ∧ ¬ (r_title p = "Generated Content"
       ∧ ∃ tags, r_tags p = Some tags ∧ "generated" ∈ tags).
Proof.
  unfold try_model. destruct r as [e|[q|]]; try discriminate.
  destruct (negb (bool_decide (r_title q = "")) && negb (bool_decide (r_body q = "")))
    eqn:Hnz; [|discriminate].
  apply andb_true_iff in Hnz as [Ht Hb].
  apply negb_true_iff, bool_decide_eq_false in Ht.
  apply negb_true_iff, bool_decide_eq_false in Hb.
  destruct (bool_decide (r_title q = "Generated Content") && _) eqn:Hfb;
    [discriminate|].
  intros [= <-]. split; [exact Ht|]. split; [exact Hb|].
  intros [Htitle (tags&Htags&Hin)].
  rewrite Htags in Hfb. apply andb_false_iff in Hfb as [H|H];
    apply bool_decide_eq_false in H; contradiction.
Qed.

(** X26. [callAIAPI] returns the answer of the first model, in the order
    of [getOrderedModels], whose answer is accepted, whatever the later
    models would answer; an accepted answer has a title and a body, and is
    never the generic fallback (title "Generated Content" with the tag
    "generated"). *)
Theorem callAIAPI_returns_first_accepted_answer (user : option string)
    (invoke : string → Invoke) (active_models : option (list string))
    (pre post : list string) (m : string) (p : Parsed) :
  is_Some user →
  getOrderedModels (activeModels active_models) = pre ++ m :: post →
  Forall (λ m', ∀ q, try_model (invoke m') ≠ inl q) pre →
  try_model (invoke m) = inl p →
  callAIAPI user invoke active_models = inl p
  ∧ r_title p ≠ "" ∧ r_body p ≠ ""
  ∧ ¬ (r_title p = "Generated Content"
       ∧ ∃ tags, r_tags p = Some tags ∧ "generated" ∈ tags).
Proof.
  intros [u ->] Ho Hpre Hm. split; [|eapply try_model_good; eauto].
  unfold callAIAPI. rewrite Ho.
  destruct (try_models_app invoke pre (m :: post) None Hpre) as (l'&->&_).
  cbn [try_models]. now rewrite Hm.
Qed.

Lemma callAIAPI_returns_first_accepted_answer_witness :
  getOrderedModels (activeModels None)
  = ["rapidapi-gpt4"] ++ "gemini-2.0" :: ["llama3-8b"]
  ∧ try_model (gemini_answers "gemini-2.0") = inl good_answer
  ∧ callAIAPI (Some "u1") gemini_answers None = inl good_answer.
Proof.
  split; [reflexivity|]. split; [reflexivity|].
  refine (proj1 (callAIAPI_returns_first_accepted_answer (Some "u1")
                   gemini_answers None ["rapidapi-gpt4"] ["llama3-8b"]
                   "gemini-2.0" good_answer _ eq_refl _ eq_refl)).
  - eexists. reflexivity.
  - repeat constructor. intros q. discriminate.
Defined.

Lemma getOrderedModels_nonempty active_models :
  getOrderedModels (activeModels active_models) ≠ [].
Proof.
  intros E.
  pose proof (getOrderedModels_orders_models_aux (activeModels active_models))
    as Hel.
  assert (Hin : ∃ m, m ∈ activeModels active_models).
  { unfold activeModels. destruct active_models as [[|m ms]|];
      eexists; apply elem_of_cons; left; reflexivity. }
  destruct Hin as [m Hm]. apply Hel in Hm. rewrite E in Hm.
  now apply elem_of_nil in Hm.
Qed.

(** X27. When no model gives an accepted answer, [callAIAPI] throws an
    error that quotes the error of the last model tried, and
    [generateContent] wraps that message with the platform. *)
Theorem generation_failure_quotes_last_error (user : option string)
    (invoke : string → Invoke) (active_models : option (list string))
    (platform : string) :
  is_Some user →
  Forall (λ m, ∀ q, try_model (invoke m) ≠ inl q)
         (getOrderedModels (activeModels active_models)) →
  ∃ m e,
    last (getOrderedModels (activeModels active_models)) = Some m
    ∧ try_model (invoke m) = inr e
    ∧ callAIAPI user invoke active_models
      = inr (Error ("AI generation failed with all active models. Last error: "
                    +:+ show_last (Some e)))
    ∧ generateContent user (inr active_models) invoke platform
      = inr (Error ("Failed to generate content for " +:+ platform +:+ ": "
                    +:+ "AI generation failed with all active models. Last error: "
                    +:+ show_last (Some e))).
Proof.
  intros [u ->] Hall.
  pose proof (getOrderedModels_nonempty active_models) as Hne.
  destruct (last (getOrderedModels (activeModels active_models)))
    as [m|] eqn:Hlast; [|now apply last_None in Hlast].
  assert (Hm : m ∈ getOrderedModels (activeModels active_models)).
  { apply last_Some in Hlast as [l' ->]. apply elem_of_app. right.
    apply elem_of_cons. now left. }
  destruct (try_model (invoke m)) as [q|e] eqn:Em.
  { eapply Forall_forall in Hall; [|exact Hm]. now destruct (Hall q). }
  exists m, e. split; [reflexivity|]. split; [exact Em|].
  assert (Hcall : callAIAPI (Some u) invoke active_models
            = inr (Error ("AI generation failed with all active models. Last error: "
                          +:+ show_last (Some e)))).
  { unfold callAIAPI.
    destruct (try_models_app invoke
                (getOrderedModels (activeModels active_models)) [] None Hall)
      as (l'&E&_&Hl').
    rewrite app_nil_r in E. rewrite E. cbn [try_models].
    now rewrite (Hl' m e Hlast Em). }
  split; [exact Hcall|].
  unfold generateContent. rewrite Hcall. reflexivity.
Qed.

Lemma generation_failure_quotes_last_error_witness :
  ∃ m e,
    last (getOrderedModels (activeModels (Some ["llama3-8b"; "my-model"])))
    = Some m
    ∧ try_model (over_quota m) = inr e
    ∧ callAIAPI (Some "u1") over_quota (Some ["llama3-8b"; "my-model"])
      = inr (Error ("AI generation failed with all active models. Last error: "
                    +:+ show_last (Some e)))
    ∧ generateContent (Some "u1") (inr (Some ["llama3-8b"; "my-model"]))
        over_quota "devto"
      = inr (Error ("Failed to generate content for " +:+ "devto" +:+ ": "
                    +:+ "AI generation failed with all active models. Last error: "
                    +:+ show_last (Some e))).
Proof.
  apply (generation_failure_quotes_last_error (Some "u1") over_quota
           (Some ["llama3-8b"; "my-model"]) "devto").
  - eexists. reflexivity.
  - repeat constructor; intros q; discriminate.
Defined.


(** * The platform API *)

Import PlatformAPI PlatformSamples.

Lemma tagToSubreddit_cases key sr :
  tagToSubreddit key = Some sr →
  sr ∈ ["javascript"; "typescript"; "reactjs"; "webdev"; "programming"].
Proof.
  unfold tagToSubreddit. intros H.
  repeat case_bool_decide; simplify_eq; set_solver.
Qed.

(** X28. The subreddit chosen for a Reddit post is one of the available
    ones, as soon as the first available one is not the empty string; it is
    either that first one or the subreddit that the table gives for one of
    the tags. *)
Theorem selectSubreddit_is_available (tags availableSubreddits : list string)
    (sr : string) :
  head availableSubreddits = Some sr →
  sr ≠ "" →
  selectSubreddit tags availableSubreddits ∈ availableSubreddits
  ∧ (selectSubreddit tags availableSubreddits = sr
     ∨ ∃ tag, tag ∈ tags
              ∧ tagToSubreddit (toLowerCase tag)
                = Some (selectSubreddit tags availableSubreddits)).
Proof.
  intros Hhd Hne. destruct availableSubreddits as [|sr0 rest]; [done|].
  cbn in Hhd. simplify_eq.
  induction tags as [|tag tags IH]; cbn [selectSubreddit].
  - rewrite bool_decide_false by done. split; [|now left].
    apply elem_of_cons. now left.
  - destruct (tagToSubreddit (toLowerCase tag)) as [m|] eqn:Hm.
    + case_bool_decide as Hin.
      * split; [exact Hin|]. right. exists tag. split; [|exact Hm].
        apply elem_of_cons. now left.
      * destruct IH as [IH1 [IH2|[t [Ht1 Ht2]]]]; (split; [exact IH1|]);
          [now left|]. right. exists t. split; [|exact Ht2].
        apply elem_of_cons. now right.
    + destruct IH as [IH1 [IH2|[t [Ht1 Ht2]]]]; (split; [exact IH1|]);
        [now left|]. right. exists t. split; [|exact Ht2].
      apply elem_of_cons. now right.
Qed.

Lemma selectSubreddit_is_available_witness :
  selectSubreddit ["CSS"; "React"] ["webdev"; "reactjs"] = "reactjs"
  ∧ selectSubreddit ["CSS"; "React"] ["webdev"; "reactjs"]
    ∈ ["webdev"; "reactjs"].
Proof.
  split; [reflexivity|].
  refine (proj1 (selectSubreddit_is_available ["CSS"; "React"]
                   ["webdev"; "reactjs"] "webdev" _ _)); [reflexivity|done].
Defined.

Lemma postToYouTube_refuses net c :
  ∃ e, postToYouTube net (post_content_of c) = (inr e, None)
       ∧ youtube_refusal (err_message e).
Proof.
  unfold postToYouTube, getCredentials, youtube_refusal.
  destruct (net_user net); [|eexists; split; [reflexivity|cbn; tauto]].
  destruct (net_platforms net "youtube");
    [|eexists; split; [reflexivity|cbn; tauto]].
  cbn [pc_mediaType post_content_of].
  rewrite (bool_decide_false (None = Some video_media)) by done.
  rewrite orb_true_r. eexists; split; [reflexivity|cbn; tauto].
Qed.

(** X29. [postToYouTube] never uploads what the scheduler hands it: the
    payload of a job carries no [mediaType], so whatever the network
    answers the call throws before any request to YouTube, with one of
    three messages, and writes no credentials. *)
Theorem youtube_rejects_scheduler_content (net : Net) (c : Content) :
  ∃ e, postToYouTube net (post_content_of c) = (inr e, None)
       ∧ youtube_refusal (err_message e).
Proof. apply postToYouTube_refuses. Qed.

Lemma youtube_dispatch_fails net env job :
  youtube_is_live net env →
  platform job = "youtube" →
  ∃ msg, dispatch env job = inr msg ∧ youtube_refusal msg.
Proof.
  intros Hlive Hp. unfold dispatch. rewrite Hp.
  rewrite bool_decide_true by (unfold supported_platforms; set_solver).
  rewrite (Hlive job Hp).
  destruct (postToYouTube_refuses net (content job)) as [e [-> Hr]].
  cbn. eauto.
Qed.

(** X30. With that method behind the dispatch, the loop body never
    publishes a YouTube job: the job stays in the list with one more
    attempt, and the row of its post is left [posting], or [failed] with
    one of the three refusals as its error message once the attempts are
    used up. *)
Theorem youtube_job_is_never_published (net : Net) (env : TickEnv)
    (w : World) (l : nat) (job : PostingJob) :
  youtube_is_live net env →
  heap w !! l = Some job →
  platform job = "youtube" →
  postId job ∉ processingJobs w →
  jobs (process_job env w l) = jobs w
  ∧ heap (process_job env w l) !! l = Some (job_after_failure env job)
  ∧ attempts (job_after_failure env job) = attempts job + 1
  ∧ ∀ p, p ∈ content_posts (process_job env w l) →
         p_id p = postId job →
         p_status p = posting
         ∨ (p_status p = failed ∧ 3 <= attempts job + 1
            ∧ ∃ msg, p_error_message p = Some msg ∧ youtube_refusal msg).
Proof.
  intros Hlive Hj Hp Hnot.
  destruct (youtube_dispatch_fails net env job Hlive Hp) as [msg [Hd Hr]].
  destruct (process_job_eq env w l job Hj Hnot) as (Hrows&Hjobs&Hheap).
  rewrite Hd in Hjobs, Hheap.
  split; [exact Hjobs|]. split.
  { rewrite Hheap. apply list_lookup_insert_eq.
    now apply lookup_lt_Some in Hj. }
  split.
  { unfold job_after_failure. cbn [attempts with_attempts].
    now destruct (attempts job + 1 <? 3). }
  intros p Hin Hid. rewrite Hrows in Hin.
  apply list_elem_of_fmap in Hin as [q [-> Hq]].
  destruct (decide (p_id q = postId job)) as [E|E].
  - unfold outcome_row. rewrite Hd.
    destruct (attempts job + 1 <? 3) eqn:Hlt.
    + now left.
    + right. cbn. split; [reflexivity|]. split; [lia|]. eauto.
  - done.
Qed.

Lemma youtube_job_is_never_published_witness :
  jobs (process_job (youtube_tick 300000) youtube_queue 0) = [0%nat]
  ∧ attempts (job_after_failure (youtube_tick 300000) youtube_job) = 1.
Proof.
  assert (Hlive : youtube_is_live youtube_up (youtube_tick 300000))
    by (intros job _; reflexivity).
  pose proof (youtube_job_is_never_published youtube_up (youtube_tick 300000)
                youtube_queue 0 youtube_job Hlive eq_refl eq_refl
                (not_elem_of_empty (C := gset nat) _)) as (Hjobs&_&Hatt&_).
  split; [exact Hjobs | exact Hatt].
Defined.
